(** * Percentile conversion of competition scores (count_percentile.py)

    A shallow embedding of the score parser, the leaderboard loader, the
    percentile calculator and the row/column sweep of [count_percentile.py],
    followed by the properties the specification states about them and
    by further properties of the same code.  The summary statistics of
    [agg_stats] (median_type_model_lang.py), which reads the converted
    sheet, are embedded as well.

    Modelling conventions.
    - A Python [str] is a [string] whose characters are read as the code
      points 0..255.
    - A Python [float] is a [pyfloat]: a finite value is a rational, the
      two infinities and NaN are kept, since the control flow of the code
      depends on them.  The arithmetic on floats is modelled twice.  The
      definitions at the top level compute exactly, without rounding or
      overflow; the properties stated over them are properties of order,
      range and shape.  [Module Binary64] rounds every result to the
      nearest binary64 number; the percentile formula, the direction
      inference and the quartiles of a group, which depend on the last
      bit, are stated over it.
    - Console output is a list of [event]s, one per printed warning, error
      or skipped-value line. *)

From Stdlib Require Import ZArith QArith Lqa Lia String Ascii List Bool DecimalString.
From Stdlib Require Import Sorted Permutation DecimalPos Qround Qabs Qpower.
From stdpp Require Import base gmap strings list.

Local Open Scope string_scope.
Local Open Scope list_scope.
Local Open Scope Z_scope.

(** ** Text primitives of Python used by the code *)

Module Text.

(** [str.isspace] on the code points below 256. *)
Definition py_isspace (c : ascii) : bool :=
  let n := nat_of_ascii c in
  ((9 <=? n)%nat && (n <=? 13)%nat) || ((28 <=? n)%nat && (n <=? 32)%nat)
  || (n =? 133)%nat || (n =? 160)%nat.

Fixpoint lstrip (s : string) : string :=
  match s with
  | String c s' => if py_isspace c then lstrip s' else s
  | EmptyString => EmptyString
  end.

Fixpoint rstrip (s : string) : string :=
  match s with
  | EmptyString => EmptyString
  | String c s' =>
      match rstrip s' with
      | EmptyString => if py_isspace c then EmptyString else String c EmptyString
      | r => String c r
      end
  end.

(** [s.strip()] *)
Definition strip (s : string) : string := rstrip (lstrip s).

(** [str.lower] on one code point below 256: A-Z and the Latin-1 capitals. *)
Definition lower_char (c : ascii) : ascii :=
  let n := nat_of_ascii c in
  if ((65 <=? n)%nat && (n <=? 90)%nat)
     || ((192 <=? n)%nat && (n <=? 222)%nat && negb (n =? 215)%nat)
  then ascii_of_nat (n + 32) else c.

Fixpoint lower (s : string) : string :=
  match s with
  | EmptyString => EmptyString
  | String c s' => String (lower_char c) (lower s')
  end.

(** [text.startswith(p)] *)
Definition startswith (s p : string) : bool := String.prefix p s.

(** [c in s] for a one-character needle. *)
Fixpoint contains (c : ascii) (s : string) : bool :=
  match s with
  | EmptyString => false
  | String d s' => Ascii.eqb d c || contains c s'
  end.

(** [s.split(sep)] for a one-character separator; the result is never
    empty. *)
Fixpoint split (sep : ascii) (s : string) : list string :=
  match s with
  | EmptyString => [EmptyString]
  | String c s' =>
      if Ascii.eqb c sep then EmptyString :: split sep s'
      else match split sep s' with
           | p :: ps => String c p :: ps
           | [] => [String c EmptyString]
           end
  end.

(** [str(n)] for an integer. *)
Definition str_of_Z (z : Z) : string := NilZero.string_of_int (Z.to_int z).

(** A non-negative number written with at least [width] digits, as
    [strftime] writes the fields of a date. *)
Definition zero_pad (width : nat) (n : nat) : string :=
  let s := str_of_Z (Z.of_nat n) in
  (String.concat "" (repeat "0" (width - String.length s)) ++ s)%string.

End Text.

(** ** Floating-point values *)

Inductive pyfloat : Type :=
| Finite (q : Q)
| Infinity (negative : bool)
| NaN.

Module Float.

Definition isnan (x : pyfloat) : bool :=
  match x with NaN => true | _ => false end.

Definition isfinite (x : pyfloat) : bool :=
  match x with Finite _ => true | _ => false end.

(** [x < y]; every comparison with NaN is false. *)
Definition lt (x y : pyfloat) : bool :=
  match x, y with
  | NaN, _ | _, NaN => false
  | Finite a, Finite b => match (a ?= b)%Q with Lt => true | _ => false end
  | Finite _, Infinity neg => negb neg
  | Infinity neg, Finite _ => neg
  | Infinity n1, Infinity n2 => n1 && negb n2
  end.

(** [x <= y] *)
Definition le (x y : pyfloat) : bool :=
  match x, y with
  | NaN, _ | _, NaN => false
  | Finite a, Finite b => match (a ?= b)%Q with Gt => false | _ => true end
  | Finite _, Infinity neg => negb neg
  | Infinity neg, Finite _ => neg
  | Infinity n1, Infinity n2 => n1 || negb n2
  end.

Definition neg (x : pyfloat) : pyfloat :=
  match x with
  | Finite a => Finite (- a)%Q
  | Infinity n => Infinity (negb n)
  | NaN => NaN
  end.

Definition add (x y : pyfloat) : pyfloat :=
  match x, y with
  | NaN, _ | _, NaN => NaN
  | Finite a, Finite b => Finite (a + b)%Q
  | Finite _, Infinity n | Infinity n, Finite _ => Infinity n
  | Infinity n1, Infinity n2 => if Bool.eqb n1 n2 then Infinity n1 else NaN
  end.

Definition sub (x y : pyfloat) : pyfloat := add x (neg y).

(** Division of a float by a positive count. *)
Definition div_count (x : pyfloat) (n : nat) : pyfloat :=
  match x with
  | Finite a => Finite (a / inject_Z (Z.of_nat n))%Q
  | other => other
  end.

(** Round half to even on an exact rational. *)
Definition round_half_even (q : Q) : Z :=
  let d := Z.pos (Qden q) in
  let f := Qnum q / d in
  match (2 * (Qnum q mod d) ?= d) with
  | Lt => f
  | Gt => f + 1
  | Eq => if Z.even f then f else f + 1
  end.

(** The builtin [round(x)] with one argument: an integer, or an exception
    ([None]) on an infinity (OverflowError) and on NaN (ValueError). *)
Definition py_round (x : pyfloat) : option Z :=
  match x with
  | Finite q => Some (round_half_even q)
  | _ => None
  end.

(** [max(0, x)]: the builtin keeps its first argument unless the second
    compares greater. *)
Definition max0 (x : pyfloat) : pyfloat :=
  if lt (Finite 0) x then x else Finite 0.

End Float.

(** ** The builtin [float(text)] *)

Module FloatParse.

Import Text.

Definition is_digit (c : ascii) : bool :=
  let n := nat_of_ascii c in (48 <=? n)%nat && (n <=? 57)%nat.

Definition digit_val (c : ascii) : Z := Z.of_nat (nat_of_ascii c - 48).

(** Whitespace that [float] removes at both ends. *)
Definition float_isspace (c : ascii) : bool :=
  let n := nat_of_ascii c in
  ((9 <=? n)%nat && (n <=? 13)%nat) || (n =? 32)%nat
  || (n =? 133)%nat || (n =? 160)%nat.

Fixpoint float_lstrip (s : string) : string :=
  match s with
  | String c s' => if float_isspace c then float_lstrip s' else s
  | EmptyString => EmptyString
  end.

Fixpoint float_rstrip (s : string) : string :=
  match s with
  | EmptyString => EmptyString
  | String c s' =>
      match float_rstrip s' with
      | EmptyString => if float_isspace c then EmptyString else String c EmptyString
      | r => String c r
      end
  end.

(** Underscores are accepted between two digits only, and are dropped. *)
Fixpoint drop_underscores (prev : ascii) (s : string) : option string :=
  match s with
  | EmptyString => if Ascii.eqb prev "_" then None else Some EmptyString
  | String c s' =>
      if Ascii.eqb c "_" then
        if is_digit prev then drop_underscores c s' else None
      else if Ascii.eqb prev "_" && negb (is_digit c) then None
      else option_map (String c) (drop_underscores c s')
  end.

Definition read_sign (s : string) : bool * string :=
  match s with
  | String "-" s' => (true, s')
  | String "+" s' => (false, s')
  | _ => (false, s)
  end.

(** ASCII-only lowering, as the C parser compares letters. *)
Definition ascii_lower (c : ascii) : ascii :=
  let n := nat_of_ascii c in
  if (65 <=? n)%nat && (n <=? 90)%nat then ascii_of_nat (n + 32) else c.

Fixpoint lower_ascii (s : string) : string :=
  match s with
  | EmptyString => EmptyString
  | String c s' => String (ascii_lower c) (lower_ascii s')
  end.

(** The unsigned literals [inf], [infinity] and [nan], in any case. *)
Definition special_literal (s : string) : option (bool -> pyfloat) :=
  let l := lower_ascii s in
  if String.eqb l "inf" || String.eqb l "infinity" then Some Infinity
  else if String.eqb l "nan" then Some (fun _ => NaN)
  else None.

Fixpoint read_digits (acc : Z) (n : nat) (s : string) : Z * nat * string :=
  match s with
  | String c s' =>
      if is_digit c then read_digits (10 * acc + digit_val c) (S n) s'
      else (acc, n, s)
  | EmptyString => (acc, n, s)
  end.

(** An unsigned decimal literal [digits [. digits] [e [sign] digits]] with
    at least one mantissa digit, read as mantissa and power of ten. *)
Definition parse_decimal (s : string) : option (Z * Z) :=
  let '(m1, n1, r1) := read_digits 0 0 s in
  let '(m2, n2, r2) :=
    match r1 with
    | String "." r => read_digits m1 0 r
    | _ => (m1, 0%nat, r1)
    end in
  if (n1 + n2 =? 0)%nat then None
  else match r2 with
       | EmptyString => Some (m2, - Z.of_nat n2)
       | String c r3 =>
           if Ascii.eqb (ascii_lower c) "e" then
             let '(eneg, r4) := read_sign r3 in
             let '(e, ne, r5) := read_digits 0 0 r4 in
             if (ne =? 0)%nat then None
             else match r5 with
                  | EmptyString =>
                      Some (m2, (if eneg then - e else e) - Z.of_nat n2)
                  | _ => None
                  end
           else None
       end.

(** Magnitudes from [2^1024 - 2^970] on round to an infinity. *)
Definition overflow_threshold : Z := 2 ^ 1024 - 2 ^ 970.

Definition overflows (m e : Z) : bool :=
  if 0 <=? e then overflow_threshold <=? m * 10 ^ e
  else overflow_threshold * 10 ^ (- e) <=? m.

Definition decimal_value (m e : Z) : Q :=
  if 0 <=? e then inject_Z (m * 10 ^ e)
  else Qmake m (Z.to_pos (10 ^ (- e))).

Definition decimal_to_float (negative : bool) (m e : Z) : pyfloat :=
  if overflows m e then Infinity negative
  else Finite (if negative then - decimal_value m e else decimal_value m e)%Q.

(** [float(s)]; [None] stands for ValueError. *)
Definition py_float (s : string) : option pyfloat :=
  match drop_underscores "000" (float_rstrip (float_lstrip s)) with
  | None => None
  | Some u =>
      let '(negative, r) := read_sign u in
      match special_literal r with
      | Some mk => Some (mk negative)
      | None =>
          match parse_decimal r with
          | Some (m, e) => Some (decimal_to_float negative m e)
          | None => None
          end
      end
  end.

End FloatParse.

(** ** Spreadsheet cells and the score parser *)

(** A cell of the SCORES sheet as pandas hands it over.  A float cell is
    carried by its [repr] text in [CellStr]: the code reads a score cell
    only through [str()], and NaN is [CellNA]. *)
Inductive cell : Type :=
| CellNA
| CellInt (z : Z)
| CellStr (s : string)
| CellDate (year month day : nat).

Definition isna (c : cell) : bool :=
  match c with CellNA => true | _ => false end.

(** [value.strftime('%Y-%m-%d')], for years of up to four digits. *)
Definition strftime_ymd (year month day : nat) : string :=
  (Text.zero_pad 4 year ++ "-" ++ Text.zero_pad 2 month ++ "-" ++ Text.zero_pad 2 day)%string.

(** [str(value)]; a date is a timestamp at midnight. *)
Definition py_str (c : cell) : string :=
  match c with
  | CellNA => "nan"
  | CellInt z => Text.str_of_Z z
  | CellStr s => s
  | CellDate y m d => (strftime_ymd y m d ++ " 00:00:00")%string
  end.

Definition is_url (text : string) : bool :=
  Text.startswith text "http://" || Text.startswith text "https://"
  || Text.startswith text "www.".

Definition null_sentinels : list string := [""; "n/a"; "na"; "null"; "none"].

Definition parse_score_value (score_text : cell) : option pyfloat :=
  if isna score_text then None
  else
    let score_str := Text.strip (py_str score_text) in
    if is_url score_str then None
    else if String.eqb score_str "" || existsb (String.eqb (Text.lower score_str)) null_sentinels
    then None
    else if Text.contains "," score_str then
      let parts := Text.split "," score_str in
      let first_part := Text.strip (hd "" parts) in
      FloatParse.py_float first_part
    else FloatParse.py_float score_str.

(** ** Leaderboards *)

(** A leaderboard as [read_csv] types it: the Rank column is numeric
    (whole numbers here) or textual as a whole; each row pairs a rank with
    a score. *)
Inductive Leaderboard : Type :=
| NumRanked (rows : list (Z * pyfloat))
| TextRanked (rows : list (string * pyfloat)).

Section SortValues.
Context {K : Type} (leb : K -> K -> bool).

Fixpoint insert_by (x : K * pyfloat) (l : list (K * pyfloat)) : list (K * pyfloat) :=
  match l with
  | [] => [x]
  | y :: l' => if leb (fst x) (fst y) then x :: l else y :: insert_by x l'
  end.

(** Rows in ascending order of rank.  Rows of equal rank keep their
    order here; pandas' default sort leaves that order open. *)
Fixpoint sort_by (l : list (K * pyfloat)) : list (K * pyfloat) :=
  match l with
  | [] => []
  | x :: l' => insert_by x (sort_by l')
  end.
End SortValues.

(** [len(leaderboard_df)] *)
Definition n_rows (leaderboard_df : Leaderboard) : nat :=
  match leaderboard_df with
  | NumRanked rows => length rows
  | TextRanked rows => length rows
  end.

(** [leaderboard_df['Score']] *)
Definition Score (leaderboard_df : Leaderboard) : list pyfloat :=
  match leaderboard_df with
  | NumRanked rows => map snd rows
  | TextRanked rows => map snd rows
  end.

(** [leaderboard_df.sort_values('Rank')]: numbers in numeric order, text
    in code-point order. *)
Definition sort_values (leaderboard_df : Leaderboard) : Leaderboard :=
  match leaderboard_df with
  | NumRanked rows => NumRanked (sort_by Z.leb rows)
  | TextRanked rows => TextRanked (sort_by String.leb rows)
  end.

(** [series.dropna()] *)
Definition dropna (l : list pyfloat) : list pyfloat :=
  List.filter (fun x => negb (Float.isnan x)) l.

(** [series.head(n)] and [series.tail(n)] *)
Definition df_head (n : nat) (l : list pyfloat) : list pyfloat := take n l.
Definition df_tail (n : nat) (l : list pyfloat) : list pyfloat := drop (length l - n) l.

(** The sum behind [series.mean()], accumulated from the left. *)
Definition sum (l : list pyfloat) : pyfloat := fold_left Float.add l (Finite 0).

(** [series.mean()] *)
Definition mean (l : list pyfloat) : pyfloat :=
  match l with
  | [] => NaN
  | _ => Float.div_count (sum l) (length l)
  end.

(** [np.count_nonzero] of a comparison against the column. *)
Definition count (p : pyfloat -> bool) (a : list pyfloat) : Z :=
  Z.of_nat (length (List.filter p a)).

(** [scipy.stats.percentileofscore(a, score, kind='rank')] with the
    default [nan_policy='propagate']. *)
Definition percentileofscore (a : list pyfloat) (score : pyfloat) : pyfloat :=
  if existsb Float.isnan a then NaN
  else if Float.isnan score then NaN
  else if (length a =? 0)%nat then NaN
  else
    let left := count (fun x => Float.lt x score) a in
    let right := count (fun x => Float.le x score) a in
    let plus1 := if left <? right then 1 else 0 in
    Finite (inject_Z (left + right + plus1) * (50 / inject_Z (Z.of_nat (length a))))%Q.

(** Lines 251-256: the direction read off the rank order. *)
Definition higher_is_better (leaderboard_df : Leaderboard) : bool :=
  let leaderboard_sorted := sort_values leaderboard_df in
  let first_scores := dropna (df_head 10 (Score leaderboard_sorted)) in
  let last_scores := dropna (df_tail 10 (Score leaderboard_sorted)) in
  if (0 <? length first_scores)%nat && (0 <? length last_scores)%nat
  then Float.lt (mean last_scores) (mean first_scores)
  else true.

(** [None] is the function's None, returned directly or from the handler
    of an exception.  The [isinstance] test on the score always passes for
    a [pyfloat]. *)
Definition calculate_percentile (our_score : pyfloat) (leaderboard_df : Leaderboard)
    (total_teams : nat) : option Z :=
  let scores := dropna (Score leaderboard_df) in
  if (length scores =? 0)%nat then None
  else
    let percentile :=
      if higher_is_better leaderboard_df
      then Float.max0 (Float.sub (percentileofscore scores our_score) (Finite 1))
      else Float.sub (Finite 100) (percentileofscore scores our_score) in
    match Float.py_round percentile with
    | None => None
    | Some result => Some (Z.max 1 (Z.min 100 result))
    end.

(** ** Console output *)

(** The warning, error and skipped-value lines; progress lines are left
    out. *)
Inductive event : Type :=
| WarnNoRankColumn (file : string)
| WarnNoScoreColumn (file : string)
| WarnNoValidData (file : string)
| ErrorReading (file : string)
| WarnLeaderboardNotFound (competition : string)
| SkippedValue (raw : cell)
| CalcFailed (score : pyfloat).

(** ** The leaderboard loader *)

(** A cell of the Score column as [read_csv] leaves it: missing, a
    number, or a text when the column holds any text. *)
Inductive score_cell : Type :=
| ScoreNA
| ScoreNum (x : pyfloat)
| ScoreStr (s : string).

(** The rows of a file that has both columns, by the type of its Rank
    column; a missing rank is [None]. *)
Inductive csv_rows : Type :=
| CsvNumRanked (rows : list (option Z * score_cell))
| CsvTextRanked (rows : list (option string * score_cell)).

(** What the two column tests of the loader see. *)
Inductive csv_table : Type :=
| NoRankColumn
| NoScoreColumn
| Table (body : csv_rows).

(** One file of the folder: its base name and what [read_csv] makes of it
    ([None] when it raises). *)
Record csv_file : Type := {
  competition_name : string;
  read_csv : option csv_table
}.

(** A value of the [leaderboards] dictionary. *)
Record entry : Type := {
  df : Leaderboard;
  total_teams : nat
}.

Section Loader.
(** What [pd.to_numeric] reads from a text cell, if anything. *)
Variable to_numeric_text : string -> option pyfloat.

(** [pd.to_numeric(cell, errors='coerce')] *)
Definition to_numeric (c : score_cell) : pyfloat :=
  match c with
  | ScoreNA => NaN
  | ScoreNum x => x
  | ScoreStr s => default NaN (to_numeric_text s)
  end.

(** [dropna(subset=['Rank'])], coercion of Score, [dropna(subset=['Score'])]. *)
Fixpoint clean_rows {K : Type} (rows : list (option K * score_cell)) : list (K * pyfloat) :=
  match rows with
  | [] => []
  | (Some rank, score) :: rest =>
      if Float.isnan (to_numeric score) then clean_rows rest
      else (rank, to_numeric score) :: clean_rows rest
  | (None, _) :: rest => clean_rows rest
  end.

Definition clean (body : csv_rows) : Leaderboard :=
  match body with
  | CsvNumRanked rows => NumRanked (clean_rows rows)
  | CsvTextRanked rows => TextRanked (clean_rows rows)
  end.

(** One turn of the loading loop. *)
Definition load_file (state : gmap string entry * list event) (csv : csv_file)
    : gmap string entry * list event :=
  let '(leaderboards, out) := state in
  match read_csv csv with
  | None => (leaderboards, out ++ [ErrorReading (competition_name csv)])
  | Some NoRankColumn => (leaderboards, out ++ [WarnNoRankColumn (competition_name csv)])
  | Some NoScoreColumn => (leaderboards, out ++ [WarnNoScoreColumn (competition_name csv)])
  | Some (Table body) =>
      let leaderboard_df := clean body in
      let total_teams := n_rows leaderboard_df in
      if (total_teams =? 0)%nat
      then (leaderboards, out ++ [WarnNoValidData (competition_name csv)])
      else (<[competition_name csv := {| df := leaderboard_df; total_teams := total_teams |}]>
              leaderboards, out)
  end.

Definition load_leaderboards (csv_files : list csv_file) : gmap string entry * list event :=
  fold_left load_file csv_files (∅, []).
End Loader.

(** ** The sweep over the SCORES sheet *)

(** The sheet read with [header=None]: [len(df.columns)] and the rows. *)
Record Sheet : Type := {
  n_columns : nat;
  cells : list (list cell)
}.

Definition rectangular (sheet : Sheet) : Prop :=
  Forall (fun row => length row = n_columns sheet) (cells sheet).

Record sweep_state : Type := {
  result_df : list (list cell);
  updates_count : nat;
  console : list event
}.

Definition start_col : nat := 11.
Definition end_col (sheet : Sheet) : nat := Nat.min 88 (n_columns sheet - 1).

(** [range(start_col, end_col + 1)] *)
Definition result_columns (sheet : Sheet) : list nat :=
  seq start_col (end_col sheet + 1 - start_col).

(** The label looked up among the leaderboards. *)
Definition competition_str (competition : cell) : string :=
  match competition with
  | CellDate y m d => strftime_ymd y m d
  | other => py_str other
  end.

(** [result_df.iloc[idx, col_idx] = value] *)
Definition set_cell (table : list (list cell)) (idx col_idx : nat) (value : cell)
    : list (list cell) :=
  alter (fun row => <[col_idx := value]> row) idx table.

(** The loop over the result columns of one row; [None] is an uncaught
    IndexError. *)
Fixpoint process_columns (sheet : Sheet) (row : list cell) (lb : entry) (idx : nat)
    (cols : list nat) (st : sweep_state) : option sweep_state :=
  match cols with
  | [] => Some st
  | col_idx :: rest =>
      if (n_columns sheet <=? col_idx)%nat then Some st
      else
        match row !! col_idx with
        | None => None
        | Some score_raw =>
            match parse_score_value score_raw with
            | None =>
                let out :=
                  if (updates_count st <? 5)%nat && negb (isna score_raw)
                  then console st ++ [SkippedValue score_raw] else console st in
                process_columns sheet row lb idx rest
                  {| result_df := result_df st; updates_count := updates_count st;
                     console := out |}
            | Some score =>
                match calculate_percentile score (df lb) (total_teams lb) with
                | Some percentile =>
                    process_columns sheet row lb idx rest
                      {| result_df := set_cell (result_df st) idx col_idx (CellInt percentile);
                         updates_count := S (updates_count st);
                         console := console st |}
                | None =>
                    process_columns sheet row lb idx rest
                      {| result_df := result_df st; updates_count := updates_count st;
                         console := console st ++ [CalcFailed score] |}
                end
            end
        end
  end.

(** The body of the loop over the data rows. *)
Definition process_row (sheet : Sheet) (leaderboards : gmap string entry)
    (st : sweep_state) (idx : nat) : option sweep_state :=
  match cells sheet !! idx with
  | None => None
  | Some row =>
      match row !! 4%nat with
      | None => None
      | Some competition =>
          if isna competition then Some st
          else
            match leaderboards !! competition_str competition with
            | None =>
                Some {| result_df := result_df st; updates_count := updates_count st;
                        console := console st
                                   ++ [WarnLeaderboardNotFound (competition_str competition)] |}
            | Some lb => process_columns sheet row lb idx (result_columns sheet) st
            end
      end
  end.

Fixpoint process_rows (sheet : Sheet) (leaderboards : gmap string entry)
    (idxs : list nat) (st : sweep_state) : option sweep_state :=
  match idxs with
  | [] => Some st
  | idx :: rest =>
      match process_row sheet leaderboards st idx with
      | None => None
      | Some st' => process_rows sheet leaderboards rest st'
      end
  end.

(** [range(2, len(df))] *)
Definition data_rows (sheet : Sheet) : list nat :=
  seq 2 (length (cells sheet) - 2).

(** The sweep of [convert_scores_to_percentiles] from the loaded
    leaderboards on; the result holds the returned [result_df]. *)
Definition sweep (sheet : Sheet) (leaderboards : gmap string entry) (out : list event)
    : option sweep_state :=
  process_rows sheet leaderboards (data_rows sheet)
    {| result_df := cells sheet; updates_count := 0; console := out |}.

Definition convert_scores_to_percentiles (to_numeric_text : string -> option pyfloat)
    (sheet : Sheet) (csv_files : list csv_file) : option sweep_state :=
  let '(leaderboards, out) := load_leaderboards to_numeric_text csv_files in
  sweep sheet leaderboards out.

(** ** Definitions used to state the properties *)

(** A score is numeric when it is a number: pandas treats NaN as a
    missing value, and [dropna] removes it. *)
Definition numeric (x : pyfloat) : Prop := Float.isnan x = false.

(** A leaderboard with at least one numeric score. *)
Definition has_numeric_score (d : Leaderboard) : Prop :=
  exists x, In x (Score d) /\ numeric x.

(** The final clamp into [1, 100]. *)
Definition clamp (z : Z) : Z := Z.max 1 (Z.min 100 z).

(** The segment of a text before its first comma. *)
Fixpoint before_first_comma (s : string) : string :=
  match s with
  | EmptyString => EmptyString
  | String c s' => if Ascii.eqb c "," then EmptyString else String c (before_first_comma s')
  end.

(** The text that the parser hands to [float], if it gets that far. *)
Definition float_argument (c : cell) : string :=
  let t := Text.strip (py_str c) in
  if Text.contains "," t then Text.strip (before_first_comma t) else t.

(** A text that [float] reads as an infinity or NaN: after the trimming
    and the sign, one of the three special words, or a decimal literal of
    overflowing magnitude. *)
Definition nonfinite_literal (text : string) : Prop :=
  exists u negative r,
    FloatParse.drop_underscores "000" (FloatParse.float_rstrip (FloatParse.float_lstrip text)) = Some u
    /\ FloatParse.read_sign u = (negative, r)
    /\ (In (FloatParse.lower_ascii r) ["inf"; "infinity"; "nan"]
        \/ exists m e, FloatParse.parse_decimal r = Some (m, e)
                       /\ FloatParse.overflows m e = true).

(** Rank order of a leaderboard, and having the same rows as another. *)
Definition ranks_ascending (d : Leaderboard) : Prop :=
  match d with
  | NumRanked rows => Sorted (fun a b => fst a <= fst b) rows
  | TextRanked rows => Sorted (fun a b => String.leb (fst a) (fst b) = true) rows
  end.

Definition same_rows (d1 d2 : Leaderboard) : Prop :=
  match d1, d2 with
  | NumRanked r1, NumRanked r2 => Permutation r1 r2
  | TextRanked r1, TextRanked r2 => Permutation r1 r2
  | _, _ => False
  end.

(** What a loaded entry guarantees. *)
Definition entry_valid (e : entry) : Prop :=
  total_teams e = n_rows (df e)
  /\ (1 <= n_rows (df e))%nat
  /\ Forall numeric (Score (df e)).

(** An entry of the loaded map stems from a file of the folder that has
    both columns and at least one surviving row. *)
Definition loaded_from (to_numeric_text : string -> option pyfloat)
    (csv_files : list csv_file) (name : string) (e : entry) : Prop :=
  exists file body,
    In file csv_files
    /\ competition_name file = name
    /\ read_csv file = Some (Table body)
    /\ e = {| df := clean to_numeric_text body;
              total_teams := n_rows (clean to_numeric_text body) |}
    /\ n_rows (clean to_numeric_text body) <> 0%nat.

(** Twenty teams ranked 1 to 20 with scores falling from 1.00 to 0.05. *)
Definition leaderboard_20 : Leaderboard :=
  NumRanked (map (fun i => (Z.of_nat i, Finite (Qmake (Z.of_nat (21 - i)) 20))) (seq 1 20)).

(** A leaderboard file whose first rank is not a number; its second row
    has no rank and its third no score. *)
Definition text_ranked_file : csv_file :=
  {| competition_name := "2024-05-01";
     read_csv := Some (Table (CsvTextRanked
                   [(Some "abc", ScoreNum (Finite 0.5));
                    (None, ScoreNum (Finite 0.7));
                    (Some "2", ScoreNA)])) |}.

(** The cell at a position of a table. *)
Definition cell_at (table : list (list cell)) (i j : nat) : option cell :=
  match table !! i with
  | Some row => row !! j
  | None => None
  end.

(** The value the sweep leaves at position [(idx, col_idx)], whose input
    value is [original]. *)
Definition expected_cell (sheet : Sheet) (leaderboards : gmap string entry)
    (idx col_idx : nat) (original : cell) : cell :=
  if (2 <=? idx)%nat && (start_col <=? col_idx)%nat && (col_idx <=? end_col sheet)%nat then
    match cell_at (cells sheet) idx 4 with
    | Some competition =>
        if isna competition then original
        else match leaderboards !! competition_str competition with
             | Some lb =>
                 match parse_score_value original with
                 | Some score =>
                     match calculate_percentile score (df lb) (total_teams lb) with
                     | Some percentile => CellInt percentile
                     | None => original
                     end
                 | None => original
                 end
             | None => original
             end
    | None => original
    end
  else original.

Definition is_not_found (competition : string) (e : event) : bool :=
  match e with
  | WarnLeaderboardNotFound c => String.eqb c competition
  | _ => false
  end.

(** How many not-found warnings the console holds for a competition. *)
Definition not_found_warnings (competition : string) (out : list event) : nat :=
  length (List.filter (is_not_found competition) out).

(** Whether a row of the sheet is labelled with the competition. *)
Definition row_refers_to (sheet : Sheet) (competition : string) (idx : nat) : bool :=
  match cell_at (cells sheet) idx 4 with
  | Some c => negb (isna c) && String.eqb (competition_str c) competition
  | None => false
  end.

(** Position [(i, j)] comes before position [(idx, col)] in the order of
    the sweep. *)
Definition done_upto (idx col : nat) (i j : nat) : bool :=
  (i <? idx)%nat || ((i =? idx)%nat && (j <? col)%nat).

(** A table in which the positions marked done hold their final value and
    all others their input value. *)
Definition swept (sheet : Sheet) (leaderboards : gmap string entry)
    (done : nat -> nat -> bool) (table : list (list cell)) : Prop :=
  map length table = map length (cells sheet)
  /\ forall i j c,
      cell_at (cells sheet) i j = Some c ->
      cell_at table i j
      = Some (if done i j then expected_cell sheet leaderboards i j c else c).

(** A sheet of thirteen columns: two header rows, a row of the loaded
    competition 2024-05-01 and two rows of a competition without
    leaderboard; column 11 holds a score and column 12 a link. *)
Definition example_row (competition : cell) : list cell :=
  [CellInt 1; CellStr "comp"; CellNA; CellNA; competition; CellNA; CellNA;
   CellNA; CellNA; CellNA; CellNA; CellStr "0.92"; CellStr "https://example.com/run/17"].

Definition example_sheet : Sheet :=
  {| n_columns := 13;
     cells := [repeat (CellStr "header") 13; repeat (CellStr "header") 13;
               example_row (CellDate 2024 5 1);
               example_row (CellStr "missing");
               example_row (CellStr "missing")] |}.

Definition example_leaderboards : gmap string entry :=
  {[ "2024-05-01" := {| df := leaderboard_20; total_teams := 20 |} ]}.

(** Three files of the folder: the twenty teams above, a file none of
    whose rows survive, and a file that cannot be read. *)
Definition leaderboard_20_file : csv_file :=
  {| competition_name := "2024-05-01";
     read_csv := Some (Table (CsvNumRanked
                   (map (fun i => (Some (Z.of_nat i),
                                   ScoreNum (Finite (Qmake (Z.of_nat (21 - i)) 20))))
                      (seq 1 20)))) |}.

Definition empty_file : csv_file :=
  {| competition_name := "empty";
     read_csv := Some (Table (CsvNumRanked
                   [(None, ScoreStr "0.9"); (Some 2, ScoreStr "pending")])) |}.

Definition unreadable_file : csv_file :=
  {| competition_name := "broken"; read_csv := None |}.

(** Characters that no trimming, comma test or underscore rule touches. *)
Definition plain (c : ascii) : Prop :=
  Text.py_isspace c = false /\ FloatParse.float_isspace c = false
  /\ Ascii.eqb c "," = false /\ Ascii.eqb c "_" = false.

(** Twice the rank of a score on a column: the entries below it, the
    entries at or below it, and one more when it ties with an entry. *)
Definition rank_points (a : list pyfloat) (score : pyfloat) : Z :=
  let left := count (fun x => Float.lt x score) a in
  let right := count (fun x => Float.le x score) a in
  left + right + (if left <? right then 1 else 0).

(** No two rows of the leaderboard share a rank. *)
Definition distinct_ranks (d : Leaderboard) : Prop :=
  match d with
  | NumRanked rows => List.NoDup (map fst rows)
  | TextRanked rows => List.NoDup (map fst rows)
  end.

(** The warning a data row leaves when no leaderboard is loaded for it. *)
Definition row_warning (sheet : Sheet) (idx : nat) : list event :=
  match cell_at (cells sheet) idx 4 with
  | Some competition =>
      if isna competition then []
      else [WarnLeaderboardNotFound (competition_str competition)]
  | None => []
  end.

(** The skipped-value lines of a console. *)
Definition is_skipped (e : event) : bool :=
  match e with
  | SkippedValue _ => true
  | _ => false
  end.

Definition skipped_lines (out : list event) : list event := List.filter is_skipped out.

(** A sheet of three columns with one data row, and a state of the sweep
    after five conversions. *)
Definition narrow_sheet : Sheet :=
  {| n_columns := 3; cells := repeat [CellNA; CellNA; CellNA] 3 |}.

Definition after_five_updates : sweep_state :=
  {| result_df := cells example_sheet; updates_count := 5; console := [] |}.

(** ** Summary statistics of a group (median_type_model_lang.py) *)

(** The numpy functions behind [agg_stats], on a one-dimensional array of
    floats, in exact arithmetic: on whole numbers of moderate size, such
    as the percentiles of the first stage, no step rounds and the results
    are those of the program. *)
Module NumPy.

(** [x * y]; zero times an infinity is NaN. *)
Definition mul (x y : pyfloat) : pyfloat :=
  match x, y with
  | NaN, _ | _, NaN => NaN
  | Finite a, Finite b => Finite (a * b)%Q
  | Finite a, Infinity n | Infinity n, Finite a =>
      match (a ?= 0)%Q with
      | Eq => NaN
      | Lt => Infinity (negb n)
      | Gt => Infinity n
      end
  | Infinity n1, Infinity n2 => Infinity (xorb n1 n2)
  end.

(** The order of a sorted array: NaN comes after every number. *)
Definition sort_le (x y : pyfloat) : bool := Float.isnan y || Float.le x y.

Fixpoint insert (x : pyfloat) (arr : list pyfloat) : list pyfloat :=
  match arr with
  | [] => [x]
  | y :: arr' => if sort_le x y then x :: arr else y :: insert x arr'
  end.

(** The array in sorted order; [partition] leaves the same values at the
    positions that are read. *)
Fixpoint sort (arr : list pyfloat) : list pyfloat :=
  match arr with
  | [] => []
  | x :: arr' => insert x (sort arr')
  end.

(** [arr[i]] for an index within bounds and [arr[-1]]. *)
Definition item (arr : list pyfloat) (i : nat) : pyfloat := nth i arr NaN.
Definition last_item (arr : list pyfloat) : pyfloat := List.last arr NaN.

(** [np.mean] of a boolean array: the fraction of true entries. *)
Definition mean_bool (p : pyfloat -> bool) (x : list pyfloat) : pyfloat :=
  match x with
  | [] => NaN
  | _ => Finite (inject_Z (count p x) / inject_Z (Z.of_nat (length x)))%Q
  end.

(** [np.median(x)]: the mean of the middle entry or of the two middle
    entries of the sorted array, NaN when the array holds a NaN. *)
Definition median (x : list pyfloat) : pyfloat :=
  let part := sort x in
  let sz := length x in
  let index := (sz / 2)%nat in
  let middle :=
    if Nat.odd sz then firstn 1 (skipn index part)
    else firstn 2 (skipn (index - 1) part) in
  let rout := mean middle in
  if Float.isnan (last_item part) then NaN else rout.

(** [_lerp(a, b, t)]: [a + (b - a) * t], computed from [b] when
    [t >= 0.5]. *)
Definition lerp (a b : pyfloat) (t : Q) : pyfloat :=
  let diff_b_a := Float.sub b a in
  if Qle_bool (1 # 2) t
  then Float.sub b (mul diff_b_a (Finite (1 - t)))
  else Float.add a (mul diff_b_a (Finite t)).

(** [np.percentile(x, q)] for [q] within [0, 100], with the default linear
    method, on a non-empty array: the virtual index [(n - 1) * q / 100],
    its two neighbours in the sorted array (both the last entry when the
    index reaches the end) and the interpolation between them. *)
Definition percentile (x : list pyfloat) (q : Q) : pyfloat :=
  let arr := sort x in
  let values_count := Z.of_nat (length x) in
  let virtual_index := (inject_Z (values_count - 1) * (q / 100))%Q in
  let above_bounds := Qle_bool (inject_Z (values_count - 1)) virtual_index in
  let previous_index := if above_bounds then -1 else Qfloor virtual_index in
  let previous :=
    if above_bounds then last_item arr else item arr (Z.to_nat previous_index) in
  let next :=
    if above_bounds then last_item arr else item arr (Z.to_nat (previous_index + 1)) in
  let gamma := (virtual_index - inject_Z previous_index)%Q in
  if Float.isnan (last_item arr) then NaN else lerp previous next gamma.

End NumPy.

(** The series that [agg_stats] returns. *)
Module Stats.
Record t : Type := {
  median : pyfloat;
  q1 : pyfloat;
  q3 : pyfloat;
  iqr : pyfloat;
  top10_frac : pyfloat;
  below50_frac : pyfloat
}.
End Stats.

(** [agg_stats(x)] on the values of one group; a group of [groupby] is
    never empty. *)
Definition agg_stats (x : list pyfloat) : Stats.t :=
  {| Stats.median := NumPy.median x;
     Stats.q1 := NumPy.percentile x 25;
     Stats.q3 := NumPy.percentile x 75;
     Stats.iqr := Float.sub (NumPy.percentile x 75) (NumPy.percentile x 25);
     Stats.top10_frac := NumPy.mean_bool (fun v => Float.le (Finite 0.90) v) x;
     Stats.below50_frac := NumPy.mean_bool (fun v => Float.le v (Finite 0.50)) x |}.

(** A group all of whose values are finite numbers in a range. *)
Definition values_within (lo hi : Q) (x : list pyfloat) : Prop :=
  Forall (fun v => exists q, v = Finite q /\ (lo <= q <= hi)%Q) x.

(** A group all of whose values are finite numbers. *)
Definition finite_values (x : list pyfloat) : Prop :=
  Forall (fun v => Float.isfinite v = true) x.

(** A value that the first stage wrote: the percentile of some score on
    some leaderboard. *)
Definition written_percentile (v : pyfloat) : Prop :=
  exists our_score leaderboard_df total_teams p,
    calculate_percentile our_score leaderboard_df total_teams = Some p
    /\ v = Finite (inject_Z p).

(** [r] is the value at the position [v] of the line through the points
    of the sorted array [s]. *)
Definition interpolates (s : list Q) (v r : Q) : Prop :=
  exists (i : nat) (g : Q),
    (i < length s)%nat /\ (0 <= g)%Q /\ (g < 1)%Q
    /\ (v == inject_Z (Z.of_nat i) + g)%Q
    /\ (r == nth i s 0 + (nth (Nat.min (i + 1) (length s - 1)) s 0 - nth i s 0) * g)%Q.

(** ** Binary64 arithmetic *)

(** The arithmetic of the floats as the machine does it: every operation
    returns the binary64 number nearest to the exact result, the even one
    on a tie, and an infinity from 2^1024 on.  A finite value stays a
    rational; the sign of a zero is not kept, since nothing in the code
    depends on it. *)
Module Binary64.

(** The integer [e] with [2^e <= |q| < 2^(e+1)], for [q] other than 0. *)
Definition ilog2 (q : Q) : Z :=
  let e := Z.log2 (Z.abs (Qnum q)) - Z.log2 (Z.pos (Qden q)) in
  if Qle_bool (2 ^ e) (Qabs q) then e else e - 1.

(** The exponent of the last of the 53 bits of [q]; numbers below 2^-1022
    are subnormal and share the exponent -1074. *)
Definition ulp_exponent (q : Q) : Z := Z.max (ilog2 q - 52) (-1074).

(** Rounding to nearest, ties to even. *)
Definition round (q : Q) : pyfloat :=
  if Qeq_bool q 0 then Finite 0
  else
    let g := ulp_exponent q in
    let m := Float.round_half_even (q / 2 ^ g) in
    let r := Qred (inject_Z m * 2 ^ g) in
    if Qle_bool (2 ^ 1024) (Qabs r) then Infinity (Qnum q <? 0) else Finite r.

(** The conversion of an integer to a float. *)
Definition of_Z (z : Z) : pyfloat := round (inject_Z z).

Definition add (x y : pyfloat) : pyfloat :=
  match x, y with
  | Finite a, Finite b => round (a + b)
  | _, _ => Float.add x y
  end.

Definition sub (x y : pyfloat) : pyfloat := add x (Float.neg y).

Definition mul (x y : pyfloat) : pyfloat :=
  match x, y with
  | Finite a, Finite b => round (a * b)
  | _, _ => NumPy.mul x y
  end.

(** [x / y] for a divisor other than zero. *)
Definition div (x y : pyfloat) : pyfloat :=
  match x, y with
  | NaN, _ | _, NaN => NaN
  | Finite a, Finite b => round (a / b)
  | Finite _, Infinity _ => Finite 0
  | Infinity n, Finite b => Infinity (xorb n (Qnum b <? 0))
  | Infinity _, Infinity _ => NaN
  end.

(** *** Reading a float *)

(** A value computed exactly, as the float nearest to it. *)
Definition of_exact (x : pyfloat) : pyfloat :=
  match x with
  | Finite q => round q
  | other => other
  end.

(** [float(s)] returns the float nearest to the decimal value of the
    text. *)
Definition py_float (s : string) : option pyfloat :=
  option_map of_exact (FloatParse.py_float s).

(** The score parser returns what [float] returns. *)
Definition parse_score_value (score_text : cell) : option pyfloat :=
  option_map of_exact (parse_score_value score_text).

(** *** Sums and means *)

(** [res += a[i]] over the entries of [a]. *)
Definition add_each (res : pyfloat) (a : list pyfloat) : pyfloat := fold_left add a res.

(** One turn of the unrolled loop: [r[j] += a[i + j]] for the eight
    accumulators. *)
Fixpoint add_block (r block : list pyfloat) : list pyfloat :=
  match r, block with
  | rj :: r', aj :: block' => add rj aj :: add_block r' block'
  | _, _ => r
  end.

(** The unrolled loop over the blocks of eight that are complete; it
    returns the accumulators and the entries left over. *)
Fixpoint add_blocks (fuel : nat) (r a : list pyfloat) : list pyfloat * list pyfloat :=
  match fuel with
  | O => (r, a)
  | S fuel' =>
      if (8 <=? length a)%nat
      then add_blocks fuel' (add_block r (firstn 8 a)) (skipn 8 a)
      else (r, a)
  end.

(** [((r0 + r1) + (r2 + r3)) + ((r4 + r5) + (r6 + r7))] *)
Definition add_accumulators (r : list pyfloat) : pyfloat :=
  match r with
  | [r0; r1; r2; r3; r4; r5; r6; r7] =>
      add (add (add r0 r1) (add r2 r3)) (add (add r4 r5) (add r6 r7))
  | _ => NaN
  end.

(** numpy's [pairwise_sum] of a contiguous array: a plain loop below
    eight entries, eight accumulators up to 128 entries, two halves
    above.  The fuel bounds the halvings; the length is enough. *)
Fixpoint pairwise_sum (fuel : nat) (a : list pyfloat) : pyfloat :=
  let n := length a in
  if (n <? 8)%nat then add_each (Finite 0) a
  else if (n <=? 128)%nat then
    let '(r, rest) := add_blocks n (firstn 8 a) (skipn 8 a) in
    add_each (add_accumulators r) rest
  else
    match fuel with
    | O => NaN
    | S fuel' =>
        let n2 := (n / 2 - (n / 2) mod 8)%nat in
        add (pairwise_sum fuel' (firstn n2 a)) (pairwise_sum fuel' (skipn n2 a))
    end.

(** [values.sum()]: the reduction adds the pairwise sum to its initial
    value 0, which leaves it as it is. *)
Definition sum (a : list pyfloat) : pyfloat := pairwise_sum (length a) a.

(** [series.mean()] as pandas computes it: the sum over the count. *)
Definition mean (l : list pyfloat) : pyfloat :=
  match l with
  | [] => NaN
  | _ => div (sum l) (of_Z (Z.of_nat (length l)))
  end.

(** *** The percentile calculator *)

(** [scipy.stats.percentileofscore(a, score, kind='rank')]: the counts
    are integers, the factor [50.0 / n] and the product are floats. *)
Definition percentileofscore (a : list pyfloat) (score : pyfloat) : pyfloat :=
  if existsb Float.isnan a then NaN
  else if Float.isnan score then NaN
  else if (length a =? 0)%nat then NaN
  else
    let left := count (fun x => Float.lt x score) a in
    let right := count (fun x => Float.le x score) a in
    let plus1 := if left <? right then 1 else 0 in
    mul (of_Z (left + right + plus1)) (div (Finite 50) (of_Z (Z.of_nat (length a)))).

(** Lines 251-256.  [sort_rows] is [sort_values('Rank')]: pandas sorts
    with quicksort, which leaves the order of rows of equal rank open. *)
Definition higher_is_better (sort_rows : Leaderboard -> Leaderboard)
    (leaderboard_df : Leaderboard) : bool :=
  let leaderboard_sorted := sort_rows leaderboard_df in
  let first_scores := dropna (df_head 10 (Score leaderboard_sorted)) in
  let last_scores := dropna (df_tail 10 (Score leaderboard_sorted)) in
  if (0 <? length first_scores)%nat && (0 <? length last_scores)%nat
  then Float.lt (mean last_scores) (mean first_scores)
  else true.

(** Lines 223-284. *)
Definition calculate_percentile (sort_rows : Leaderboard -> Leaderboard)
    (our_score : pyfloat) (leaderboard_df : Leaderboard) (total_teams : nat) : option Z :=
  let scores := dropna (Score leaderboard_df) in
  if (length scores =? 0)%nat then None
  else
    let percentile :=
      if higher_is_better sort_rows leaderboard_df
      then Float.max0 (sub (percentileofscore scores our_score) (Finite 1))
      else sub (Finite 100) (percentileofscore scores our_score) in
    match Float.py_round percentile with
    | None => None
    | Some result => Some (Z.max 1 (Z.min 100 result))
    end.

(** *** Summary statistics *)

(** [np.median(x)]: [np.mean] of the middle entry or of the two middle
    entries of the partitioned array. *)
Definition median (x : list pyfloat) : pyfloat :=
  let part := NumPy.sort x in
  let sz := length x in
  let index := (sz / 2)%nat in
  let middle :=
    if Nat.odd sz then firstn 1 (skipn index part)
    else firstn 2 (skipn (index - 1) part) in
  let rout := mean middle in
  if Float.isnan (NumPy.last_item part) then NaN else rout.

(** [_lerp(a, b, t)]: [a + (b - a) * t], and [b - (b - a) * (1 - t)] where
    [t >= 0.5]. *)
Definition lerp (a b t : pyfloat) : pyfloat :=
  let diff_b_a := sub b a in
  if Float.le (Finite (1 # 2)) t
  then sub b (mul diff_b_a (sub (Finite 1) t))
  else add a (mul diff_b_a t).

(** [np.percentile(x, q)] for [q] within [0, 100], with the default linear
    method, on a non-empty array; the virtual index [(n - 1) * (q / 100)]
    is then a finite number. *)
Definition percentile (x : list pyfloat) (q : Q) : pyfloat :=
  let arr := NumPy.sort x in
  let values_count := Z.of_nat (length x) in
  match mul (of_Z (values_count - 1)) (div (Finite q) (Finite 100)) with
  | Finite virtual_index =>
      let above_bounds := Qle_bool (inject_Z (values_count - 1)) virtual_index in
      let previous_index := if above_bounds then -1 else Qfloor virtual_index in
      let previous :=
        if above_bounds then NumPy.last_item arr
        else NumPy.item arr (Z.to_nat previous_index) in
      let next :=
        if above_bounds then NumPy.last_item arr
        else NumPy.item arr (Z.to_nat (previous_index + 1)) in
      let gamma := sub (Finite virtual_index) (of_Z previous_index) in
      if Float.isnan (NumPy.last_item arr) then NaN else lerp previous next gamma
  | _ => NaN
  end.

(** [np.mean] of a boolean array: the count of true entries, as a float,
    over the length. *)
Definition mean_bool (p : pyfloat -> bool) (x : list pyfloat) : pyfloat :=
  match x with
  | [] => NaN
  | _ => div (of_Z (count p x)) (of_Z (Z.of_nat (length x)))
  end.

(** [agg_stats(x)]; the literals 0.90 and 0.50 are the floats nearest to
    them. *)
Definition agg_stats (x : list pyfloat) : Stats.t :=
  {| Stats.median := median x;
     Stats.q1 := percentile x 25;
     Stats.q3 := percentile x 75;
     Stats.iqr := sub (percentile x 75) (percentile x 25);
     Stats.top10_frac := mean_bool (fun v => Float.le (round 0.90) v) x;
     Stats.below50_frac := mean_bool (fun v => Float.le v (round 0.50)) x |}.

End Binary64.

(** ** The percentile and the direction as the specification words them *)

Module Spec.

(** Rounding half to even: [z] is an integer nearest to [q], and it is
    even when [q] lies halfway between two integers. *)
Definition nearest_even (q : Q) (z : Z) : Prop :=
  (Qabs (q - inject_Z z) <= 1 # 2)%Q
  /\ ((Qabs (q - inject_Z z) == 1 # 2)%Q -> Z.even z = true).

(** The leaderboard scores strictly below ours, and those equal to it. *)
Fixpoint below (scores : list pyfloat) (our_score : pyfloat) : Z :=
  match scores with
  | [] => 0
  | x :: rest => (if Float.lt x our_score then 1 else 0) + below rest our_score
  end.

Fixpoint ties (scores : list pyfloat) (our_score : pyfloat) : Z :=
  match scores with
  | [] => 0
  | x :: rest =>
      (if Float.le x our_score && Float.le our_score x then 1 else 0) + ties rest our_score
  end.

(** Twice the rank of our score among the scores: with [b] scores below
    and [t] scores tied with it, the tied entries hold the ranks
    [b + 1 .. b + t], whose mean is [(2 b + t + 1) / 2]; without a tie
    the rank is [b]. *)
Definition twice_rank (scores : list pyfloat) (our_score : pyfloat) : Z :=
  let b := below scores our_score in
  let t := ties scores our_score in
  if 0 <? t then 2 * b + t + 1 else 2 * b.

(** [P]: the rank as a percentage of the number of scores, computed as
    the library does, the rank times [50.0 / n]. *)
Definition rank_percentage (scores : list pyfloat) (our_score : pyfloat) : pyfloat :=
  Binary64.mul (Binary64.of_Z (twice_rank scores our_score))
    (Binary64.div (Finite 50) (Binary64.of_Z (Z.of_nat (length scores)))).

(** The value that is rounded: [max(0, P - 1)] when higher is better,
    [100 - P] otherwise. *)
Definition before_rounding (higher : bool) (P : pyfloat) : pyfloat :=
  if higher
  then (let x := Binary64.sub P (Finite 1) in if Float.lt (Finite 0) x then x else Finite 0)
  else Binary64.sub (Finite 100) P.

(** The sum of up to ten floats in the order in which numpy adds them:
    one after the other below eight, the first eight in pairs and the
    rest after them from eight on. *)
Definition sum_of_up_to_ten (l : list pyfloat) : pyfloat :=
  match l with
  | a0 :: a1 :: a2 :: a3 :: a4 :: a5 :: a6 :: a7 :: rest =>
      let pairs :=
        Binary64.add
          (Binary64.add (Binary64.add a0 a1) (Binary64.add a2 a3))
          (Binary64.add (Binary64.add a4 a5) (Binary64.add a6 a7)) in
      match rest with
      | [] => pairs
      | [a8] => Binary64.add pairs a8
      | a8 :: a9 :: _ => Binary64.add (Binary64.add pairs a8) a9
      end
  | _ => fold_right (fun x acc => Binary64.add acc x) (Finite 0) (rev l)
  end.

(** The mean score of a group of up to ten rows. *)
Definition mean (l : list pyfloat) : pyfloat :=
  Binary64.div (sum_of_up_to_ten l) (Binary64.of_Z (Z.of_nat (length l))).

(** The direction from the scores in ascending rank order: the first ten
    against the last ten (all of them when there are fewer); higher is
    better iff the top mean is strictly above the bottom mean, and by
    default when a group holds no score. *)
Definition direction (by_rank : list pyfloat) : bool :=
  let k := Nat.min 10 (length by_rank) in
  let top := dropna (firstn k by_rank) in
  let bottom := dropna (skipn (length by_rank - k) by_rank) in
  match top, bottom with
  | [], _ | _, [] => true
  | _, _ => Float.lt (mean bottom) (mean top)
  end.

End Spec.

(** What [sort_values('Rank')] guarantees whatever the sorting algorithm:
    the same rows, in ascending order of rank. *)
Definition sorts_by_rank (sort_rows : Leaderboard -> Leaderboard) : Prop :=
  forall d, same_rows (sort_rows d) d /\ ranks_ascending (sort_rows d).

(** A column that fits in memory: below 2^52 entries of eight bytes, the
    counts over it convert to floats exactly. *)
Definition array_sized (d : Leaderboard) : Prop := Z.of_nat (n_rows d) < 2 ^ 52.

(** Twelve teams, lower is better, two of them with the score 7. *)
Definition leaderboard_12 : Leaderboard :=
  NumRanked (map (fun i => (Z.of_nat i,
                            Finite (inject_Z (Z.of_nat (if (i =? 8)%nat then 7 else i)))))
               (seq 1 12)).

(** Twenty teams ranked 1 to 20 with the scores 100, 95, ..., 5. *)
Definition leaderboard_100 : Leaderboard :=
  NumRanked (map (fun i => (Z.of_nat i, Finite (inject_Z (Z.of_nat (105 - 5 * i)))))
               (seq 1 20)).

(** Ten teams with the score 1.7000000000000002 ranked above ten teams
    with the score 1.7, the float just below it. *)
Definition leaderboard_close : Leaderboard :=
  NumRanked (map (fun i => (Z.of_nat i, Finite (7656119366529844 # 4503599627370496)))
               (seq 1 10)
             ++ map (fun i => (Z.of_nat i, Finite (7656119366529843 # 4503599627370496)))
                  (seq 11 10)).

(** A group of at most 2^50 whole numbers of magnitude up to 2^50, as
    the percentiles of the first stage are. *)
Definition whole_values (x : list pyfloat) : Prop :=
  Z.of_nat (length x) <= 2 ^ 50
  /\ Forall (fun v => exists z, v = Finite (inject_Z z) /\ Z.abs z <= 2 ^ 50) x.

(** [quarters v k]: the float [v] is the multiple [k / 4] of a quarter. *)
Definition quarters (v : pyfloat) (k : Z) : Prop :=
  exists r, v = Finite r /\ (r == inject_Z k * (1 # 4))%Q.

(** * Properties *)

(** ** Text lemmas *)

Section TextFacts.
Import Text.

Lemma lstrip_nonspace c s : py_isspace c = false -> lstrip (String c s) = String c s.
Proof. intros H. simpl. now rewrite H. Qed.

Lemma rstrip_keeps_prefix p :
  Forall (fun c => py_isspace c = false) (list_ascii_of_string p) ->
  forall s, String.prefix p s = true -> String.prefix p (rstrip s) = true.
Proof.
  induction p as [|a p IH]; intros Hp s Hs.
  - now destruct (rstrip s).
  - destruct s as [|b s]; [discriminate|].
    simpl in Hs. destruct (ascii_dec a b) as [<-|]; [|discriminate].
    apply Forall_cons_1 in Hp as [Ha Hp].
    specialize (IH Hp s Hs). simpl.
    destruct (rstrip s) as [|c r] eqn:E.
    + rewrite Ha. simpl. destruct (ascii_dec a a); [|congruence].
      destruct p; [reflexivity|discriminate].
    + simpl. destruct (ascii_dec a a); [assumption|congruence].
Qed.

Lemma strip_keeps_prefix p s :
  p <> "" ->
  Forall (fun c => py_isspace c = false) (list_ascii_of_string p) ->
  startswith s p = true -> startswith (strip s) p = true.
Proof.
  unfold startswith, strip. intros Hne Hp Hs.
  apply rstrip_keeps_prefix; [assumption|].
  destruct p as [|a p]; [congruence|].
  destruct s as [|b s]; [discriminate|].
  simpl in Hs. destruct (ascii_dec a b) as [<-|]; [|discriminate].
  apply Forall_cons_1 in Hp as [Ha _].
  rewrite lstrip_nonspace by assumption.
  simpl. destruct (ascii_dec a a); [assumption|congruence].
Qed.

Lemma hd_split_comma s : hd "" (split "," s) = before_first_comma s.
Proof.
  induction s as [|c s IH]; [reflexivity|].
  simpl. destruct (Ascii.eqb c ","); [reflexivity|].
  destruct (split "," s); simpl in *; now rewrite <- IH.
Qed.
End TextFacts.

Lemma is_url_strip s : is_url s = true -> is_url (Text.strip s) = true.
Proof.
  unfold is_url. intros H.
  apply orb_true_iff in H as [H|H]; [apply orb_true_iff in H as [H|H]|];
    (apply strip_keeps_prefix in H; [|discriminate|repeat constructor]);
    rewrite H; rewrite ?orb_true_r; reflexivity.
Qed.

Lemma existsb_sentinel t :
  existsb (String.eqb t) null_sentinels = true <-> In t null_sentinels.
Proof.
  rewrite existsb_exists. split.
  - intros (x & Hx & E). apply String.eqb_eq in E. now subst.
  - intros H. exists t. split; [assumption|apply String.eqb_refl].
Qed.

(** Past the guards, the parser returns what [float] makes of its
    argument. *)
Lemma parse_score_value_float c :
  isna c = false ->
  is_url (Text.strip (py_str c)) = false ->
  ~ In (Text.lower (Text.strip (py_str c))) null_sentinels ->
  parse_score_value c = FloatParse.py_float (float_argument c).
Proof.
  intros Hna Hurl Hnull. unfold parse_score_value, float_argument.
  rewrite Hna, Hurl.
  destruct (existsb _ null_sentinels) eqn:E.
  { apply existsb_sentinel in E. contradiction. }
  rewrite orb_false_r.
  destruct (String.eqb_spec (Text.strip (py_str c)) "") as [E0|_].
  { exfalso. apply Hnull. rewrite E0. simpl. auto. }
  destruct (Text.contains "," _); [|reflexivity].
  now rewrite hd_split_comma.
Qed.

Lemma parse_score_value_Some c x :
  parse_score_value c = Some x -> FloatParse.py_float (float_argument c) = Some x.
Proof.
  intros H. rewrite <- H. symmetry.
  unfold parse_score_value in H.
  destruct (isna c) eqn:Hna; [discriminate|].
  destruct (is_url _) eqn:Hurl; [discriminate|].
  destruct (String.eqb _ "" || _) eqn:E; [discriminate|].
  apply orb_false_iff in E as [_ E].
  apply parse_score_value_float; try assumption.
  intros Hin. apply existsb_sentinel in Hin. congruence.
Qed.

Lemma py_float_nonfinite text x :
  FloatParse.py_float text = Some x -> Float.isfinite x = false -> nonfinite_literal text.
Proof.
  unfold FloatParse.py_float, nonfinite_literal. intros H Hx.
  destruct (FloatParse.drop_underscores _ _) as [u|]; [|discriminate].
  destruct (FloatParse.read_sign u) as [negative r] eqn:Hs.
  exists u, negative, r. split; [reflexivity|]. split; [exact Hs|].
  destruct (FloatParse.special_literal r) as [mk|] eqn:Hl.
  - left. unfold FloatParse.special_literal in Hl.
    destruct (String.eqb_spec (FloatParse.lower_ascii r) "inf") as [->|_]; [simpl; auto|].
    destruct (String.eqb_spec (FloatParse.lower_ascii r) "infinity") as [->|_]; [simpl; auto|].
    destruct (String.eqb_spec (FloatParse.lower_ascii r) "nan") as [->|_]; [simpl; auto|].
    discriminate.
  - right. destruct (FloatParse.parse_decimal r) as [[m e]|]; [|discriminate].
    exists m, e. split; [reflexivity|].
    injection H as <-. unfold FloatParse.decimal_to_float in Hx.
    destruct (FloatParse.overflows m e); [reflexivity|discriminate].
Qed.

(** The parser on a few cells. *)
Example parse_examples :
  parse_score_value (CellStr "0.85, ignore this") = Some (Finite 0.85)
  /\ parse_score_value (CellStr " 1_0.5e-1 ") = Some (Finite (105 # 100))
  /\ parse_score_value (CellStr "-Infinity") = Some (Infinity true)
  /\ parse_score_value (CellStr "1e400") = Some (Infinity false)
  /\ parse_score_value (CellStr "NAN") = Some NaN
  /\ parse_score_value (CellStr "N/A ") = None
  /\ parse_score_value (CellInt 97) = Some (Finite 97)
  /\ parse_score_value (CellDate 2024 5 1) = None
  /\ parse_score_value (CellStr "1e") = None
  /\ parse_score_value (CellStr ".") = None
  /\ parse_score_value (CellStr "5.") = Some (Finite 5).
Proof. vm_compute. repeat split. Qed.

(** C4: a missing cell, a null sentinel (any case, any surrounding blanks)
    and a text that begins with http://, https:// or www. all parse to no
    value. *)
Theorem parse_score_value_null_or_url (c : cell) :
  isna c = true
  \/ In (Text.lower (Text.strip (py_str c))) null_sentinels
  \/ is_url (py_str c) = true ->
  parse_score_value c = None.
Proof.
  intros [H|[H|H]]; unfold parse_score_value.
  - now rewrite H.
  - destruct (isna c); [reflexivity|].
    destruct (is_url _); [reflexivity|].
    apply existsb_sentinel in H. rewrite H. now rewrite orb_true_r.
  - destruct (isna c); [reflexivity|].
    now rewrite (is_url_strip _ H).
Qed.

Lemma parse_score_value_null_or_url_witness :
  parse_score_value (CellStr "  N/A ") = None
  /\ parse_score_value (CellStr "https://example.com/run/17") = None
  /\ parse_score_value CellNA = None.
Proof.
  split; [|split].
  - apply parse_score_value_null_or_url. right. left. vm_compute. tauto.
  - apply parse_score_value_null_or_url. right. right. reflexivity.
  - apply parse_score_value_null_or_url. left. reflexivity.
Defined.

(** C5: a text that is neither a sentinel nor a URL and holds a comma is
    parsed as the float of its segment before the first comma (trimmed), no
    value when that segment is no float; "0.85, ignore this" and "0.85"
    give 0.85, "abc" gives no value. *)
Theorem parse_score_value_first_segment :
  (forall s : string,
      let t := Text.strip s in
      is_url t = false ->
      ~ In (Text.lower t) null_sentinels ->
      Text.contains "," t = true ->
      parse_score_value (CellStr s)
      = FloatParse.py_float (Text.strip (before_first_comma t)))
  /\ parse_score_value (CellStr "0.85, ignore this") = Some (Finite 0.85)
  /\ parse_score_value (CellStr "0.85") = Some (Finite 0.85)
  /\ parse_score_value (CellStr "abc") = None.
Proof.
  split; [|vm_compute; auto].
  intros s t Hurl Hnull Hcomma.
  rewrite parse_score_value_float by (try reflexivity; assumption).
  unfold float_argument. simpl py_str. fold t. now rewrite Hcomma.
Qed.

Lemma parse_score_value_first_segment_witness :
  parse_score_value (CellStr " 12.5 , 99")
  = FloatParse.py_float (Text.strip (before_first_comma (Text.strip " 12.5 , 99")))
  /\ parse_score_value (CellStr " 12.5 , 99") = Some (Finite 12.5).
Proof.
  split.
  - apply (proj1 parse_score_value_first_segment " 12.5 , 99").
    + reflexivity.
    + vm_compute. intuition discriminate.
    + reflexivity.
  - reflexivity.
Defined.

(** C6: the parser hands on whatever [float] returns, infinities and NaN
    included: the texts "inf", "1e999" and "-Infinity, 3" parse to an
    infinity and the text "NAN" to NaN. *)
Theorem parse_score_value_returns_nonfinite :
  parse_score_value (CellStr "inf") = Some (Infinity false)
  /\ parse_score_value (CellStr "1e999") = Some (Infinity false)
  /\ parse_score_value (CellStr "-Infinity, 3") = Some (Infinity true)
  /\ parse_score_value (CellStr "NAN") = Some NaN
  /\ ~ (forall c x, parse_score_value c = Some x -> Float.isfinite x = true).
Proof.
  split; [reflexivity|]. split; [reflexivity|]. split; [reflexivity|]. split; [reflexivity|].
  intros H. specialize (H (CellStr "inf") (Infinity false) eq_refl). discriminate.
Qed.

Lemma nonfinite_literal_py_float text x :
  nonfinite_literal text -> FloatParse.py_float text = Some x -> Float.isfinite x = false.
Proof.
  unfold FloatParse.py_float. intros (u & negative & r & -> & -> & H).
  unfold FloatParse.special_literal.
  destruct H as [Hw|(m & e & -> & Ho)].
  - destruct Hw as [<-|[<-|[<-|[]]]]; cbn [String.eqb orb];
      intros E; injection E as <-; reflexivity.
  - destruct (String.eqb _ "inf" || String.eqb _ "infinity").
    + intros E. injection E as <-. reflexivity.
    + destruct (String.eqb _ "nan").
      * intros E. injection E as <-. reflexivity.
      * unfold FloatParse.decimal_to_float. rewrite Ho.
        intros E. injection E as <-. reflexivity.
Qed.

(** X20: a value that the parser returns is an infinity or NaN exactly
    when the text handed to [float] is, after the trimming and an
    optional sign, one of the words inf, infinity and nan in any case, or
    a decimal literal of magnitude 2^1024 - 2^970 or more. *)
Theorem parse_score_value_nonfinite_iff (c : cell) (x : pyfloat) :
  parse_score_value c = Some x ->
  (Float.isfinite x = false <-> nonfinite_literal (float_argument c)).
Proof.
  intros H. apply parse_score_value_Some in H. split.
  - intros Hx. eapply py_float_nonfinite; eassumption.
  - intros Hl. eapply nonfinite_literal_py_float; eassumption.
Qed.

Lemma parse_score_value_nonfinite_iff_witness :
  Float.isfinite (Infinity true) = false
  <-> nonfinite_literal (float_argument (CellStr "-Infinity, 3")).
Proof.
  apply (parse_score_value_nonfinite_iff (CellStr "-Infinity, 3") (Infinity true)).
  reflexivity.
Defined.

(** ** Sorting by rank *)

Section SortFacts.
Context {K : Type} (leb : K -> K -> bool) (R : K -> K -> Prop).
Hypothesis leb_sound : forall a b, leb a b = true -> R a b.
Hypothesis leb_total : forall a b, leb a b = true \/ leb b a = true.

Lemma insert_by_perm x l : Permutation (insert_by leb x l) (x :: l).
Proof.
  induction l as [|y l IH]; simpl; [reflexivity|].
  destruct (leb (fst x) (fst y)); [reflexivity|].
  rewrite IH. apply perm_swap.
Qed.

Lemma sort_by_perm l : Permutation (sort_by leb l) l.
Proof.
  induction l as [|x l IH]; simpl; [reflexivity|].
  rewrite insert_by_perm. now constructor.
Qed.

Lemma sort_by_length l : length (sort_by leb l) = length l.
Proof. apply Permutation_length, sort_by_perm. Qed.

Lemma insert_by_sorted x l : Sorted (fun x y => R (fst x) (fst y)) l -> Sorted (fun x y => R (fst x) (fst y)) (insert_by leb x l).
Proof.
  induction l as [|y l IH]; intros Hs; simpl.
  - repeat constructor.
  - destruct (leb (fst x) (fst y)) eqn:E.
    + constructor; [assumption|]. constructor. now apply leb_sound.
    + inversion Hs as [|? ? Hl Hhd]; subst.
      constructor; [now apply IH|].
      assert (Hyx : R (fst y) (fst x)).
      { destruct (leb_total (fst x) (fst y)) as [H|H]; [congruence|now apply leb_sound]. }
      destruct l as [|z l]; simpl.
      * now constructor.
      * destruct (leb (fst x) (fst z)); constructor; [assumption|].
        now inversion Hhd.
Qed.

Lemma sort_by_sorted l : Sorted (fun x y => R (fst x) (fst y)) (sort_by leb l).
Proof.
  induction l as [|x l IH]; simpl; [constructor|now apply insert_by_sorted].
Qed.
End SortFacts.

Lemma sort_values_ascending d : ranks_ascending (sort_values d).
Proof.
  destruct d as [rows|rows]; simpl.
  - apply (sort_by_sorted Z.leb Z.le).
    + intros a b. apply Z.leb_le.
    + intros a b. rewrite !Z.leb_le. lia.
  - apply (sort_by_sorted String.leb (fun a b => String.leb a b = true)).
    + auto.
    + apply String.leb_total.
Qed.

Lemma sort_values_same_rows d : same_rows (sort_values d) d.
Proof. destruct d; simpl; apply sort_by_perm. Qed.

Lemma sort_values_n_rows d : n_rows (sort_values d) = n_rows d.
Proof. destruct d; simpl; apply sort_by_length. Qed.

Lemma Score_length d : length (Score d) = n_rows d.
Proof. destruct d; simpl; apply length_map. Qed.

Lemma sort_values_Score_perm d : Permutation (Score (sort_values d)) (Score d).
Proof. destruct d; simpl; apply Permutation_map, sort_by_perm. Qed.

(** ** Facts on floats and on columns of floats *)

Lemma lt_irrefl x : Float.lt x x = false.
Proof.
  destruct x as [q|[]|]; simpl; try reflexivity.
  now rewrite (proj1 (Qeq_alt q q) (Qeq_refl q)).
Qed.


Lemma lt_le x y : Float.lt x y = true -> Float.le x y = true.
Proof.
  destruct x as [a|[]|], y as [b|[]|]; simpl; intros H; try discriminate; auto.
  destruct (a ?= b)%Q; auto; discriminate.
Qed.


Lemma dropna_no_nan l : existsb Float.isnan (dropna l) = false.
Proof.
  unfold dropna. induction l as [|x l IH]; simpl; [reflexivity|].
  destruct (Float.isnan x) eqn:E; simpl; [assumption|]. now rewrite E.
Qed.

Lemma dropna_id l : Forall (fun x => Float.isnan x = false) l -> dropna l = l.
Proof.
  unfold dropna. induction 1 as [|x l Hx _ IH]; simpl; [reflexivity|].
  rewrite Hx. simpl. now f_equal.
Qed.

Lemma dropna_perm l1 l2 : Permutation l1 l2 -> Permutation (dropna l1) (dropna l2).
Proof.
  unfold dropna. induction 1; simpl.
  - constructor.
  - destruct (negb _); [now constructor|assumption].
  - destruct (negb (Float.isnan x)), (negb (Float.isnan y)); try reflexivity.
    apply perm_swap.
  - etransitivity; eassumption.
Qed.

Lemma length_zero_eqb {A} (l : list A) : (length l =? 0)%nat = false <-> l <> [].
Proof. destruct l; simpl; split; intros; try congruence. Qed.

Lemma clamp_range z : 1 <= clamp z <= 100.
Proof. unfold clamp. lia. Qed.

Lemma has_numeric_score_dropna d : has_numeric_score d <-> dropna (Score d) <> [].
Proof.
  unfold has_numeric_score, numeric, dropna. split.
  - intros (x & Hin & Hx) E.
    assert (Hf : In x (List.filter (fun x => negb (Float.isnan x)) (Score d))).
    { apply List.filter_In. split; [assumption|]. now rewrite Hx. }
    rewrite E in Hf. destruct Hf.
  - intros H. destruct (List.filter _ (Score d)) as [|x l] eqn:E; [congruence|].
    assert (Hf : In x (List.filter (fun x => negb (Float.isnan x)) (Score d)))
      by (rewrite E; now left).
    apply List.filter_In in Hf as [Hin Hx]. exists x. split; [assumption|].
    now destruct (Float.isnan x).
Qed.

(** In exact arithmetic a NaN input score on a lower-is-better leaderboard
    makes the rounding raise, and the function returns None. *)
Example calculate_percentile_nan :
  higher_is_better (NumRanked [(1, Finite 3); (2, Finite 2); (3, Finite 1)]) = false
  /\ calculate_percentile NaN (NumRanked [(1, Finite 3); (2, Finite 2); (3, Finite 1)]) 3 = None.
Proof. split; reflexivity. Qed.

(** ** Counts as rationals *)

Lemma inject_Z_S n : (inject_Z (Z.of_nat (S n)) == inject_Z (Z.of_nat n) + 1)%Q.
Proof. rewrite Nat2Z.inj_succ. unfold Z.succ. rewrite inject_Z_plus. reflexivity. Qed.


(** ** Direction inference *)

Lemma df_head_all n l : (length l <= n)%nat -> df_head n l = l.
Proof. apply take_ge. Qed.

Lemma df_tail_all n l : (length l <= n)%nat -> df_tail n l = l.
Proof. intros H. unfold df_tail. replace (length l - n)%nat with 0%nat by lia. apply drop_0. Qed.

Lemma df_head_length n l : length (df_head n l) = Nat.min n (length l).
Proof. apply length_take. Qed.

Lemma df_tail_length n l : length (df_tail n l) = Nat.min n (length l).
Proof. unfold df_tail. rewrite length_drop. lia. Qed.

Lemma sorted_Score_length d : length (Score (sort_values d)) = n_rows d.
Proof. now rewrite Score_length, sort_values_n_rows. Qed.

Lemma dropna_sorted_nonempty d : dropna (Score d) <> [] -> dropna (Score (sort_values d)) <> [].
Proof.
  intros H E. apply H.
  apply Permutation_nil. rewrite <- E.
  apply dropna_perm, sort_values_Score_perm.
Qed.

Lemma higher_is_better_unfold d :
  higher_is_better d
  = match dropna (df_head 10 (Score (sort_values d))),
          dropna (df_tail 10 (Score (sort_values d))) with
    | [], _ | _, [] => true
    | top, bottom => Float.lt (mean bottom) (mean top)
    end.
Proof.
  unfold higher_is_better.
  destruct (dropna (df_head _ _)), (dropna (df_tail _ _)); reflexivity.
Qed.

(** A leaderboard of at most ten rows, one of them numeric, is read as
    lower-is-better. *)
Lemma small_leaderboard d :
  (n_rows d <= 10)%nat -> dropna (Score d) <> [] ->
  df_head 10 (Score (sort_values d)) = Score (sort_values d)
  /\ df_tail 10 (Score (sort_values d)) = Score (sort_values d)
  /\ higher_is_better d = false.
Proof.
  intros Hn Hd.
  assert (Hh : df_head 10 (Score (sort_values d)) = Score (sort_values d))
    by (apply df_head_all; now rewrite sorted_Score_length).
  assert (Ht : df_tail 10 (Score (sort_values d)) = Score (sort_values d))
    by (apply df_tail_all; now rewrite sorted_Score_length).
  split; [assumption|]. split; [assumption|].
  rewrite higher_is_better_unfold, Hh, Ht.
  apply dropna_sorted_nonempty in Hd.
  destruct (dropna (Score (sort_values d))); [congruence|].
  apply lt_irrefl.
Qed.

(** ** The extremes of the percentile *)

Lemma count_all p a : (forall x, In x a -> p x = true) -> count p a = Z.of_nat (length a).
Proof.
  intros H. unfold count. f_equal. f_equal.
  induction a as [|x a IH]; [reflexivity|].
  simpl. rewrite (H x (or_introl eq_refl)). f_equal. apply IH. intros; apply H; now right.
Qed.

Lemma count_none p a : (forall x, In x a -> p x = false) -> count p a = 0.
Proof.
  intros H. unfold count.
  induction a as [|x a IH]; [reflexivity|].
  simpl. rewrite (H x (or_introl eq_refl)). apply IH. intros; apply H; now right.
Qed.




Lemma round_half_even_Z q z : (q == inject_Z z)%Q -> Float.round_half_even q = z.
Proof.
  destruct q as [a b]. unfold Qeq, Float.round_half_even. simpl. intros H.
  rewrite Z.mul_1_r in H. subst a.
  rewrite Z.div_mul, Z.mod_mul by lia.
  change (2 * 0) with 0. now destruct (0 ?= Z.pos b) eqn:E.
Qed.


Lemma max0_neg q : (q < 0)%Q -> Float.max0 (Finite q) = Finite 0.
Proof.
  intros H. unfold Float.max0, Float.lt.
  assert (E : (0 ?= q)%Q = Gt) by now apply Qgt_alt.
  now rewrite E.
Qed.

Lemma all_pairs_lt top bottom :
  forallb (fun a => forallb (fun b => Float.lt b a) bottom) top = true ->
  forall a b, In a top -> In b bottom -> Float.lt b a = true.
Proof.
  intros H a b Ha Hb.
  rewrite forallb_forall in H. specialize (H a Ha).
  rewrite forallb_forall in H. now apply H.
Qed.

(** ** The loader *)

Section LoaderFacts.
Variable f : string -> option pyfloat.

Lemma clean_rows_In {K : Type} (rows : list (option K * score_cell)) k x :
  In (k, x) (clean_rows f rows)
  <-> exists c, In (Some k, c) rows /\ to_numeric f c = x /\ Float.isnan x = false.
Proof.
  induction rows as [|[[r|] c] rows IH]; simpl.
  - split; [tauto|]. intros (c & [] & _).
  - destruct (Float.isnan (to_numeric f c)) eqn:E.
    + rewrite IH. split; intros (c' & H & Hc & Hx).
      * exists c'. auto.
      * destruct H as [H|H]; [|eauto].
        injection H as -> ->. congruence.
    + simpl. rewrite IH. split.
      * intros [H|(c' & H & Hc)].
        -- injection H as -> <-. exists c. auto.
        -- exists c'. auto.
      * intros (c' & [H|H] & Hc & Hx).
        -- injection H as -> ->. left. now rewrite Hc.
        -- right. eauto.
  - rewrite IH. split; intros (c' & H & Hc).
    + exists c'. auto.
    + destruct H as [H|H]; [discriminate|eauto].
Qed.

Lemma clean_rows_numeric {K : Type} (rows : list (option K * score_cell)) :
  Forall (fun x => Float.isnan x = false) (map snd (clean_rows f rows)).
Proof.
  induction rows as [|[[r|] c] rows IH]; simpl; try assumption; [constructor|].
  destruct (Float.isnan (to_numeric f c)) eqn:E; [assumption|].
  simpl. now constructor.
Qed.

Lemma clean_numeric body : Forall (fun x => Float.isnan x = false) (Score (clean f body)).
Proof. destruct body; simpl; apply clean_rows_numeric. Qed.

Lemma loaded_from_valid files name e : loaded_from f files name e -> entry_valid e.
Proof.
  intros (file & body & _ & _ & _ & -> & Hn). unfold entry_valid. simpl.
  split; [reflexivity|]. split; [lia|]. apply clean_numeric.
Qed.

Lemma loaded_from_app files more name e :
  loaded_from f files name e -> loaded_from f (files ++ more) name e.
Proof.
  intros (file & body & Hin & H). exists file, body. split; [|assumption].
  apply in_or_app. now left.
Qed.

Lemma load_file_empty st file body :
  read_csv file = Some (Table body) ->
  n_rows (clean f body) = 0%nat ->
  load_file f st file = (st.1, st.2 ++ [WarnNoValidData (competition_name file)]).
Proof.
  intros Hr Hn. destruct st as [m out]. unfold load_file. now rewrite Hr, Hn.
Qed.

Lemma load_file_loaded files st file :
  (forall name e, st.1 !! name = Some e -> loaded_from f files name e) ->
  forall name e, (load_file f st file).1 !! name = Some e ->
                 loaded_from f (files ++ [file]) name e.
Proof.
  intros Hst name e. destruct st as [m out]. unfold load_file.
  destruct (read_csv file) as [[| |body]|] eqn:Hr; simpl;
    try (intros H; apply loaded_from_app; now apply Hst).
  destruct (n_rows (clean f body) =? 0)%nat eqn:Hn; simpl.
  - intros H; apply loaded_from_app; now apply Hst.
  - rewrite lookup_insert_Some. intros [[<- <-]|[_ H]].
    + exists file, body. split; [apply in_or_app; right; now left|].
      apply Nat.eqb_neq in Hn. auto.
    + apply loaded_from_app; now apply Hst.
Qed.

Lemma fold_load_file_loaded more : forall files st,
  (forall name e, st.1 !! name = Some e -> loaded_from f files name e) ->
  forall name e, (fold_left (load_file f) more st).1 !! name = Some e ->
                 loaded_from f (files ++ more) name e.
Proof.
  induction more as [|file more IH]; intros files st Hst name e; simpl.
  - rewrite app_nil_r. apply Hst.
  - intros H. replace (files ++ file :: more) with ((files ++ [file]) ++ more)
      by now rewrite <- app_assoc.
    eapply IH; [|exact H]. now apply load_file_loaded.
Qed.

Lemma load_leaderboards_loaded files name e :
  (load_leaderboards f files).1 !! name = Some e -> loaded_from f files name e.
Proof.
  intros H. apply (fold_load_file_loaded files [] (∅, [])); [|exact H].
  intros n e'. simpl. rewrite lookup_empty. discriminate.
Qed.
End LoaderFacts.

(** The loader on the three example files. *)
Example load_leaderboards_example :
  load_leaderboards FloatParse.py_float [empty_file; unreadable_file; leaderboard_20_file]
  = (example_leaderboards, [WarnNoValidData "empty"; ErrorReading "broken"]).
Proof. vm_compute. reflexivity. Qed.

(** C7 as the code has it: the loader keeps exactly the rows with a
    present rank (numeric or not) and a numeric score, drops with a logged
    warning a file none of whose rows survive and carries on with the next
    files, and every entry of every loaded leaderboard has a present rank
    and a numeric score. *)
Theorem loader_keeps_numeric_rows (f : string -> option pyfloat) (csv_files : list csv_file) :
  (forall name e,
      (load_leaderboards f csv_files).1 !! name = Some e ->
      loaded_from f csv_files name e /\ entry_valid e)
  /\ (forall (K : Type) (rows : list (option K * score_cell)) k x,
        In (k, x) (clean_rows f rows)
        <-> exists c, In (Some k, c) rows /\ to_numeric f c = x /\ Float.isnan x = false)
  /\ (forall st file body,
        read_csv file = Some (Table body) ->
        n_rows (clean f body) = 0%nat ->
        load_file f st file = (st.1, st.2 ++ [WarnNoValidData (competition_name file)]))
  /\ (forall before file after,
        load_leaderboards f (before ++ file :: after)
        = fold_left (load_file f) after (load_file f (load_leaderboards f before) file)).
Proof.
  split; [|split; [|split]].
  - intros name e H. apply load_leaderboards_loaded in H.
    split; [assumption|]. eapply loaded_from_valid; eassumption.
  - intros K rows k x. apply clean_rows_In.
  - apply load_file_empty.
  - intros before file after. unfold load_leaderboards.
    now rewrite fold_left_app.
Qed.

(** C10: a loaded leaderboard of at most ten rows has the same rows in its
    first-ten and last-ten groups, hence equal means, and is always read
    as lower-is-better. *)
Theorem small_leaderboard_lower_is_better (f : string -> option pyfloat)
    (csv_files : list csv_file) (name : string) (e : entry) :
  (load_leaderboards f csv_files).1 !! name = Some e ->
  (total_teams e <= 10)%nat ->
  df_head 10 (Score (sort_values (df e))) = df_tail 10 (Score (sort_values (df e)))
  /\ mean (dropna (df_head 10 (Score (sort_values (df e)))))
     = mean (dropna (df_tail 10 (Score (sort_values (df e)))))
  /\ higher_is_better (df e) = false.
Proof.
  intros H Hn. apply load_leaderboards_loaded, loaded_from_valid in H.
  destruct H as (Ht & H1 & Hs).
  destruct (small_leaderboard (df e)) as (Hh & Htl & Hd).
  - lia.
  - rewrite dropna_id by assumption. intros E.
    apply (f_equal length) in E. rewrite Score_length in E. simpl in E. lia.
  - rewrite Hh, Htl. auto.
Qed.

Lemma small_leaderboard_lower_is_better_witness :
  df_head 10 (Score (sort_values (TextRanked [("abc", Finite 0.5)])))
  = df_tail 10 (Score (sort_values (TextRanked [("abc", Finite 0.5)])))
  /\ mean (dropna (df_head 10 (Score (sort_values (TextRanked [("abc", Finite 0.5)])))))
     = mean (dropna (df_tail 10 (Score (sort_values (TextRanked [("abc", Finite 0.5)])))))
  /\ higher_is_better (TextRanked [("abc", Finite 0.5)]) = false.
Proof.
  apply (small_leaderboard_lower_is_better FloatParse.py_float [text_ranked_file]
           "2024-05-01" {| df := TextRanked [("abc", Finite 0.5)]; total_teams := 1 |}).
  - vm_compute. reflexivity.
  - simpl. lia.
Defined.

(** C7 as stated fails: a row whose rank is the text "abc" is kept. *)
Lemma non_numeric_rank_is_kept :
  read_csv text_ranked_file
  = Some (Table (CsvTextRanked [(Some "abc", ScoreNum (Finite 0.5));
                                (None, ScoreNum (Finite 0.7));
                                (Some "2", ScoreNA)]))
  /\ FloatParse.py_float "abc" = None
  /\ load_leaderboards FloatParse.py_float [text_ranked_file]
     = ({[ "2024-05-01" := {| df := TextRanked [("abc", Finite 0.5)]; total_teams := 1 |} ]},
        []).
Proof. vm_compute. repeat split. Qed.

(** ** The sweep *)

Lemma set_cell_shape table idx col v : map length (set_cell table idx col v) = map length table.
Proof.
  unfold set_cell. apply list_eq. intros i.
  change (map length) with (fmap (M := list) (length (A := cell))).
  rewrite !list_lookup_fmap.
  destruct (decide (i = idx)) as [->|Hi].
  - rewrite list_lookup_alter_eq. destruct (table !! idx); simpl; [|reflexivity].
    now rewrite length_insert.
  - now rewrite list_lookup_alter_ne.
Qed.

Lemma cell_at_set_cell_eq table idx col v c :
  cell_at table idx col = Some c -> cell_at (set_cell table idx col v) idx col = Some v.
Proof.
  unfold cell_at, set_cell. rewrite list_lookup_alter_eq.
  destruct (table !! idx) as [row|]; simpl; [|discriminate].
  intros H. apply list_lookup_insert_eq. eapply lookup_lt_Some; eassumption.
Qed.

Lemma cell_at_set_cell_ne table idx col v i j :
  (i, j) <> (idx, col) -> cell_at (set_cell table idx col v) i j = cell_at table i j.
Proof.
  intros Hne. unfold cell_at, set_cell.
  destruct (decide (i = idx)) as [->|Hi].
  - rewrite list_lookup_alter_eq. destruct (table !! idx) as [row|]; simpl; [|reflexivity].
    apply list_lookup_insert_ne. congruence.
  - now rewrite list_lookup_alter_ne.
Qed.

Section SweepFacts.
Variable sheet : Sheet.
Variable leaderboards : gmap string entry.
Hypothesis sheet_rectangular : rectangular sheet.

Lemma row_length idx row : cells sheet !! idx = Some row -> length row = n_columns sheet.
Proof. intros H. eapply (Forall_lookup_1 _ _ _ _ sheet_rectangular); eassumption. Qed.

Lemma swept_ext (done done' : nat -> nat -> bool) table :
  (forall i j c, cell_at (cells sheet) i j = Some c -> done i j <> done' i j ->
                 expected_cell sheet leaderboards i j c = c) ->
  swept sheet leaderboards done table -> swept sheet leaderboards done' table.
Proof.
  intros Hext [Hshape Hcells]. split; [assumption|].
  intros i j c Hc. rewrite (Hcells i j c Hc). f_equal.
  destruct (done i j) eqn:E, (done' i j) eqn:E'; try reflexivity.
  - apply (Hext i j c Hc). congruence.
  - symmetry. apply (Hext i j c Hc). congruence.
Qed.

(** The value at a result column of a row whose leaderboard is loaded. *)
Lemma expected_cell_scored idx col comp lb c :
  (2 <= idx)%nat -> (start_col <= col)%nat -> (col <= end_col sheet)%nat ->
  cell_at (cells sheet) idx 4 = Some comp -> isna comp = false ->
  leaderboards !! competition_str comp = Some lb ->
  expected_cell sheet leaderboards idx col c
  = match parse_score_value c with
    | Some score =>
        match calculate_percentile score (df lb) (total_teams lb) with
        | Some percentile => CellInt percentile
        | None => c
        end
    | None => c
    end.
Proof.
  intros H2 Hs He Hcomp Hna Hlb. unfold expected_cell.
  rewrite (proj2 (Nat.leb_le _ _) H2), (proj2 (Nat.leb_le _ _) Hs),
    (proj2 (Nat.leb_le _ _) He). simpl. now rewrite Hcomp, Hna, Hlb.
Qed.

Lemma expected_cell_outside idx col c :
  (idx < 2)%nat \/ (col < start_col)%nat \/ (end_col sheet < col)%nat ->
  expected_cell sheet leaderboards idx col c = c.
Proof.
  intros H. unfold expected_cell.
  destruct (2 <=? idx)%nat eqn:E1; [|reflexivity].
  destruct (start_col <=? col)%nat eqn:E2; [|reflexivity].
  destruct (col <=? end_col sheet)%nat eqn:E3; [|reflexivity].
  apply Nat.leb_le in E1, E2, E3. lia.
Qed.

Lemma swept_initial : swept sheet leaderboards (done_upto 2 0) (cells sheet).
Proof.
  split; [reflexivity|]. intros i j c Hc. rewrite Hc. f_equal.
  destruct (done_upto 2 0 i j) eqn:E; [|reflexivity].
  symmetry. apply expected_cell_outside. left.
  unfold done_upto in E. rewrite andb_false_r, orb_false_r in E.
  now apply Nat.ltb_lt in E.
Qed.

Lemma expected_cell_skipped idx col c :
  (forall comp, cell_at (cells sheet) idx 4 = Some comp ->
                isna comp = true \/ leaderboards !! competition_str comp = None) ->
  expected_cell sheet leaderboards idx col c = c.
Proof.
  intros H. unfold expected_cell.
  destruct (_ && _ && _); [|reflexivity].
  destruct (cell_at (cells sheet) idx 4) as [comp|]; [|reflexivity].
  destruct (H comp eq_refl) as [-> | ->]; [reflexivity|].
  now destruct (isna comp).
Qed.

Lemma done_upto_same_row idx col col' i j :
  done_upto idx col i j <> done_upto idx col' i j ->
  i = idx /\ ((col <= j < col')%nat \/ (col' <= j < col)%nat).
Proof.
  unfold done_upto.
  destruct (Nat.ltb_spec i idx), (Nat.eqb_spec i idx), (Nat.ltb_spec j col),
    (Nat.ltb_spec j col'); simpl; intros Hd; try congruence; lia.
Qed.

Lemma done_upto_next_row idx col i j :
  done_upto idx col i j <> done_upto (S idx) 0 i j -> i = idx /\ (col <= j)%nat.
Proof.
  unfold done_upto.
  destruct (Nat.ltb_spec i idx), (Nat.eqb_spec i idx), (Nat.ltb_spec j col),
    (Nat.ltb_spec i (S idx)), (Nat.eqb_spec i (S idx)), (Nat.ltb_spec j 0);
    simpl; intros Hd; try congruence; try lia.
Qed.

Lemma swept_keep idx b table :
  swept sheet leaderboards (done_upto idx b) table ->
  (forall c, cell_at (cells sheet) idx b = Some c ->
             expected_cell sheet leaderboards idx b c = c) ->
  swept sheet leaderboards (done_upto idx (S b)) table.
Proof.
  intros Hsw Hc. eapply swept_ext; [|exact Hsw].
  intros i j c Hij Hd. apply done_upto_same_row in Hd as [-> Hj].
  replace j with b in * by lia. now apply Hc.
Qed.

Lemma swept_write idx b c table :
  swept sheet leaderboards (done_upto idx b) table ->
  cell_at (cells sheet) idx b = Some c ->
  swept sheet leaderboards (done_upto idx (S b))
    (set_cell table idx b (expected_cell sheet leaderboards idx b c)).
Proof.
  intros [Hshape Hcells] Hc. split.
  - now rewrite set_cell_shape.
  - intros i j c' Hij.
    destruct (decide ((i, j) = (idx, b))) as [E|E].
    + injection E as -> ->.
      rewrite (cell_at_set_cell_eq _ _ _ _ _ (Hcells idx b c Hc)).
      assert (c' = c) as -> by congruence. f_equal.
      unfold done_upto. rewrite Nat.eqb_refl, (proj2 (Nat.ltb_lt b (S b))) by lia.
      now rewrite orb_true_r.
    + rewrite cell_at_set_cell_ne by assumption.
      rewrite (Hcells i j c' Hij). f_equal.
      destruct (bool_decide (done_upto idx b i j = done_upto idx (S b) i j)) eqn:Hd.
      * apply bool_decide_eq_true in Hd. now rewrite Hd.
      * apply bool_decide_eq_false in Hd.
        apply done_upto_same_row in Hd as [-> Hj]. exfalso. apply E. f_equal. lia.
Qed.

Lemma process_columns_swept idx row comp lb :
  cells sheet !! idx = Some row ->
  (2 <= idx)%nat ->
  row !! 4%nat = Some comp ->
  isna comp = false ->
  leaderboards !! competition_str comp = Some lb ->
  forall n b st,
    (start_col <= b)%nat ->
    (n = 0)%nat \/ (b + n <= end_col sheet + 1)%nat ->
    swept sheet leaderboards (done_upto idx b) (result_df st) ->
    exists st',
      process_columns sheet row lb idx (seq b n) st = Some st'
      /\ swept sheet leaderboards (done_upto idx (b + n)) (result_df st').
Proof.
  intros Hrow H2 Hcomp Hna Hlb.
  assert (Hcomp' : cell_at (cells sheet) idx 4 = Some comp)
    by (unfold cell_at; now rewrite Hrow).
  induction n as [|n IH]; intros b st Hb Hn Hsw.
  - exists st. rewrite Nat.add_0_r. now split.
  - assert (Hcols : (b < n_columns sheet)%nat)
      by (unfold end_col, start_col in *; lia).
    simpl. rewrite (proj2 (Nat.leb_gt _ _) Hcols).
    destruct (row !! b) as [c|] eqn:Hc.
    2:{ apply lookup_ge_None in Hc. rewrite (row_length _ _ Hrow) in Hc. lia. }
    assert (Hc' : cell_at (cells sheet) idx b = Some c)
      by (unfold cell_at; now rewrite Hrow).
    assert (Hexp := expected_cell_scored idx b comp lb c H2 Hb
                      ltac:(lia) Hcomp' Hna Hlb).
    replace (b + S n)%nat with (S b + n)%nat by lia.
    destruct (parse_score_value c) as [score|] eqn:Hp.
    + destruct (calculate_percentile score (df lb) (total_teams lb)) as [p|] eqn:Hcalc.
      * apply IH; simpl; [lia|lia|].
        rewrite <- Hexp. now apply swept_write.
      * apply IH; simpl; [lia|lia|].
        apply swept_keep; [assumption|]. intros c0 Hc0. congruence.
    + apply IH; simpl; [lia|lia|].
      apply swept_keep; [assumption|]. intros c0 Hc0. congruence.
Qed.

Hypothesis competition_column :
  (5 <= n_columns sheet)%nat \/ (length (cells sheet) <= 2)%nat.

Lemma process_row_swept idx st :
  (2 <= idx < length (cells sheet))%nat ->
  swept sheet leaderboards (done_upto idx 0) (result_df st) ->
  exists st',
    process_row sheet leaderboards st idx = Some st'
    /\ swept sheet leaderboards (done_upto (S idx) 0) (result_df st').
Proof.
  intros Hidx Hsw. unfold process_row.
  destruct (cells sheet !! idx) as [row|] eqn:Hrow.
  2:{ apply lookup_ge_None in Hrow. lia. }
  destruct (row !! 4%nat) as [comp|] eqn:Hcomp.
  2:{ apply lookup_ge_None in Hcomp. rewrite (row_length _ _ Hrow) in Hcomp. lia. }
  assert (Hcomp' : cell_at (cells sheet) idx 4 = Some comp)
    by (unfold cell_at; now rewrite Hrow).
  assert (Hskip : (isna comp = true \/ leaderboards !! competition_str comp = None) ->
                  swept sheet leaderboards (done_upto (S idx) 0) (result_df st)).
  { intros Hs. eapply swept_ext; [|exact Hsw].
    intros i j c Hij Hd. apply done_upto_next_row in Hd as [-> _].
    apply expected_cell_skipped. intros comp0 H0.
    assert (comp0 = comp) as -> by congruence. assumption. }
  destruct (isna comp) eqn:Hna; [eauto|].
  destruct (leaderboards !! competition_str comp) as [lb|] eqn:Hlb; [|eauto].
  destruct (process_columns_swept idx row comp lb Hrow (proj1 Hidx) Hcomp Hna Hlb
              (end_col sheet + 1 - start_col) start_col st) as (st' & Hst' & Hsw').
  - lia.
  - lia.
  - eapply swept_ext; [|exact Hsw].
    intros i j c Hij Hd. apply done_upto_same_row in Hd as [-> Hj].
    apply expected_cell_outside. lia.
  - exists st'. split; [exact Hst'|].
    eapply swept_ext; [|exact Hsw'].
    intros i j c Hij Hd. apply done_upto_next_row in Hd as [-> Hj].
    apply expected_cell_outside. lia.
Qed.

Lemma process_rows_swept n : forall b st,
  (2 <= b)%nat -> (n = 0)%nat \/ (b + n <= length (cells sheet))%nat ->
  swept sheet leaderboards (done_upto b 0) (result_df st) ->
  exists st',
    process_rows sheet leaderboards (seq b n) st = Some st'
    /\ swept sheet leaderboards (done_upto (b + n) 0) (result_df st').
Proof.
  induction n as [|n IH]; intros b st Hb Hn Hsw.
  - exists st. rewrite Nat.add_0_r. now split.
  - simpl. destruct (process_row_swept b st) as (st1 & -> & Hsw1); [lia|assumption|].
    replace (b + S n)%nat with (S b + n)%nat by lia.
    apply IH; [lia|lia|assumption].
Qed.

(** The sweep returns, and its table holds the final value at every
    position. *)
Lemma sweep_swept out :
  exists st',
    sweep sheet leaderboards out = Some st'
    /\ swept sheet leaderboards (fun _ _ => true) (result_df st').
Proof.
  unfold sweep, data_rows.
  destruct (process_rows_swept (length (cells sheet) - 2) 2
              {| result_df := cells sheet; updates_count := 0; console := out |})
    as (st' & Hst' & Hsw); [lia|lia|apply swept_initial|].
  exists st'. split; [exact Hst'|].
  eapply swept_ext; [|exact Hsw].
  intros i j c Hij Hd.
  assert (Hi : (i < length (cells sheet))%nat).
  { unfold cell_at in Hij. destruct (cells sheet !! i) eqn:E; [|discriminate].
    eapply lookup_lt_Some; eassumption. }
  exfalso. apply Hd. unfold done_upto.
  destruct (Nat.ltb_spec i (2 + (length (cells sheet) - 2))); [reflexivity|lia].
Qed.

Lemma expected_cell_cases i j c :
  expected_cell sheet leaderboards i j c = c
  \/ exists comp lb score p,
      (2 <= i)%nat /\ (start_col <= j <= end_col sheet)%nat
      /\ cell_at (cells sheet) i 4 = Some comp /\ isna comp = false
      /\ leaderboards !! competition_str comp = Some lb
      /\ parse_score_value c = Some score
      /\ calculate_percentile score (df lb) (total_teams lb) = Some p
      /\ expected_cell sheet leaderboards i j c = CellInt p.
Proof.
  unfold expected_cell.
  destruct (Nat.leb_spec 2 i), (Nat.leb_spec start_col j), (Nat.leb_spec j (end_col sheet));
    cbn [andb]; try (now left).
  destruct (cell_at (cells sheet) i 4) as [comp|] eqn:Hcomp; [|now left].
  destruct (isna comp) eqn:Hna; [now left|].
  destruct (leaderboards !! competition_str comp) as [lb|] eqn:Hlb; [|now left].
  destruct (parse_score_value c) as [score|] eqn:Hs; [|now left].
  destruct (calculate_percentile score (df lb) (total_teams lb)) as [p|] eqn:Hp; [|now left].
  right. exists comp, lb, score, p. repeat split; auto.
Qed.
End SweepFacts.

(** Without the competition column the first data row raises IndexError. *)
Lemma sweep_without_competition_column sheet leaderboards out :
  rectangular sheet ->
  (n_columns sheet < 5)%nat -> (2 < length (cells sheet))%nat ->
  sweep sheet leaderboards out = None.
Proof.
  intros Hrect Hcols Hrows. unfold sweep, data_rows.
  destruct (length (cells sheet) - 2)%nat as [|k] eqn:Hk; [lia|].
  simpl. unfold process_row. simpl.
  destruct (cells sheet !! 2%nat) as [row|] eqn:Hrow.
  2:{ apply lookup_ge_None in Hrow. lia. }
  assert (Hlen := row_length sheet Hrect _ _ Hrow).
  destruct (row !! 4%nat) eqn:H4; [|reflexivity].
  apply lookup_lt_Some in H4. lia.
Qed.

(** ** What the console receives *)

Lemma not_found_warnings_app k out e :
  not_found_warnings k (out ++ [e])
  = (not_found_warnings k out + if is_not_found k e then 1 else 0)%nat.
Proof.
  unfold not_found_warnings. rewrite List.filter_app, length_app. simpl.
  now destruct (is_not_found k e).
Qed.

Lemma process_columns_console k sheet row lb idx cols : forall st st',
  process_columns sheet row lb idx cols st = Some st' ->
  not_found_warnings k (console st') = not_found_warnings k (console st).
Proof.
  induction cols as [|col cols IH]; intros st st' H; simpl in H.
  - now injection H as <-.
  - destruct (n_columns sheet <=? col)%nat; [now injection H as <-|].
    destruct (row !! col) as [c|]; [|discriminate].
    destruct (parse_score_value c) as [score|].
    + destruct (calculate_percentile score (df lb) (total_teams lb)).
      * now rewrite (IH _ _ H).
      * rewrite (IH _ _ H). simpl. rewrite not_found_warnings_app. simpl. lia.
    + rewrite (IH _ _ H). simpl.
      destruct (_ && _); [|reflexivity].
      rewrite not_found_warnings_app. simpl. lia.
Qed.

Lemma process_row_console k sheet leaderboards idx st st' :
  leaderboards !! k = None ->
  process_row sheet leaderboards st idx = Some st' ->
  not_found_warnings k (console st')
  = (not_found_warnings k (console st) + if row_refers_to sheet k idx then 1 else 0)%nat.
Proof.
  intros Hk. unfold process_row, row_refers_to, cell_at.
  destruct (cells sheet !! idx) as [row|]; [|discriminate].
  destruct (row !! 4%nat) as [comp|]; [|discriminate].
  destruct (isna comp); simpl.
  - intros H. injection H as <-. lia.
  - destruct (leaderboards !! competition_str comp) as [lb|] eqn:Hlb.
    + intros H. rewrite (process_columns_console _ _ _ _ _ _ _ _ H).
      destruct (String.eqb_spec (competition_str comp) k) as [E|_]; [congruence|lia].
    + intros H. injection H as <-. simpl. now rewrite not_found_warnings_app.
Qed.

Lemma process_rows_console k sheet leaderboards idxs : forall st st',
  leaderboards !! k = None ->
  process_rows sheet leaderboards idxs st = Some st' ->
  not_found_warnings k (console st')
  = (not_found_warnings k (console st)
     + length (List.filter (row_refers_to sheet k) idxs))%nat.
Proof.
  induction idxs as [|idx idxs IH]; intros st st' Hk H; simpl in H.
  - injection H as <-. simpl. lia.
  - destruct (process_row sheet leaderboards st idx) as [st1|] eqn:H1; [|discriminate].
    rewrite (IH _ _ Hk H), (process_row_console _ _ _ _ _ _ Hk H1). simpl.
    destruct (row_refers_to sheet k idx); simpl; lia.
Qed.


(** C9 as the code has it: a data row whose competition has no loaded
    leaderboard keeps all its cells, the loop goes on with the next row
    after printing one warning for that row (not one per column), so the
    warnings for a missing competition number as many as the data rows
    that name it. *)
Theorem missing_leaderboard_rows (sheet : Sheet) (leaderboards : gmap string entry)
    (out : list event) :
  rectangular sheet ->
  (5 <= n_columns sheet)%nat \/ (length (cells sheet) <= 2)%nat ->
  exists st',
    sweep sheet leaderboards out = Some st'
    /\ (forall idx comp,
          (2 <= idx)%nat ->
          cell_at (cells sheet) idx 4 = Some comp ->
          isna comp = false ->
          leaderboards !! competition_str comp = None ->
          result_df st' !! idx = cells sheet !! idx
          /\ forall st,
              process_row sheet leaderboards st idx
              = Some {| result_df := result_df st;
                        updates_count := updates_count st;
                        console := console st
                                   ++ [WarnLeaderboardNotFound (competition_str comp)] |})
    /\ (forall k,
          leaderboards !! k = None ->
          not_found_warnings k (console st')
          = (not_found_warnings k out
             + length (List.filter (row_refers_to sheet k) (data_rows sheet)))%nat).
Proof.
  intros Hrect Hcols.
  destruct (sweep_swept sheet leaderboards Hrect Hcols out) as (st' & Hst' & Hshape & Hcells).
  exists st'. split; [assumption|]. split.
  - intros idx comp Hidx Hcomp Hna Hlb. split.
    + unfold cell_at in Hcomp.
      destruct (cells sheet !! idx) as [row|] eqn:Hrow; [|discriminate].
      assert (Hlen : length <$> result_df st' !! idx = Some (length row)).
      { rewrite <- list_lookup_fmap.
        change (fmap length (result_df st')) with (map length (result_df st')).
        rewrite Hshape.
        change (map length (cells sheet)) with (fmap (M := list) (length (A := cell)) (cells sheet)).
        now rewrite list_lookup_fmap, Hrow. }
      destruct (result_df st' !! idx) as [row'|] eqn:Hrow'; [|discriminate].
      injection Hlen as Hlen. f_equal. apply list_eq. intros j.
      destruct (row !! j) as [c|] eqn:Hc.
      * specialize (Hcells idx j c). unfold cell_at in Hcells.
        rewrite Hrow, Hrow' in Hcells. rewrite (Hcells Hc). simpl. f_equal.
        apply expected_cell_skipped. intros comp0 H0.
        unfold cell_at in H0. rewrite Hrow in H0.
        assert (comp0 = comp) as -> by congruence. now right.
      * apply lookup_ge_None in Hc. apply lookup_ge_None. lia.
    + intros st. unfold process_row. unfold cell_at in Hcomp.
      destruct (cells sheet !! idx) as [row|]; [|discriminate].
      now rewrite Hcomp, Hna, Hlb.
  - intros k Hk. unfold sweep in Hst'.
    now rewrite (process_rows_console _ _ _ _ _ _ Hk Hst').
Qed.

Lemma example_sheet_rectangular : rectangular example_sheet.
Proof. unfold rectangular. simpl. repeat constructor. Qed.


(** The end-to-end scenario: the score 0.92 becomes the percentile 89, the
    link stays, the rows of the missing competition stay. *)
Example sweep_example :
  option_map result_df (sweep example_sheet example_leaderboards [])
  = Some [repeat (CellStr "header") 13; repeat (CellStr "header") 13;
          [CellInt 1; CellStr "comp"; CellNA; CellNA; CellDate 2024 5 1; CellNA; CellNA;
           CellNA; CellNA; CellNA; CellNA; CellInt 89; CellStr "https://example.com/run/17"];
          example_row (CellStr "missing");
          example_row (CellStr "missing")].
Proof. vm_compute. reflexivity. Qed.

Lemma missing_leaderboard_rows_witness :
  exists st',
    sweep example_sheet example_leaderboards [] = Some st'
    /\ (forall idx comp,
          (2 <= idx)%nat ->
          cell_at (cells example_sheet) idx 4 = Some comp ->
          isna comp = false ->
          example_leaderboards !! competition_str comp = None ->
          result_df st' !! idx = cells example_sheet !! idx
          /\ forall st,
              process_row example_sheet example_leaderboards st idx
              = Some {| result_df := result_df st;
                        updates_count := updates_count st;
                        console := console st
                                   ++ [WarnLeaderboardNotFound (competition_str comp)] |})
    /\ (forall k,
          example_leaderboards !! k = None ->
          not_found_warnings k (console st')
          = (not_found_warnings k []
             + length (List.filter (row_refers_to example_sheet k) (data_rows example_sheet)))%nat).
Proof.
  apply (missing_leaderboard_rows example_sheet example_leaderboards []).
  - apply example_sheet_rectangular.
  - left. simpl. lia.
Defined.

(** C9 as stated fails: two rows name the same missing competition and the
    run prints two warnings for it. *)
Lemma two_rows_two_warnings :
  example_leaderboards !! "missing" = None
  /\ option_map console (sweep example_sheet example_leaderboards [])
     = Some [SkippedValue (CellStr "https://example.com/run/17");
             WarnLeaderboardNotFound "missing"; WarnLeaderboardNotFound "missing"]
  /\ option_map (fun st => not_found_warnings "missing" (console st))
       (sweep example_sheet example_leaderboards []) = Some 2%nat.
Proof. vm_compute. repeat split. Qed.

(** The whole conversion on the example folder and sheet. *)
Example convert_scores_to_percentiles_example :
  option_map (fun st => (cell_at (result_df st) 2 11, cell_at (result_df st) 2 12,
                         cell_at (result_df st) 3 11, updates_count st, console st))
    (convert_scores_to_percentiles FloatParse.py_float example_sheet
       [empty_file; unreadable_file; leaderboard_20_file])
  = Some (Some (CellInt 89), Some (CellStr "https://example.com/run/17"),
          Some (CellStr "0.92"), 1%nat,
          [WarnNoValidData "empty"; ErrorReading "broken";
           SkippedValue (CellStr "https://example.com/run/17");
           WarnLeaderboardNotFound "missing"; WarnLeaderboardNotFound "missing"]).
Proof. vm_compute. reflexivity. Qed.

(** * Further properties of the code *)

(** ** Trimming *)

Lemma rstrip_idem s : Text.rstrip (Text.rstrip s) = Text.rstrip s.
Proof.
  induction s as [|c s IH]; [reflexivity|]. simpl.
  destruct (Text.rstrip s) as [|d r] eqn:E.
  - destruct (Text.py_isspace c) eqn:Hc; [reflexivity|]. simpl. now rewrite Hc.
  - simpl in *. now rewrite IH.
Qed.

Lemma lstrip_head s :
  match Text.lstrip s with
  | EmptyString => True
  | String c _ => Text.py_isspace c = false
  end.
Proof.
  induction s as [|c s IH]; simpl; [exact I|].
  destruct (Text.py_isspace c) eqn:Hc; [assumption|]. simpl. assumption.
Qed.

Lemma rstrip_head c s :
  Text.py_isspace c = false -> exists r, Text.rstrip (String c s) = String c r.
Proof.
  intros Hc. simpl. destruct (Text.rstrip s); [rewrite Hc|]; eauto.
Qed.

Lemma strip_idem s : Text.strip (Text.strip s) = Text.strip s.
Proof.
  unfold Text.strip.
  assert (H := lstrip_head s).
  destruct (Text.lstrip s) as [|c t] eqn:E; [reflexivity|].
  destruct (rstrip_head c t H) as [r Hr]. rewrite Hr.
  rewrite lstrip_nonspace by assumption.
  now rewrite <- Hr, rstrip_idem.
Qed.

(** X1: the parser sees a text only through its trimmed form: blanks
    around the text never change the result. *)
Theorem parse_score_value_strip (s : string) :
  parse_score_value (CellStr (Text.strip s)) = parse_score_value (CellStr s).
Proof. unfold parse_score_value. simpl. now rewrite strip_idem. Qed.

(** ** Texts with a comma *)

Lemma lstrip_app_comma s t :
  Text.lstrip (s ++ String "," t) = (Text.lstrip s ++ String "," t)%string.
Proof.
  induction s as [|c s IH]; [reflexivity|]. simpl.
  destruct (Text.py_isspace c); [assumption|reflexivity].
Qed.

Lemma rstrip_app_comma u t :
  Text.rstrip (u ++ String "," t) = (u ++ String "," (Text.rstrip t))%string.
Proof.
  induction u as [|c u IH]; simpl.
  - now destruct (Text.rstrip t).
  - rewrite IH. now destruct u.
Qed.

Lemma lstrip_no_comma s : Text.contains "," s = false -> Text.contains "," (Text.lstrip s) = false.
Proof.
  induction s as [|c s IH]; [reflexivity|]. simpl. intros H.
  apply orb_false_iff in H as [Hc Hs].
  destruct (Text.py_isspace c); [auto|]. simpl. now rewrite Hc, Hs.
Qed.

Lemma lstrip_idem s : Text.lstrip (Text.lstrip s) = Text.lstrip s.
Proof.
  assert (H := lstrip_head s).
  destruct (Text.lstrip s) as [|c t]; [reflexivity|]. now apply lstrip_nonspace.
Qed.

Lemma prefix_app_comma p : forall u r,
  Text.contains "," p = false ->
  String.prefix p (u ++ String "," r) = String.prefix p u.
Proof.
  induction p as [|a p IH]; intros u r Hp.
  - now destruct u.
  - simpl in Hp. apply orb_false_iff in Hp as [Ha Hp].
    destruct u as [|c u]; simpl.
    + destruct (ascii_dec a ",") as [->|]; [discriminate|reflexivity].
    + destruct (ascii_dec a c); [now apply IH|reflexivity].
Qed.

Lemma is_url_app_comma u r :
  is_url (u ++ String "," r) = is_url u.
Proof.
  unfold is_url, Text.startswith. now rewrite !prefix_app_comma.
Qed.

Lemma contains_app_comma u r : Text.contains "," (u ++ String "," r) = true.
Proof.
  induction u as [|c u IH]; simpl; [reflexivity|]. rewrite IH. apply orb_true_r.
Qed.

Lemma contains_lower s : Text.contains "," s = true -> Text.contains "," (Text.lower s) = true.
Proof.
  induction s as [|c s IH]; [discriminate|]. simpl. intros H.
  apply orb_true_iff in H as [H|H].
  - apply Ascii.eqb_eq in H. subst c. reflexivity.
  - rewrite (IH H). apply orb_true_r.
Qed.

Lemma comma_not_sentinel s :
  Text.contains "," s = true -> existsb (String.eqb (Text.lower s)) null_sentinels = false.
Proof.
  intros H. apply contains_lower in H.
  destruct (existsb _ null_sentinels) eqn:E; [|reflexivity].
  apply existsb_sentinel in E. simpl in E.
  destruct E as [E|[E|[E|[E|[E|[]]]]]]; rewrite <- E in H; discriminate.
Qed.

Lemma before_first_comma_app u r :
  Text.contains "," u = false -> before_first_comma (u ++ String "," r) = u.
Proof.
  induction u as [|c u IH]; [reflexivity|]. simpl. intros H.
  apply orb_false_iff in H as [Hc Hu]. rewrite Hc. now rewrite IH.
Qed.

(** X2: of a text with a comma only the part before the first comma
    counts: unless that part begins (after leading blanks) like a URL, the
    result is the float of that part trimmed, whatever follows the comma. *)
Theorem parse_score_value_before_comma (s t : string) :
  Text.contains "," s = false ->
  parse_score_value (CellStr (s ++ String "," t))
  = if is_url (Text.lstrip s) then None else FloatParse.py_float (Text.strip s).
Proof.
  intros Hs.
  assert (Hstrip : Text.strip (s ++ String "," t)
                   = (Text.lstrip s ++ String "," (Text.rstrip t))%string)
    by (unfold Text.strip; now rewrite lstrip_app_comma, rstrip_app_comma).
  unfold parse_score_value. simpl isna. simpl py_str. cbv iota zeta.
  rewrite !Hstrip, is_url_app_comma.
  destruct (is_url (Text.lstrip s)); [reflexivity|].
  rewrite comma_not_sentinel by apply contains_app_comma.
  rewrite contains_app_comma.
  replace (String.eqb _ "") with false by (now destruct (Text.lstrip s)).
  simpl orb. cbv iota.
  rewrite hd_split_comma, before_first_comma_app by now apply lstrip_no_comma.
  unfold Text.strip. now rewrite lstrip_idem.
Qed.

Lemma parse_score_value_before_comma_witness :
  parse_score_value (CellStr (" 7.5 " ++ String "," " see https://example.com"))
  = if is_url (Text.lstrip " 7.5 ") then None else FloatParse.py_float (Text.strip " 7.5 ").
Proof.
  apply (parse_score_value_before_comma " 7.5 " " see https://example.com").
  reflexivity.
Defined.

(** ** Integer cells *)

Section IntegerCells.
Import FloatParse.

Lemma digit_char_facts c :
  is_digit c = true ->
  Text.py_isspace c = false /\ float_isspace c = false
  /\ Ascii.eqb c "," = false /\ Ascii.eqb c "_" = false
  /\ c <> "-"%char /\ c <> "+"%char /\ c <> "h"%char /\ c <> "w"%char
  /\ Text.lower_char c <> "n"%char /\ ascii_lower c <> "i"%char /\ ascii_lower c <> "n"%char.
Proof.
  destruct c as [[] [] [] [] [] [] [] []]; vm_compute; intros H;
    try discriminate H; repeat split; discriminate.
Qed.

Lemma string_of_uint_digits d :
  Forall (fun c => is_digit c = true) (list_ascii_of_string (NilEmpty.string_of_uint d)).
Proof. induction d; simpl; constructor; auto. Qed.

Lemma read_digits_acc d : forall p n,
  read_digits (Z.pos p) n (NilEmpty.string_of_uint d)
  = (Z.pos (Pos.of_uint_acc d p), (n + Decimal.nb_digits d)%nat, "").
Proof.
  induction d; intros p n; cbn [NilEmpty.string_of_uint read_digits Pos.of_uint_acc Decimal.nb_digits];
    try (rewrite Nat.add_0_r; reflexivity);
    change (is_digit _) with true; cbv iota;
    match goal with
    | |- read_digits ?a _ _ = (Z.pos (Pos.of_uint_acc _ ?b), _, _) =>
        replace a with (Z.pos b) by (vm_compute digit_val; lia)
    end;
    rewrite IHd; f_equal; f_equal; lia.
Qed.

Lemma read_digits_uint d : forall n,
  read_digits 0 n (NilEmpty.string_of_uint d)
  = (Z.of_N (Pos.of_uint d), (n + Decimal.nb_digits d)%nat, "").
Proof.
  induction d; intros n; cbn [NilEmpty.string_of_uint read_digits Pos.of_uint Decimal.nb_digits];
    try (rewrite Nat.add_0_r; reflexivity);
    change (is_digit _) with true; cbv iota.
  - change (10 * 0 + digit_val "0") with 0. rewrite IHd. f_equal. f_equal. lia.
  - change (10 * 0 + digit_val "1") with (Z.pos 1). rewrite read_digits_acc. f_equal; f_equal; lia.
  - change (10 * 0 + digit_val "2") with (Z.pos 2). rewrite read_digits_acc. f_equal; f_equal; lia.
  - change (10 * 0 + digit_val "3") with (Z.pos 3). rewrite read_digits_acc. f_equal; f_equal; lia.
  - change (10 * 0 + digit_val "4") with (Z.pos 4). rewrite read_digits_acc. f_equal; f_equal; lia.
  - change (10 * 0 + digit_val "5") with (Z.pos 5). rewrite read_digits_acc. f_equal; f_equal; lia.
  - change (10 * 0 + digit_val "6") with (Z.pos 6). rewrite read_digits_acc. f_equal; f_equal; lia.
  - change (10 * 0 + digit_val "7") with (Z.pos 7). rewrite read_digits_acc. f_equal; f_equal; lia.
  - change (10 * 0 + digit_val "8") with (Z.pos 8). rewrite read_digits_acc. f_equal; f_equal; lia.
  - change (10 * 0 + digit_val "9") with (Z.pos 9). rewrite read_digits_acc. f_equal; f_equal; lia.
Qed.

Lemma minus_char_facts :
  Text.py_isspace "-" = false /\ float_isspace "-" = false
  /\ Ascii.eqb "-" "," = false /\ Ascii.eqb "-" "_" = false.
Proof. repeat split. Qed.

Lemma plain_rstrip s :
  Forall plain (list_ascii_of_string s) -> Text.rstrip s = s /\ float_rstrip s = s.
Proof.
  induction s as [|c s IH]; [auto|]. simpl. intros H.
  apply Forall_cons_1 in H as [(H1 & H2 & _) Hs].
  destruct (IH Hs) as [-> ->]. rewrite H1, H2. now destruct s.
Qed.

Lemma plain_lstrip s :
  Forall plain (list_ascii_of_string s) -> Text.lstrip s = s /\ float_lstrip s = s.
Proof.
  destruct s as [|c s]; [auto|]. simpl. intros H.
  apply Forall_cons_1 in H as [(H1 & H2 & _) Hs]. now rewrite H1, H2.
Qed.

Lemma plain_no_comma s :
  Forall plain (list_ascii_of_string s) -> Text.contains "," s = false.
Proof.
  induction s as [|c s IH]; [auto|]. simpl. intros H.
  apply Forall_cons_1 in H as [(_ & _ & H3 & _) Hs]. now rewrite H3, IH.
Qed.

Lemma plain_drop_underscores s : forall prev,
  Ascii.eqb prev "_" = false ->
  Forall plain (list_ascii_of_string s) -> drop_underscores prev s = Some s.
Proof.
  induction s as [|c s IH]; intros prev Hp H; simpl.
  - now rewrite Hp.
  - apply Forall_cons_1 in H as [(_ & _ & _ & H4) Hs].
    rewrite H4, Hp. simpl. now rewrite IH.
Qed.

Lemma digits_plain s :
  Forall (fun c => is_digit c = true) (list_ascii_of_string s) ->
  Forall plain (list_ascii_of_string s).
Proof.
  intros H. eapply List.Forall_impl; [|exact H]. intros c Hc.
  destruct (digit_char_facts c Hc) as (H1 & H2 & H3 & H4 & _). unfold plain. auto.
Qed.

(** What [float] makes of a run of digits with an optional minus sign. *)
Lemma py_float_digits (negative : bool) d :
  d <> Decimal.Nil ->
  py_float ((if negative then "-" else "") ++ NilEmpty.string_of_uint d)
  = Some (decimal_to_float negative (Z.of_N (Pos.of_uint d)) 0).
Proof.
  intros Hd. set (digits := NilEmpty.string_of_uint d).
  assert (Hdig := string_of_uint_digits d). fold digits in Hdig.
  assert (Hplain : Forall plain
            (list_ascii_of_string ((if negative then "-" else "") ++ digits))).
  { destruct negative; simpl.
    - constructor; [exact minus_char_facts|now apply digits_plain].
    - now apply digits_plain. }
  unfold py_float.
  rewrite (proj2 (plain_lstrip _ Hplain)), (proj2 (plain_rstrip _ Hplain)).
  rewrite plain_drop_underscores by (auto; reflexivity).
  assert (Hne : exists c rest, digits = String c rest /\ is_digit c = true).
  { unfold digits in *. destruct d; try congruence; simpl in *;
      apply Forall_cons_1 in Hdig as [Hc _]; eauto. }
  destruct Hne as (c & rest & Ec & Hc).
  destruct (digit_char_facts c Hc) as (_ & _ & _ & _ & Hm & Hp & _ & _ & _ & Hi & Hn).
  assert (Hsign : read_sign ((if negative then "-" else "") ++ digits) = (negative, digits)).
  { destruct negative; simpl; [reflexivity|]. rewrite Ec.
    unfold read_sign. destruct c as [[] [] [] [] [] [] [] []]; try reflexivity; congruence. }
  rewrite Hsign.
  assert (Hspecial : special_literal digits = None).
  { unfold special_literal. rewrite Ec. simpl lower_ascii.
    destruct (ascii_lower c) as [[] [] [] [] [] [] [] []] eqn:E; try reflexivity; congruence. }
  rewrite Hspecial.
  unfold parse_decimal. unfold digits. rewrite read_digits_uint. simpl Nat.add.
  assert (Hnb : (Decimal.nb_digits d + 0 =? 0)%nat = false).
  { apply Nat.eqb_neq. destruct d; simpl; congruence || lia. }
  rewrite Hnb. reflexivity.
Qed.

Lemma to_uint_not_Nil p : Pos.to_uint p <> Decimal.Nil.
Proof.
  intros E. assert (H := DecimalPos.Unsigned.of_to p). rewrite E in H. discriminate.
Qed.

Lemma py_str_int z :
  py_str (CellInt z)
  = ((if (z <? 0)%Z then "-" else "")
     ++ NilEmpty.string_of_uint (match z with
                                 | Z0 => Decimal.D0 Decimal.Nil
                                 | Z.pos p | Z.neg p => Pos.to_uint p
                                 end))%string.
Proof.
  destruct z as [|p|p]; simpl; unfold Text.str_of_Z; simpl; try reflexivity;
    unfold NilZero.string_of_uint; assert (H := to_uint_not_Nil p);
    now destruct (Pos.to_uint p).
Qed.
End IntegerCells.

Lemma prefix_first_char a p c s :
  a <> c -> String.prefix (String a p) (String c s) = false.
Proof. intros H. cbn [String.prefix]. now destruct (ascii_dec a c). Qed.

Lemma parse_plain_text c rest :
  Forall plain (list_ascii_of_string (String c rest)) ->
  c <> "h"%char -> c <> "w"%char -> Text.lower_char c <> "n"%char ->
  parse_score_value (CellStr (String c rest)) = FloatParse.py_float (String c rest).
Proof.
  intros Hplain Hh Hw Hn.
  assert (Hstrip : Text.strip (String c rest) = String c rest).
  { unfold Text.strip. rewrite (proj1 (plain_lstrip _ Hplain)).
    apply (plain_rstrip _ Hplain). }
  rewrite parse_score_value_float.
  - unfold float_argument. simpl py_str. rewrite Hstrip.
    now rewrite (plain_no_comma _ Hplain).
  - reflexivity.
  - simpl py_str. rewrite Hstrip. unfold is_url, Text.startswith.
    now rewrite !prefix_first_char by congruence.
  - simpl py_str. rewrite Hstrip. simpl.
    intros [E|[E|[E|[E|[E|[]]]]]]; try discriminate; injection E as E _; congruence.
Qed.

(** The digits of an integer cell are read back as its decimal value;
    only magnitudes from 2^1024 - 2^970 on overflow to an infinity. *)
Lemma parse_score_value_int (z : Z) :
  Z.abs z < FloatParse.overflow_threshold ->
  parse_score_value (CellInt z) = Some (Finite (inject_Z z)).
Proof.
  intros Hz.
  assert (Hcell : parse_score_value (CellInt z) = parse_score_value (CellStr (py_str (CellInt z))))
    by reflexivity.
  rewrite Hcell, py_str_int.
  set (d := match z with
            | Z0 => Decimal.D0 Decimal.Nil
            | Z.pos p | Z.neg p => Pos.to_uint p
            end).
  assert (Hd : d <> Decimal.Nil).
  { unfold d. destruct z; [discriminate| |]; apply to_uint_not_Nil. }
  assert (Hval : Z.of_N (Pos.of_uint d) = Z.abs z).
  { unfold d. destruct z; [reflexivity| |]; now rewrite DecimalPos.Unsigned.of_to. }
  assert (Hfloat := py_float_digits (z <? 0) d Hd).
  assert (Hdig := string_of_uint_digits d).
  destruct ((if (z <? 0)%Z then "-" else "") ++ NilEmpty.string_of_uint d)%string
    as [|c rest] eqn:Etext.
  { destruct (z <? 0); [discriminate|]. simpl in Etext.
    destruct d; try congruence; discriminate. }
  rewrite parse_plain_text.
  - rewrite Hfloat, Hval. unfold FloatParse.decimal_to_float, FloatParse.overflows,
      FloatParse.decimal_value.
    change (0 <=? 0) with true. cbv iota. change (10 ^ 0) with 1. rewrite Z.mul_1_r.
    destruct (Z.leb_spec FloatParse.overflow_threshold (Z.abs z)); [lia|].
    destruct z as [|p|p]; reflexivity.
  - rewrite <- Etext. destruct (z <? 0); simpl.
    + constructor; [exact minus_char_facts|now apply digits_plain].
    + now apply digits_plain.
  - destruct (z <? 0).
    + injection Etext as <- _. discriminate.
    + change (NilEmpty.string_of_uint d = String c rest) in Etext.
      rewrite Etext in Hdig. apply Forall_cons_1 in Hdig as [Hc _].
      apply (digit_char_facts c Hc).
  - destruct (z <? 0).
    + injection Etext as <- _. discriminate.
    + change (NilEmpty.string_of_uint d = String c rest) in Etext.
      rewrite Etext in Hdig. apply Forall_cons_1 in Hdig as [Hc _].
      apply (digit_char_facts c Hc).
  - destruct (z <? 0).
    + injection Etext as <- _. discriminate.
    + change (NilEmpty.string_of_uint d = String c rest) in Etext.
      rewrite Etext in Hdig. apply Forall_cons_1 in Hdig as [Hc _].
      apply (digit_char_facts c Hc).
Qed.

(** ** Order on floats *)


Lemma le_Finite a b : Float.le (Finite a) (Finite b) = true <-> (a <= b)%Q.
Proof.
  simpl. rewrite Qle_alt. destruct (a ?= b)%Q; split; intros; congruence.
Qed.




(** ** Counting *)

Lemma count_mono (p q : pyfloat -> bool) a :
  (forall x, p x = true -> q x = true) -> count p a <= count q a.
Proof.
  intros H. unfold count. apply inj_le.
  induction a as [|x a IH]; simpl; [lia|].
  destruct (p x) eqn:E.
  - rewrite (H x E). simpl. lia.
  - destruct (q x); simpl; lia.
Qed.

Lemma count_bounds p a : 0 <= count p a <= Z.of_nat (length a).
Proof.
  unfold count. split; [lia|]. apply inj_le.
  induction a as [|x a IH]; simpl; [lia|]. destruct (p x); simpl; lia.
Qed.

(** ** Rounding *)

Lemma round_half_even_bounds q :
  let z := Float.round_half_even q in
  let n := Qnum q in
  let d := Z.pos (Qden q) in
  (2 * z - 1) * d <= 2 * n <= (2 * z + 1) * d
  /\ (2 * n = (2 * z + 1) * d -> Z.even z = true)
  /\ (2 * n = (2 * z - 1) * d -> Z.even z = true).
Proof.
  destruct q as [n dp]. unfold Float.round_half_even. cbn [Qnum Qden].
  set (d := Z.pos dp).
  assert (Hd : 0 < d) by (unfold d; lia).
  assert (Hdiv := Z.div_mod n d ltac:(lia)).
  assert (Hmod := Z.mod_pos_bound n d Hd).
  remember (n / d) as f eqn:Hf. remember (n mod d) as r eqn:Hr.
  clear Hf Hr. subst n.
  destruct (2 * r ?= d) eqn:E.
  - apply Z.compare_eq in E.
    destruct (Z.even f) eqn:Ef; cbv zeta.
    + split; [lia|]. split; intros; assumption.
    + split; [lia|]. split; [intros; exfalso; lia|]. intros _.
      rewrite Z.even_add, Ef. reflexivity.
  - rewrite Z.compare_lt_iff in E. cbv zeta. split; [lia|]. split; intros; exfalso; lia.
  - rewrite Z.compare_gt_iff in E. cbv zeta. split; [lia|]. split; intros; exfalso; lia.
Qed.

Lemma round_half_even_mono q1 q2 :
  (q1 <= q2)%Q -> Float.round_half_even q1 <= Float.round_half_even q2.
Proof.
  intros Hq. unfold Qle in Hq.
  destruct (round_half_even_bounds q1) as ([L1 U1] & Eu1 & El1).
  destruct (round_half_even_bounds q2) as ([L2 U2] & Eu2 & El2).
  set (z1 := Float.round_half_even q1) in *. set (z2 := Float.round_half_even q2) in *.
  set (n1 := Qnum q1) in *. set (n2 := Qnum q2) in *.
  set (d1 := Z.pos (Qden q1)) in *. set (d2 := Z.pos (Qden q2)) in *.
  assert (Hd1 : 0 < d1) by (unfold d1; lia).
  assert (Hd2 : 0 < d2) by (unfold d2; lia).
  destruct (Z_le_gt_dec z1 z2) as [|Hgt]; [assumption|exfalso].
  assert (H1 : (2 * z1 - 1) * (d1 * d2) <= 2 * n1 * d2) by nia.
  assert (H2 : 2 * n1 * d2 <= 2 * n2 * d1) by nia.
  assert (H3 : 2 * n2 * d1 <= (2 * z2 + 1) * (d1 * d2)) by nia.
  assert (Hz : z1 = z2 + 1) by nia.
  assert (E1 : 2 * n1 = (2 * z1 - 1) * d1) by nia.
  assert (E2 : 2 * n2 = (2 * z2 + 1) * d2) by nia.
  specialize (El1 E1). specialize (Eu2 E2).
  rewrite Hz, Z.even_add, Eu2 in El1. discriminate.
Qed.

(** ** The rank percentage *)



Lemma rank_points_bounds a score : 0 <= rank_points a score <= 2 * Z.of_nat (length a).
Proof.
  unfold rank_points.
  assert (H1 := count_bounds (fun x => Float.lt x score) a).
  assert (H2 := count_bounds (fun x => Float.le x score) a).
  assert (H3 := count_mono (fun x => Float.lt x score) (fun x => Float.le x score) a
                  (fun x => lt_le x score)).
  destruct (Z.ltb_spec (count (fun x => Float.lt x score) a)
              (count (fun x => Float.le x score) a)); lia.
Qed.

















(** ** The order of the rows in the file *)

Lemma string_compare_trans s1 : forall s2 s3,
  String.compare s1 s2 <> Gt -> String.compare s2 s3 <> Gt -> String.compare s1 s3 <> Gt.
Proof.
  induction s1 as [|c1 s1 IH]; intros [|c2 s2] [|c3 s3]; simpl; try congruence.
  unfold Ascii.compare.
  destruct (N.compare_spec (N_of_ascii c1) (N_of_ascii c2)),
    (N.compare_spec (N_of_ascii c2) (N_of_ascii c3)),
    (N.compare_spec (N_of_ascii c1) (N_of_ascii c3));
    try congruence; try lia.
  apply IH.
Qed.

Lemma string_leb_trans s1 s2 s3 :
  String.leb s1 s2 = true -> String.leb s2 s3 = true -> String.leb s1 s3 = true.
Proof.
  unfold String.leb. intros H1 H2.
  assert (H := string_compare_trans s1 s2 s3).
  destruct (String.compare s1 s2), (String.compare s2 s3), (String.compare s1 s3);
    try reflexivity; try discriminate; exfalso; apply H; congruence.
Qed.

Section SortUnique.
Context {K : Type} (leb : K -> K -> bool).
Hypothesis leb_total : forall a b, leb a b = true \/ leb b a = true.
Hypothesis leb_trans : forall a b c, leb a b = true -> leb b c = true -> leb a c = true.
Hypothesis leb_antisym : forall a b, leb a b = true -> leb b a = true -> a = b.

Lemma sorted_rows_unique (l1 : list (K * pyfloat)) : forall l2,
  StronglySorted (fun a b => leb (fst a) (fst b) = true) l1 ->
  StronglySorted (fun a b => leb (fst a) (fst b) = true) l2 ->
  Permutation l1 l2 ->
  List.NoDup (map fst l1) ->
  l1 = l2.
Proof.
  induction l1 as [|x l1 IH]; intros l2 S1 S2 Hp Hnd.
  - now apply Permutation_nil in Hp.
  - destruct l2 as [|y l2]; [symmetry in Hp; now apply Permutation_nil in Hp|].
    apply StronglySorted_inv in S1 as [S1 Hx].
    apply StronglySorted_inv in S2 as [S2 Hy].
    apply List.NoDup_cons_iff in Hnd as [Hnx Hnd].
    assert (x = y) as <-.
    { assert (Hxin : In x (y :: l2)) by (eapply Permutation_in; [exact Hp|now left]).
      assert (Hyin : In y (x :: l1))
        by (eapply Permutation_in; [symmetry; exact Hp|now left]).
      destruct Hxin as [->|Hxin]; [reflexivity|].
      destruct Hyin as [->|Hyin]; [reflexivity|].
      exfalso. apply Hnx.
      rewrite List.Forall_forall in Hx, Hy.
      rewrite (leb_antisym (fst x) (fst y) (Hx y Hyin) (Hy x Hxin)).
      now apply in_map. }
    f_equal. apply IH; try assumption.
    eapply Permutation_cons_inv; exact Hp.
Qed.

Lemma sort_by_strongly_sorted (l : list (K * pyfloat)) :
  StronglySorted (fun a b => leb (fst a) (fst b) = true) (sort_by leb l).
Proof.
  apply Sorted_StronglySorted.
  - intros a b c. apply leb_trans.
  - apply (sort_by_sorted leb (fun a b => leb a b = true)); auto.
Qed.

Lemma sort_by_perm_eq (l1 l2 : list (K * pyfloat)) :
  Permutation l1 l2 -> List.NoDup (map fst l1) -> sort_by leb l1 = sort_by leb l2.
Proof.
  intros Hp Hnd. apply sorted_rows_unique; try apply sort_by_strongly_sorted.
  - rewrite !sort_by_perm. assumption.
  - eapply Permutation_NoDup; [|exact Hnd].
    apply Permutation_map. symmetry. apply sort_by_perm.
Qed.
End SortUnique.

Lemma sort_values_same_rows_eq (d1 d2 : Leaderboard) :
  same_rows d1 d2 -> distinct_ranks d1 -> sort_values d1 = sort_values d2.
Proof.
  destruct d1 as [r1|r1], d2 as [r2|r2]; simpl; try contradiction; intros Hp Hnd; f_equal.
  - apply sort_by_perm_eq; try assumption; intros; lia.
  - apply sort_by_perm_eq; try assumption.
    + apply String.leb_total.
    + apply string_leb_trans.
    + apply String.leb_antisym.
Qed.

Lemma filter_length_perm {A : Type} (p : A -> bool) (l1 l2 : list A) :
  Permutation l1 l2 -> length (List.filter p l1) = length (List.filter p l2).
Proof.
  induction 1 as [|x l l' Hp IH|x y l|l l' l'' H1 IH1 H2 IH2]; simpl; try congruence.
  - destruct (p x); simpl; congruence.
  - destruct (p x), (p y); reflexivity.
Qed.

Lemma existsb_perm {A : Type} (p : A -> bool) (l1 l2 : list A) :
  Permutation l1 l2 -> existsb p l1 = existsb p l2.
Proof.
  induction 1 as [|x l l' Hp IH|x y l|l l' l'' H1 IH1 H2 IH2]; simpl; try congruence.
  destruct (p x), (p y); reflexivity.
Qed.

Lemma percentileofscore_perm (a1 a2 : list pyfloat) (score : pyfloat) :
  Permutation a1 a2 -> percentileofscore a1 score = percentileofscore a2 score.
Proof.
  intros Hp. unfold percentileofscore, count.
  rewrite (existsb_perm _ _ _ Hp), (Permutation_length Hp).
  now rewrite !(filter_length_perm _ _ _ Hp).
Qed.

Lemma Score_same_rows (d1 d2 : Leaderboard) :
  same_rows d1 d2 -> Permutation (Score d1) (Score d2).
Proof.
  destruct d1, d2; simpl; try contradiction; apply Permutation_map.
Qed.

(** X7: when no two rows share a rank, the percentile does not depend on
    the order in which the rows stand in the leaderboard file. *)
Theorem calculate_percentile_row_order (our_score : pyfloat) (d1 d2 : Leaderboard)
    (total1 total2 : nat) :
  same_rows d1 d2 -> distinct_ranks d1 ->
  calculate_percentile our_score d1 total1 = calculate_percentile our_score d2 total2.
Proof.
  intros Hs Hd. unfold calculate_percentile, higher_is_better.
  rewrite (sort_values_same_rows_eq d1 d2 Hs Hd).
  assert (Hp := dropna_perm _ _ (Score_same_rows d1 d2 Hs)).
  rewrite (percentileofscore_perm _ _ our_score Hp), (Permutation_length Hp).
  reflexivity.
Qed.

Lemma calculate_percentile_row_order_witness :
  calculate_percentile (Finite 0.85)
    (TextRanked [("1", Finite 0.9); ("2", Finite 0.8); ("3", Finite 0.7)]) 3
  = calculate_percentile (Finite 0.85)
      (TextRanked [("3", Finite 0.7); ("2", Finite 0.8); ("1", Finite 0.9)]) 3.
Proof.
  apply calculate_percentile_row_order.
  - simpl. apply (Permutation_rev [("1", Finite 0.9); ("2", Finite 0.8); ("3", Finite 0.7)]).
  - simpl. repeat constructor; simpl; intuition discriminate.
Defined.

(** ** The loader over a folder *)

Section LoaderFolder.
Variable f : string -> option pyfloat.

Lemma load_file_lookup st file name :
  (load_file f st file).1 !! name
  = match read_csv file with
    | Some (Table body) =>
        if (n_rows (clean f body) =? 0)%nat then st.1 !! name
        else if String.eqb (competition_name file) name
             then Some {| df := clean f body; total_teams := n_rows (clean f body) |}
             else st.1 !! name
    | _ => st.1 !! name
    end.
Proof.
  destruct st as [m out]. unfold load_file.
  destruct (read_csv file) as [[| |body]|]; simpl; try reflexivity.
  destruct (n_rows (clean f body) =? 0)%nat; simpl; [reflexivity|].
  destruct (String.eqb_spec (competition_name file) name) as [->|Hne].
  - apply lookup_insert_eq.
  - now apply lookup_insert_ne.
Qed.

Lemma fold_load_file_lookup files : forall st name e,
  List.NoDup (map competition_name files) ->
  (fold_left (load_file f) files st).1 !! name = Some e
  <-> loaded_from f files name e
      \/ (st.1 !! name = Some e /\ ~ exists e', loaded_from f files name e').
Proof.
  induction files as [|file files IH]; intros st name e Hnd; simpl.
  - split.
    + intros H. right. split; [assumption|]. intros (e' & fl & b & [] & _).
    + intros [(fl & b & [] & _)|[H _]]. assumption.
  - apply List.NoDup_cons_iff in Hnd as [Hnin Hnd].
    rewrite (IH _ _ _ Hnd), load_file_lookup. clear IH.
    assert (Hother : forall e', loaded_from f files name e' -> competition_name file <> name).
    { intros e' (fl & b & Hin & Hname & _) Heq. apply Hnin. rewrite Heq, <- Hname.
      now apply in_map. }
    assert (Hcons : forall e', loaded_from f files name e' -> loaded_from f (file :: files) name e').
    { intros e' (fl & b & Hin & H). exists fl, b. split; [now right|assumption]. }
    split.
    + intros [H|[H Hno]]; [left; now apply Hcons|].
      destruct (read_csv file) as [[| |body]|] eqn:Hr;
        try (right; split; [assumption|]; intros (e' & fl & b & [<-|Hin] & Hname & Hrd & H');
             [congruence|apply Hno; exists e', fl, b; auto]).
      destruct (n_rows (clean f body) =? 0)%nat eqn:Hn.
      * right. split; [assumption|]. apply Nat.eqb_eq in Hn.
        intros (e' & fl & b & [<-|Hin] & Hname & Hrd & He & H');
          [|apply Hno; exists e', fl, b; auto].
        rewrite Hr in Hrd. injection Hrd as <-. contradiction.
      * destruct (String.eqb_spec (competition_name file) name) as [Heq|Hne].
        -- left. injection H as <-. exists file, body. apply Nat.eqb_neq in Hn.
           repeat split; auto. now left.
        -- right. split; [assumption|].
           intros (e' & fl & b & [<-|Hin] & Hname & H'); [contradiction|].
           apply Hno. exists e', fl, b. auto.
    + intros [(fl & b & [<-|Hin] & Hname & Hrd & He & Hn)|[H Hno]].
      * right. rewrite Hrd. apply Nat.eqb_neq in Hn. rewrite Hn.
        apply String.eqb_eq in Hname as Hname'. rewrite Hname'. split; [now subst e|].
        intros (e' & H'). apply (Hother e' H'). assumption.
      * left. exists fl, b. auto.
      * right. split.
        -- destruct (read_csv file) as [[| |body]|] eqn:Hr; try assumption.
           destruct (n_rows (clean f body) =? 0)%nat eqn:Hn; [assumption|].
           destruct (String.eqb_spec (competition_name file) name) as [Heq|Hne];
             [|assumption].
           exfalso. apply Hno. eexists. exists file, body. apply Nat.eqb_neq in Hn.
           repeat split; auto. now left.
        -- intros (e' & H'). apply Hno. exists e'. now apply Hcons.
Qed.

Lemma fold_load_file_count files : forall st,
  List.NoDup (map competition_name files) ->
  (forall file, In file files -> st.1 !! competition_name file = None) ->
  (size (fold_left (load_file f) files st).1
   + length (fold_left (load_file f) files st).2
   = size st.1 + length st.2 + length files)%nat.
Proof.
  induction files as [|file files IH]; intros st Hnd Hfresh; simpl; [lia|].
  apply List.NoDup_cons_iff in Hnd as [Hnin Hnd].
  rewrite IH; [|assumption|].
  - destruct st as [m out]. unfold load_file.
    destruct (read_csv file) as [[| |body]|]; simpl; rewrite ?length_app; simpl; try lia.
    destruct (n_rows (clean f body) =? 0)%nat; simpl; rewrite ?length_app; simpl; try lia.
    rewrite map_size_insert_None; [lia|]. apply (Hfresh file). now left.
  - intros fl Hin. rewrite load_file_lookup.
    assert (Hne : String.eqb (competition_name file) (competition_name fl) = false).
    { apply String.eqb_neq. intros Heq. apply Hnin. rewrite Heq. now apply in_map. }
    rewrite Hne.
    assert (Hst : st.1 !! competition_name fl = None) by (apply Hfresh; now right).
    destruct (read_csv file) as [[| |body]|]; try assumption.
    now destruct (n_rows (clean f body) =? 0)%nat.
Qed.

End LoaderFolder.

(** X8: over a folder, whose files have distinct names, the loaded map
    holds under a name exactly the cleaned table of the file of that name
    when the file has both columns and a surviving row, with the number of
    surviving rows as its team count; every other file leaves no entry. *)
Theorem load_leaderboards_lookup (f : string -> option pyfloat) (csv_files : list csv_file)
    (name : string) (e : entry) :
  List.NoDup (map competition_name csv_files) ->
  ((load_leaderboards f csv_files).1 !! name = Some e <-> loaded_from f csv_files name e).
Proof.
  intros Hnd. unfold load_leaderboards. rewrite (fold_load_file_lookup f _ _ _ _ Hnd). simpl.
  rewrite lookup_empty. split; [|now left].
  intros [H|[H _]]; [assumption|discriminate].
Qed.

(** X9: every file of the folder is accounted for once: it either becomes
    an entry of the loaded map or leaves one warning or error line. *)
Theorem load_leaderboards_accounts (f : string -> option pyfloat) (csv_files : list csv_file) :
  List.NoDup (map competition_name csv_files) ->
  (size (load_leaderboards f csv_files).1 + length (load_leaderboards f csv_files).2
   = length csv_files)%nat.
Proof.
  intros Hnd. unfold load_leaderboards.
  rewrite fold_load_file_count; [simpl; rewrite map_size_empty; lia|assumption|].
  intros file _. apply lookup_empty.
Qed.

Lemma load_leaderboards_lookup_witness :
  (load_leaderboards FloatParse.py_float [empty_file; unreadable_file; leaderboard_20_file]).1
    !! "2024-05-01" = Some {| df := leaderboard_20; total_teams := 20 |}
  <-> loaded_from FloatParse.py_float [empty_file; unreadable_file; leaderboard_20_file]
        "2024-05-01" {| df := leaderboard_20; total_teams := 20 |}.
Proof.
  apply load_leaderboards_lookup. simpl. repeat constructor; simpl; intuition discriminate.
Defined.

Lemma load_leaderboards_accounts_witness :
  (size (load_leaderboards FloatParse.py_float
           [empty_file; unreadable_file; leaderboard_20_file]).1
   + length (load_leaderboards FloatParse.py_float
               [empty_file; unreadable_file; leaderboard_20_file]).2
   = 3)%nat.
Proof.
  apply (load_leaderboards_accounts FloatParse.py_float
           [empty_file; unreadable_file; leaderboard_20_file]).
  simpl. repeat constructor; simpl; intuition discriminate.
Defined.

(** ** The sweep: when it raises, what it writes, what it prints *)

(** X10: on a sheet read by pandas the sweep raises (the IndexError of
    [row.iloc[4]], which nothing catches) exactly when the sheet has fewer
    than five columns and at least one data row; otherwise it returns. *)
Theorem sweep_raises_iff (sheet : Sheet) (leaderboards : gmap string entry)
    (out : list event) :
  rectangular sheet ->
  (sweep sheet leaderboards out = None
   <-> (n_columns sheet < 5)%nat /\ (2 < length (cells sheet))%nat).
Proof.
  intros Hrect. split.
  - intros H.
    destruct (Nat.lt_ge_cases (n_columns sheet) 5) as [Hc|Hc],
             (Nat.lt_ge_cases 2 (length (cells sheet))) as [Hr|Hr]; [auto| | |].
    all: assert (Hcols : (5 <= n_columns sheet)%nat \/ (length (cells sheet) <= 2)%nat) by lia.
    all: destruct (sweep_swept sheet leaderboards Hrect Hcols out) as (st' & Hst' & _).
    all: congruence.
  - intros [Hc Hr]. now apply sweep_without_competition_column.
Qed.

Lemma sweep_raises_iff_witness :
  sweep narrow_sheet example_leaderboards [] = None
  <-> (n_columns narrow_sheet < 5)%nat /\ (2 < length (cells narrow_sheet))%nat.
Proof.
  apply sweep_raises_iff. unfold rectangular. simpl. repeat constructor.
Defined.

Lemma calculate_percentile_clamped our_score d total p :
  calculate_percentile our_score d total = Some p -> 1 <= p <= 100.
Proof.
  unfold calculate_percentile.
  destruct (length (dropna (Score d)) =? 0)%nat; [discriminate|].
  destruct (Float.py_round _); [|discriminate].
  intros H. injection H as <-. lia.
Qed.

(** X11: the sweep never writes anything but a whole number from 1 to
    100: each cell of the returned table holds its input value or such a
    number. *)
Theorem sweep_writes_percentiles (sheet : Sheet) (leaderboards : gmap string entry)
    (out : list event) (st' : sweep_state) :
  rectangular sheet ->
  sweep sheet leaderboards out = Some st' ->
  forall i j c,
    cell_at (cells sheet) i j = Some c ->
    cell_at (result_df st') i j = Some c
    \/ exists p, 1 <= p <= 100 /\ cell_at (result_df st') i j = Some (CellInt p).
Proof.
  intros Hrect Hst i j c Hc.
  assert (Hcols : (5 <= n_columns sheet)%nat \/ (length (cells sheet) <= 2)%nat).
  { destruct (Nat.lt_ge_cases (n_columns sheet) 5) as [Hc5|Hc5]; [|now left].
    destruct (Nat.lt_ge_cases 2 (length (cells sheet))) as [Hr|Hr]; [|now right].
    rewrite (sweep_without_competition_column sheet leaderboards out Hrect Hc5 Hr) in Hst.
    discriminate. }
  destruct (sweep_swept sheet leaderboards Hrect Hcols out) as (st1 & Hst1 & _ & Hcells).
  assert (st1 = st') as -> by congruence.
  specialize (Hcells i j c Hc). simpl in Hcells.
  destruct (expected_cell_cases sheet leaderboards i j c)
    as [E|(comp & lb & score & p & _ & _ & _ & _ & _ & _ & Hcalc & E)];
    rewrite E in Hcells.
  - now left.
  - right. exists p. split; [|assumption].
    eapply calculate_percentile_clamped; eassumption.
Qed.

Lemma sweep_writes_percentiles_witness :
  exists st',
    sweep example_sheet example_leaderboards [] = Some st'
    /\ (cell_at (result_df st') 2 11 = Some (CellStr "0.92")
        \/ exists p, 1 <= p <= 100 /\ cell_at (result_df st') 2 11 = Some (CellInt p)).
Proof.
  eexists. split; [vm_compute; reflexivity|].
  apply (sweep_writes_percentiles example_sheet example_leaderboards []).
  - apply example_sheet_rectangular.
  - vm_compute. reflexivity.
  - reflexivity.
Defined.

(** *** An empty folder *)

Lemma process_row_no_leaderboards sheet st idx :
  rectangular sheet ->
  (5 <= n_columns sheet)%nat -> (idx < length (cells sheet))%nat ->
  process_row sheet ∅ st idx
  = Some {| result_df := result_df st; updates_count := updates_count st;
            console := console st ++ row_warning sheet idx |}.
Proof.
  intros Hrect Hcols Hidx. unfold process_row, row_warning, cell_at.
  destruct (cells sheet !! idx) as [row|] eqn:Hrow.
  2:{ apply lookup_ge_None in Hrow. lia. }
  assert (Hlen := row_length sheet Hrect _ _ Hrow).
  destruct (row !! 4%nat) as [comp|] eqn:Hcomp.
  2:{ apply lookup_ge_None in Hcomp. lia. }
  destruct (isna comp).
  - rewrite app_nil_r. now destruct st.
  - now rewrite lookup_empty.
Qed.

Lemma process_rows_no_leaderboards sheet n : forall b st,
  rectangular sheet ->
  (5 <= n_columns sheet)%nat -> (b + n <= length (cells sheet))%nat ->
  process_rows sheet ∅ (seq b n) st
  = Some {| result_df := result_df st; updates_count := updates_count st;
            console := console st ++ flat_map (row_warning sheet) (seq b n) |}.
Proof.
  induction n as [|n IH]; intros b st Hrect Hcols Hn; simpl.
  - rewrite app_nil_r. now destruct st.
  - rewrite process_row_no_leaderboards by (assumption || lia).
    rewrite IH by (assumption || lia). simpl. now rewrite app_assoc.
Qed.

(** X12: with no leaderboard file in the folder the conversion returns
    the sheet as it was read, counts no update and prints one not-found
    warning for each data row that names a competition, in row order. *)
Theorem convert_without_leaderboards (to_numeric_text : string -> option pyfloat)
    (sheet : Sheet) :
  rectangular sheet ->
  (5 <= n_columns sheet)%nat \/ (length (cells sheet) <= 2)%nat ->
  convert_scores_to_percentiles to_numeric_text sheet []
  = Some {| result_df := cells sheet; updates_count := 0;
            console := flat_map (row_warning sheet) (data_rows sheet) |}.
Proof.
  intros Hrect Hcols. unfold convert_scores_to_percentiles, load_leaderboards, sweep. simpl.
  unfold data_rows.
  destruct (Nat.le_gt_cases (length (cells sheet)) 2) as [Hr|Hr].
  - replace (length (cells sheet) - 2)%nat with 0%nat by lia. reflexivity.
  - rewrite process_rows_no_leaderboards by (assumption || lia). reflexivity.
Qed.

Lemma convert_without_leaderboards_witness :
  convert_scores_to_percentiles FloatParse.py_float example_sheet []
  = Some {| result_df := cells example_sheet; updates_count := 0;
            console := [WarnLeaderboardNotFound "2024-05-01";
                        WarnLeaderboardNotFound "missing";
                        WarnLeaderboardNotFound "missing"] |}.
Proof.
  apply (convert_without_leaderboards FloatParse.py_float example_sheet).
  - apply example_sheet_rectangular.
  - left. simpl. lia.
Defined.

(** *** Skipped-value lines *)

Lemma skipped_lines_app out e :
  skipped_lines (out ++ [e]) = skipped_lines out ++ (if is_skipped e then [e] else []).
Proof.
  unfold skipped_lines. rewrite List.filter_app. simpl. now destruct (is_skipped e).
Qed.

Lemma process_columns_skipped sheet row lb idx cols : forall st st',
  (5 <= updates_count st)%nat ->
  process_columns sheet row lb idx cols st = Some st' ->
  (5 <= updates_count st')%nat
  /\ skipped_lines (console st') = skipped_lines (console st).
Proof.
  induction cols as [|col cols IH]; intros st st' H5 H; simpl in H.
  - injection H as <-. auto.
  - destruct (n_columns sheet <=? col)%nat; [injection H as <-; auto|].
    destruct (row !! col) as [c|]; [|discriminate].
    destruct (parse_score_value c) as [score|].
    + destruct (calculate_percentile score (df lb) (total_teams lb)).
      * apply IH in H; simpl in *; [assumption|lia].
      * apply IH in H; simpl in *; [|lia].
        rewrite skipped_lines_app, app_nil_r in H. assumption.
    + destruct (Nat.ltb_spec (updates_count st) 5); [lia|]. cbn [andb] in H.
      apply IH in H; simpl in *; [assumption|lia].
Qed.

Lemma process_row_skipped sheet leaderboards idx st st' :
  (5 <= updates_count st)%nat ->
  process_row sheet leaderboards st idx = Some st' ->
  (5 <= updates_count st')%nat
  /\ skipped_lines (console st') = skipped_lines (console st).
Proof.
  intros H5. unfold process_row.
  destruct (cells sheet !! idx) as [row|]; [|discriminate].
  destruct (row !! 4%nat) as [comp|]; [|discriminate].
  destruct (isna comp).
  - intros H. injection H as <-. auto.
  - destruct (leaderboards !! competition_str comp) as [lb|].
    + now apply process_columns_skipped.
    + intros H. injection H as <-. simpl. split; [assumption|].
      now rewrite skipped_lines_app, app_nil_r.
Qed.

(** X13: the skipped-value lines depend on the update counter, not on how
    many of them were printed: once five cells have been converted, the
    rest of the sweep prints no further skipped-value line. *)
Theorem skipped_lines_stop (sheet : Sheet) (leaderboards : gmap string entry)
    (idxs : list nat) (st st' : sweep_state) :
  (5 <= updates_count st)%nat ->
  process_rows sheet leaderboards idxs st = Some st' ->
  skipped_lines (console st') = skipped_lines (console st).
Proof.
  revert st. induction idxs as [|idx idxs IH]; intros st H5 H; simpl in H.
  - now injection H as <-.
  - destruct (process_row sheet leaderboards st idx) as [st1|] eqn:H1; [|discriminate].
    destruct (process_row_skipped _ _ _ _ _ H5 H1) as [H5' <-].
    now apply IH.
Qed.

Lemma skipped_lines_stop_witness :
  exists st',
    process_rows example_sheet example_leaderboards (data_rows example_sheet)
      after_five_updates = Some st'
    /\ skipped_lines (console st') = skipped_lines (console after_five_updates).
Proof.
  eexists. split; [vm_compute; reflexivity|].
  apply (skipped_lines_stop example_sheet example_leaderboards (data_rows example_sheet)
           after_five_updates).
  - simpl. lia.
  - vm_compute. reflexivity.
Defined.

(** ** From the folder to the cell *)



(** ** Summary statistics of a group *)

Section SortedArray.
Import NumPy.

Lemma insert_finite a : forall qs,
  StronglySorted Qle qs ->
  exists qs', insert (Finite a) (map Finite qs) = map Finite qs'
              /\ Permutation (a :: qs) qs' /\ StronglySorted Qle qs'.
Proof.
  induction qs as [|b qs IH]; intros Hs; simpl.
  - exists [a]. repeat split; auto. repeat constructor.
  - unfold sort_le. cbn [Float.isnan orb].
    destruct (Float.le (Finite a) (Finite b)) eqn:E.
    + apply le_Finite in E. exists (a :: b :: qs). repeat split; auto.
      constructor; [assumption|]. constructor; [assumption|].
      apply StronglySorted_inv in Hs as [_ Hb].
      eapply List.Forall_impl; [|exact Hb]. intros c Hc. lra.
    + assert (Hba : (b <= a)%Q).
      { destruct (Qlt_le_dec a b) as [H|H]; [|assumption].
        apply Qlt_le_weak, le_Finite in H. congruence. }
      apply StronglySorted_inv in Hs as [Hs Hb].
      destruct (IH Hs) as (qs' & -> & Hp & Hs').
      exists (b :: qs'). repeat split.
      * rewrite perm_swap. now constructor.
      * constructor; [assumption|].
        eapply Permutation_Forall; [exact Hp|]. now constructor.
Qed.

Lemma sort_finite : forall qs,
  exists qs', sort (map Finite qs) = map Finite qs'
              /\ Permutation qs qs' /\ StronglySorted Qle qs'.
Proof.
  induction qs as [|a qs IH]; simpl.
  - exists []. repeat split; auto. constructor.
  - destruct IH as (qs1 & -> & Hp & Hs).
    destruct (insert_finite a qs1 Hs) as (qs' & -> & Hp' & Hs').
    exists qs'. repeat split; auto.
    rewrite <- Hp'. now constructor.
Qed.

Lemma sorted_nth (l : list Q) : StronglySorted Qle l ->
  forall i j, (i <= j < length l)%nat -> (nth i l 0 <= nth j l 0)%Q.
Proof.
  induction 1 as [|a l Hs IH Ha]; intros i j Hij; simpl in *; [lia|].
  destruct i as [|i], j as [|j]; try lia.
  - lra.
  - rewrite List.Forall_forall in Ha. apply Ha, nth_In. lia.
  - apply IH. lia.
Qed.

Lemma item_finite (l : list Q) i :
  (i < length l)%nat -> item (map Finite l) i = Finite (nth i l 0%Q).
Proof.
  intros H. unfold item.
  rewrite (nth_indep _ NaN (Finite 0)) by (rewrite length_map; lia).
  apply (map_nth Finite).
Qed.

Lemma last_item_finite (l : list Q) :
  l <> [] -> last_item (map Finite l) = Finite (nth (length l - 1) l 0%Q).
Proof.
  intros Hne. unfold last_item.
  destruct (exists_last Hne) as (l' & a & ->).
  rewrite List.map_app. cbn [map]. rewrite last_last, length_app. simpl.
  replace (length l' + 1 - 1)%nat with (length l') by lia.
  now rewrite nth_middle.
Qed.

Lemma lerp_finite a b t :
  exists r, lerp (Finite a) (Finite b) t = Finite r /\ (r == a + (b - a) * t)%Q.
Proof.
  unfold lerp. destruct (Qle_bool (1 # 2) t); simpl; eexists; (split; [reflexivity|]); ring.
Qed.
End SortedArray.

Section Interpolation.
Import NumPy.

Lemma interpolates_within (s : list Q) (v r lo hi : Q) :
  Forall (fun q => (lo <= q <= hi)%Q) s ->
  interpolates s v r -> (lo <= r <= hi)%Q.
Proof.
  intros Hs (i & g & Hi & Hg0 & Hg1 & _ & Hr).
  rewrite List.Forall_forall in Hs.
  assert (Ha : (lo <= nth i s 0 <= hi)%Q) by (apply Hs, nth_In; lia).
  assert (Hb : (lo <= nth (Nat.min (i + 1) (length s - 1)) s 0 <= hi)%Q)
    by (apply Hs, nth_In; lia).
  set (b := nth (Nat.min (i + 1) (length s - 1)) s 0%Q) in *. set (a := nth i s 0%Q) in *.
  assert (H1 : (0 <= (1 - g) * (a - lo))%Q) by (apply Qmult_le_0_compat; lra).
  assert (H2 : (0 <= g * (b - lo))%Q) by (apply Qmult_le_0_compat; lra).
  assert (H3 : (0 <= (1 - g) * (hi - a))%Q) by (apply Qmult_le_0_compat; lra).
  assert (H4 : (0 <= g * (hi - b))%Q) by (apply Qmult_le_0_compat; lra).
  split.
  - assert (E : (r == lo + ((1 - g) * (a - lo) + g * (b - lo)))%Q)
      by (rewrite Hr; ring).
    rewrite E. lra.
  - assert (E : (r == hi - ((1 - g) * (hi - a) + g * (hi - b)))%Q)
      by (rewrite Hr; ring).
    rewrite E. lra.
Qed.

Lemma interpolates_mono (s : list Q) (v w r r' : Q) :
  StronglySorted Qle s ->
  interpolates s v r -> interpolates s w r' -> (v <= w)%Q -> (r <= r')%Q.
Proof.
  intros Hs (i & g & Hi & Hg0 & Hg1 & Hv & Hr) (j & h & Hj & Hh0 & Hh1 & Hw & Hr') Hvw.
  assert (Hij : (i <= j)%nat).
  { destruct (Nat.le_gt_cases i j) as [H|H]; [assumption|exfalso].
    assert (inject_Z (Z.of_nat j) + 1 <= inject_Z (Z.of_nat i))%Q.
    { change 1%Q with (inject_Z 1). rewrite <- inject_Z_plus, <- Zle_Qle. lia. }
    lra. }
  assert (Hi' : (nth i s 0 <= nth (Nat.min (i + 1) (length s - 1)) s 0)%Q)
    by (apply sorted_nth; [assumption|lia]).
  assert (Hj' : (nth j s 0 <= nth (Nat.min (j + 1) (length s - 1)) s 0)%Q)
    by (apply sorted_nth; [assumption|lia]).
  destruct (Nat.eq_dec i j) as [<-|Hne].
  - assert (Hgh : (g <= h)%Q) by lra.
    set (b := nth (Nat.min (i + 1) (length s - 1)) s 0%Q) in *. set (a := nth i s 0%Q) in *.
    assert (H1 : (0 <= (b - a) * (h - g))%Q) by (apply Qmult_le_0_compat; lra).
    assert (E : (r' == r + (b - a) * (h - g))%Q)
      by (rewrite Hr, Hr'; ring).
    rewrite E. lra.
  - assert (Hmid : (nth (Nat.min (i + 1) (length s - 1)) s 0 <= nth j s 0)%Q)
      by (apply sorted_nth; [assumption|lia]).
    set (b := nth (Nat.min (i + 1) (length s - 1)) s 0%Q) in *.
    set (d := nth (Nat.min (j + 1) (length s - 1)) s 0%Q) in *.
    set (a := nth i s 0%Q) in *. set (c := nth j s 0%Q) in *.
    assert (H1 : (0 <= (b - a) * (1 - g))%Q) by (apply Qmult_le_0_compat; lra).
    assert (H2 : (0 <= (d - c) * h)%Q) by (apply Qmult_le_0_compat; lra).
    assert (E : (r == b - (b - a) * (1 - g))%Q) by (rewrite Hr; ring). rewrite E.
    rewrite Hr'. lra.
Qed.
End Interpolation.

Section Quantiles.
Import NumPy.

Lemma percentile_interpolates (qs s : list Q) (q : Q) :
  sort (map Finite qs) = map Finite s -> length s = length qs -> qs <> [] ->
  (0 <= q <= 100)%Q ->
  exists r, percentile (map Finite qs) q = Finite r
            /\ interpolates s (inject_Z (Z.of_nat (length qs) - 1) * (q / 100)) r.
Proof.
  intros Hsort Hlen Hne Hq. unfold percentile. rewrite Hsort, length_map.
  assert (Hs : s <> []) by (destruct s, qs; simpl in *; congruence).
  assert (Hn : (1 <= length qs)%nat) by (destruct qs; simpl; [congruence|lia]).
  rewrite (last_item_finite s Hs). cbn [Float.isnan].
  set (k := inject_Z (Z.of_nat (length qs) - 1)).
  assert (Hk : (0 <= k)%Q).
  { unfold k. change 0%Q with (inject_Z 0). rewrite <- Zle_Qle. lia. }
  assert (Ht : (0 <= q / 100 <= 1)%Q).
  { unfold Qdiv. change (/ 100)%Q with (1 # 100)%Q. lra. }
  set (t := (q / 100)%Q) in *.
  set (v := (k * t)%Q).
  assert (Hv : (0 <= v <= k)%Q).
  { unfold v. split.
    - apply Qmult_le_0_compat; [assumption|lra].
    - assert (0 <= k * (1 - t))%Q by (apply Qmult_le_0_compat; lra).
      assert (E : (k * t == k - k * (1 - t))%Q) by ring.
      rewrite E. lra. }
  destruct (Qle_bool k v) eqn:Habove.
  - apply Qle_bool_iff in Habove.
    destruct (lerp_finite (nth (length s - 1) s 0%Q) (nth (length s - 1) s 0%Q)
                (v - inject_Z (-1))) as (r & -> & Hr).
    exists r. split; [reflexivity|].
    exists (length s - 1)%nat, 0%Q. repeat split; try lra; try lia.
    rewrite Hlen, Nat2Z.inj_sub by lia. change (Z.of_nat 1) with 1. fold k. lra.
  - assert (Hvk : (v < k)%Q).
    { apply Qnot_le_lt. intros H. apply Qle_bool_iff in H. congruence. }
    assert (Hf0 : 0 <= Qfloor v).
    { rewrite <- (Qfloor_Z 0). apply Qfloor_resp_le. apply Hv. }
    assert (Hf1 : Qfloor v + 1 <= Z.of_nat (length qs) - 1).
    { assert (H : (inject_Z (Qfloor v) < k)%Q)
        by (eapply Qle_lt_trans; [apply Qfloor_le|assumption]).
      unfold k in H. rewrite <- Zlt_Qlt in H. lia. }
    rewrite !item_finite by lia.
    destruct (lerp_finite (nth (Z.to_nat (Qfloor v)) s 0%Q)
                (nth (Z.to_nat (Qfloor v + 1)) s 0%Q) (v - inject_Z (Qfloor v)))
      as (r & -> & Hr).
    exists r. split; [reflexivity|].
    exists (Z.to_nat (Qfloor v)), (v - inject_Z (Qfloor v))%Q.
    assert (Hlo := Qfloor_le v). assert (Hhi := Qlt_floor v).
    rewrite inject_Z_plus in Hhi. change (inject_Z 1) with 1%Q in Hhi.
    rewrite Z2Nat.id by assumption.
    repeat split; try lra; try lia.
    replace (Nat.min (Z.to_nat (Qfloor v) + 1) (length s - 1))
      with (Z.to_nat (Qfloor v + 1)) by lia.
    exact Hr.
Qed.

Lemma skipn_item (l : list Q) : forall i,
  (i < length l)%nat -> skipn i l = nth i l 0%Q :: skipn (S i) l.
Proof.
  induction l as [|a l IH]; intros [|i] H; simpl in *; try lia; try reflexivity.
  apply IH. lia.
Qed.

Lemma median_interpolates (qs s : list Q) :
  sort (map Finite qs) = map Finite s -> length s = length qs -> qs <> [] ->
  exists m, median (map Finite qs) = Finite m
            /\ interpolates s (inject_Z (Z.of_nat (length qs) - 1) * (50 / 100)) m.
Proof.
  intros Hsort Hlen Hne. unfold median. rewrite Hsort, length_map.
  assert (Hs : s <> []) by (destruct s, qs; simpl in *; congruence).
  assert (Hn : (1 <= length qs)%nat) by (destruct qs; simpl; [congruence|lia]).
  rewrite (last_item_finite s Hs). cbn [Float.isnan].
  assert (Hdiv := Nat.div2_odd (length qs)). rewrite Nat.div2_div in Hdiv.
  rewrite <- Hlen in *. set (n := length s) in *. set (j := (n / 2)%nat) in *.
  rewrite !List.skipn_map.
  destruct (Nat.odd n); simpl Nat.b2n in Hdiv.
  - rewrite (skipn_item s j) by lia. cbn [map firstn]. rewrite firstn_O.
    unfold mean, sum. cbn [fold_left Float.add Float.div_count length].
    eexists. split; [reflexivity|].
    exists j, 0%Q. repeat split; try lra; try lia.
    + replace (Z.of_nat n - 1) with (2 * Z.of_nat j) by lia.
      rewrite inject_Z_mult. change (inject_Z 2) with 2%Q. field.
    + field.
  - rewrite (skipn_item s (j - 1)) by lia. rewrite (skipn_item s (S (j - 1))) by lia.
    cbn [map firstn]. rewrite firstn_O. unfold mean, sum.
    cbn [fold_left Float.add Float.div_count length].
    eexists. split; [reflexivity|].
    exists (j - 1)%nat, (1 # 2)%Q. repeat split; try lra; try lia.
    + replace (Z.of_nat n - 1) with (2 * Z.of_nat (j - 1) + 1) by lia.
      rewrite inject_Z_plus, inject_Z_mult. change (inject_Z 2) with 2%Q.
      change (inject_Z 1) with 1%Q. field.
    + replace (Nat.min (j - 1 + 1) (length s - 1)) with (S (j - 1)) by lia.
      change (inject_Z (Z.of_nat 2)) with 2%Q. field.
Qed.
End Quantiles.

Lemma finite_values_map (x : list pyfloat) :
  finite_values x -> exists qs, x = map Finite qs.
Proof.
  induction 1 as [|v x Hv _ (qs & ->)].
  - now exists [].
  - destruct v as [q| |]; try discriminate. now exists (q :: qs).
Qed.

Lemma values_within_map (lo hi : Q) (x : list pyfloat) :
  values_within lo hi x ->
  exists qs, x = map Finite qs /\ Forall (fun q => (lo <= q <= hi)%Q) qs.
Proof.
  induction 1 as [|v x (q & -> & Hq) _ (qs & -> & Hqs)].
  - exists []. now split.
  - exists (q :: qs). split; [reflexivity|now constructor].
Qed.

(** The three quantiles of a group of finite values, as positions on the
    line through the sorted values. *)
Lemma agg_stats_interpolates (qs : list Q) :
  qs <> [] ->
  exists s q1 m q3,
    Permutation qs s /\ StronglySorted Qle s
    /\ Stats.q1 (agg_stats (map Finite qs)) = Finite q1
    /\ Stats.median (agg_stats (map Finite qs)) = Finite m
    /\ Stats.q3 (agg_stats (map Finite qs)) = Finite q3
    /\ Stats.iqr (agg_stats (map Finite qs)) = Finite (q3 + - q1)
    /\ interpolates s (inject_Z (Z.of_nat (length qs) - 1) * (25 / 100)) q1
    /\ interpolates s (inject_Z (Z.of_nat (length qs) - 1) * (50 / 100)) m
    /\ interpolates s (inject_Z (Z.of_nat (length qs) - 1) * (75 / 100)) q3.
Proof.
  intros Hne. destruct (sort_finite qs) as (s & Hsort & Hp & Hs).
  assert (Hlen : length s = length qs) by (symmetry; now apply Permutation_length).
  destruct (percentile_interpolates qs s 25 Hsort Hlen Hne) as (q1 & E1 & H1); [lra|].
  destruct (percentile_interpolates qs s 75 Hsort Hlen Hne) as (q3 & E3 & H3); [lra|].
  destruct (median_interpolates qs s Hsort Hlen Hne) as (m & Em & Hm).
  exists s, q1, m, q3. unfold agg_stats. cbn [Stats.q1 Stats.median Stats.q3 Stats.iqr].
  rewrite E1, E3, Em. repeat split; auto.
Qed.

Lemma quantile_positions (k : Q) :
  (0 <= k)%Q -> (k * (25 / 100) <= k * (50 / 100) /\ k * (50 / 100) <= k * (75 / 100))%Q.
Proof.
  intros Hk. unfold Qdiv. change (/ 100)%Q with (1 # 100)%Q. lra.
Qed.

(** In exact arithmetic the statistics of a non-empty group of finite
    values are ordered. *)
Lemma quartiles_ordered (x : list pyfloat) :
  x <> [] -> finite_values x ->
  exists q1 m q3,
    Stats.q1 (agg_stats x) = Finite q1
    /\ Stats.median (agg_stats x) = Finite m
    /\ Stats.q3 (agg_stats x) = Finite q3
    /\ Stats.iqr (agg_stats x) = Finite (q3 + - q1)
    /\ (q1 <= m)%Q /\ (m <= q3)%Q /\ (0 <= q3 + - q1)%Q.
Proof.
  intros Hne Hx. destruct (finite_values_map x Hx) as (qs & ->).
  assert (Hqs : qs <> []) by (destruct qs; [contradiction|discriminate]).
  destruct (agg_stats_interpolates qs Hqs)
    as (s & q1 & m & q3 & Hp & Hs & E1 & Em & E3 & Ed & H1 & Hm & H3).
  assert (Hk : (0 <= inject_Z (Z.of_nat (length qs) - 1))%Q).
  { change 0%Q with (inject_Z 0). rewrite <- Zle_Qle. destruct qs; simpl; [congruence|lia]. }
  destruct (quantile_positions _ Hk) as [Hv1 Hv2].
  assert (Hq1 := interpolates_mono s _ _ _ _ Hs H1 Hm Hv1).
  assert (Hq3 := interpolates_mono s _ _ _ _ Hs Hm H3 Hv2).
  exists q1, m, q3. repeat split; auto. lra.
Qed.

(** In exact arithmetic they lie in every range that holds the values. *)
Lemma quartiles_within (lo hi : Q) (x : list pyfloat) :
  x <> [] -> values_within lo hi x ->
  exists q1 m q3,
    Stats.q1 (agg_stats x) = Finite q1
    /\ Stats.median (agg_stats x) = Finite m
    /\ Stats.q3 (agg_stats x) = Finite q3
    /\ Stats.iqr (agg_stats x) = Finite (q3 + - q1)
    /\ (lo <= q1 <= hi)%Q /\ (lo <= m <= hi)%Q /\ (lo <= q3 <= hi)%Q
    /\ (q3 + - q1 <= hi - lo)%Q.
Proof.
  intros Hne Hx. destruct (values_within_map lo hi x Hx) as (qs & -> & Hin).
  assert (Hqs : qs <> []) by (destruct qs; [contradiction|discriminate]).
  destruct (agg_stats_interpolates qs Hqs)
    as (s & q1 & m & q3 & Hp & Hs & E1 & Em & E3 & Ed & H1 & Hm & H3).
  assert (Hin' : Forall (fun q => (lo <= q <= hi)%Q) s)
    by (eapply Permutation_Forall; eassumption).
  assert (Hq1 := interpolates_within s _ _ lo hi Hin' H1).
  assert (Hqm := interpolates_within s _ _ lo hi Hin' Hm).
  assert (Hq3 := interpolates_within s _ _ lo hi Hin' H3).
  exists q1, m, q3. repeat split; auto; lra.
Qed.

(** *** The two fractions *)



Lemma count_length_pos (x : list pyfloat) :
  x <> [] -> (0 < inject_Z (Z.of_nat (length x)))%Q.
Proof.
  intros Hne. change 0%Q with (inject_Z 0). rewrite <- Zlt_Qlt.
  destruct x; [contradiction|simpl; lia].
Qed.


Lemma mean_bool_all (p : pyfloat -> bool) (x : list pyfloat) :
  x <> [] -> (forall v, In v x -> p v = true) ->
  exists a, NumPy.mean_bool p x = Finite a /\ (a == 1)%Q.
Proof.
  intros Hne Hp. assert (Hn := count_length_pos x Hne).
  unfold NumPy.mean_bool. destruct x as [|v x]; [contradiction|].
  eexists. split; [reflexivity|]. rewrite (count_all p _ Hp). field. lra.
Qed.

Lemma mean_bool_none (p : pyfloat -> bool) (x : list pyfloat) :
  x <> [] -> (forall v, In v x -> p v = false) ->
  exists a, NumPy.mean_bool p x = Finite a /\ (a == 0)%Q.
Proof.
  intros Hne Hp. assert (Hn := count_length_pos x Hne).
  unfold NumPy.mean_bool. destruct x as [|v x]; [contradiction|].
  eexists. split; [reflexivity|]. rewrite (count_none p _ Hp).
  change (inject_Z 0) with 0%Q. field. lra.
Qed.



Lemma written_percentile_value (v : pyfloat) :
  written_percentile v -> exists p, v = Finite (inject_Z p) /\ 1 <= p <= 100.
Proof.
  intros (s & d & t & p & Hp & ->). exists p. split; [reflexivity|].
  eapply calculate_percentile_clamped; eassumption.
Qed.

(** X17: on a group made of percentiles that the first stage wrote
    (whole numbers from 1 to 100) the thresholds 0.90 and 0.50 separate
    nothing: top10_frac is 1 and below50_frac is 0, while the median and
    the quartiles lie between 1 and 100. *)
Theorem agg_stats_of_percentiles (x : list pyfloat) :
  x <> [] -> Forall written_percentile x ->
  exists q1 m q3 top low,
    Stats.q1 (agg_stats x) = Finite q1
    /\ Stats.median (agg_stats x) = Finite m
    /\ Stats.q3 (agg_stats x) = Finite q3
    /\ Stats.top10_frac (agg_stats x) = Finite top
    /\ Stats.below50_frac (agg_stats x) = Finite low
    /\ (1 <= q1 <= 100)%Q /\ (1 <= m <= 100)%Q /\ (1 <= q3 <= 100)%Q
    /\ (top == 1)%Q /\ (low == 0)%Q.
Proof.
  intros Hne Hx.
  assert (Hval : forall v, In v x -> exists p, v = Finite (inject_Z p) /\ 1 <= p <= 100).
  { rewrite List.Forall_forall in Hx. intros v Hv. now apply written_percentile_value, Hx. }
  assert (Hw : values_within 1 100 x).
  { apply List.Forall_forall. intros v Hv. destruct (Hval v Hv) as (p & -> & Hp1).
    exists (inject_Z p). split; [reflexivity|].
    change 1%Q with (inject_Z 1). change 100%Q with (inject_Z 100).
    rewrite <- !Zle_Qle. lia. }
  destruct (values_within_map 1 100 x Hw) as (qs & E & Hin).
  assert (Hqs : qs <> []) by (destruct qs; [subst x; contradiction|discriminate]).
  destruct (agg_stats_interpolates qs Hqs)
    as (s & q1 & m & q3 & Hp & Hs & E1 & Em & E3 & Ed & H1 & Hm & H3).
  assert (Hin' : Forall (fun q => (1 <= q <= 100)%Q) s)
    by (eapply Permutation_Forall; eassumption).
  assert (Hq1 := interpolates_within s _ _ 1 100 Hin' H1).
  assert (Hqm := interpolates_within s _ _ 1 100 Hin' Hm).
  assert (Hq3 := interpolates_within s _ _ 1 100 Hin' H3).
  rewrite <- E in E1, Em, E3. clear E.
  destruct (mean_bool_all (fun v => Float.le (Finite 0.90) v) x Hne) as (top & Et & Htop).
  { intros w Hwin. destruct (Hval w Hwin) as (p & -> & Hp1).
    apply le_Finite.
    assert (1 <= inject_Z p)%Q by (change 1%Q with (inject_Z 1); rewrite <- Zle_Qle; lia).
    lra. }
  destruct (mean_bool_none (fun v => Float.le v (Finite 0.50)) x Hne) as (low & El & Hlow).
  { intros w Hwin. destruct (Hval w Hwin) as (p & -> & Hp1).
    destruct (Float.le (Finite (inject_Z p)) (Finite 0.50)) eqn:El; [|reflexivity].
    apply le_Finite in El.
    assert (1 <= inject_Z p)%Q by (change 1%Q with (inject_Z 1); rewrite <- Zle_Qle; lia).
    lra. }
  exists q1, m, q3, top, low. repeat split; auto; lra.
Qed.

Lemma agg_stats_of_percentiles_witness :
  exists q1 m q3 top low,
    Stats.q1 (agg_stats [Finite (inject_Z 99); Finite (inject_Z 1)]) = Finite q1
    /\ Stats.median (agg_stats [Finite (inject_Z 99); Finite (inject_Z 1)]) = Finite m
    /\ Stats.q3 (agg_stats [Finite (inject_Z 99); Finite (inject_Z 1)]) = Finite q3
    /\ Stats.top10_frac (agg_stats [Finite (inject_Z 99); Finite (inject_Z 1)]) = Finite top
    /\ Stats.below50_frac (agg_stats [Finite (inject_Z 99); Finite (inject_Z 1)]) = Finite low
    /\ (1 <= q1 <= 100)%Q /\ (1 <= m <= 100)%Q /\ (1 <= q3 <= 100)%Q
    /\ (top == 1)%Q /\ (low == 0)%Q.
Proof.
  apply agg_stats_of_percentiles.
  - discriminate.
  - constructor; [|constructor; [|constructor]].
    + exists (Finite 2), leaderboard_20, 20%nat, 99. split; reflexivity.
    + exists (Finite 0), leaderboard_20, 20%nat, 1. split; reflexivity.
Defined.

(** * The percentile calculator in binary64 arithmetic *)

(** ** Powers of two *)

Section PowersOfTwo.

Lemma pow2_pos (e : Z) : (0 < 2 ^ e)%Q.
Proof. apply Qpower_0_lt. reflexivity. Qed.

Lemma pow2_add (a b : Z) : (2 ^ (a + b) == 2 ^ a * 2 ^ b)%Q.
Proof. apply Qpower_plus. discriminate. Qed.

Lemma pow2_sub (a b : Z) : (2 ^ (a - b) == 2 ^ a / 2 ^ b)%Q.
Proof. apply Qpower_minus. discriminate. Qed.

Lemma pow2_inject (k : Z) : 0 <= k -> (inject_Z (2 ^ k) == 2 ^ k)%Q.
Proof. intros H. now apply (Zpower_Qpower 2 k). Qed.

Lemma pow2_le (a b : Z) : a <= b -> (2 ^ a <= 2 ^ b)%Q.
Proof. intros H. apply Qpower_le_compat_l; [assumption|]. discriminate. Qed.

Lemma pow2_lt (a b : Z) : a < b -> (2 ^ a < 2 ^ b)%Q.
Proof. intros H. apply Qpower_lt_compat_l; [assumption|]. reflexivity. Qed.

Lemma pow2_le_inv (a b : Z) : (2 ^ a <= 2 ^ b)%Q -> a <= b.
Proof.
  intros H. destruct (Z.le_gt_cases a b) as [Hab|Hab]; [assumption|].
  apply pow2_lt in Hab. lra.
Qed.

Lemma pow2_lt_inv (a b : Z) : (2 ^ a < 2 ^ b)%Q -> a < b.
Proof.
  intros H. destruct (Z.lt_ge_cases a b) as [Hab|Hab]; [assumption|].
  apply pow2_le in Hab. lra.
Qed.
End PowersOfTwo.

(** ** Rounding to binary64 *)

Section Rounding.
Import Binary64.

Lemma Qabs_Qmake (q : Q) :
  (Qabs q == inject_Z (Z.abs (Qnum q)) / inject_Z (Z.pos (Qden q)))%Q.
Proof. destruct q as [n d]. cbn [Qabs Qnum Qden]. apply Qmake_Qdiv. Qed.

Lemma log2_bounds (a : Z) :
  0 < a -> (2 ^ Z.log2 a <= inject_Z a)%Q /\ (inject_Z a < 2 ^ (Z.log2 a + 1))%Q.
Proof.
  intros Ha. destruct (Z.log2_spec a Ha) as [Hl Hu].
  assert (H0 := Z.log2_nonneg a).
  rewrite <- !pow2_inject by lia. rewrite <- Zle_Qle, <- Zlt_Qlt.
  split; [assumption|]. now rewrite Z.add_1_r.
Qed.

Lemma ilog2_spec (q : Q) :
  ~ (q == 0)%Q -> (2 ^ ilog2 q <= Qabs q)%Q /\ (Qabs q < 2 ^ (ilog2 q + 1))%Q.
Proof.
  intros Hq. unfold ilog2.
  assert (Hn : 0 < Z.abs (Qnum q)).
  { destruct q as [n d]. cbn [Qnum]. unfold Qeq in Hq. cbn in Hq. lia. }
  destruct (log2_bounds _ Hn) as [Hnl Hnu].
  destruct (log2_bounds (Z.pos (Qden q)) ltac:(lia)) as [Hdl Hdu].
  set (ln := Z.log2 (Z.abs (Qnum q))) in *. set (ld := Z.log2 (Z.pos (Qden q))) in *.
  assert (HD : (0 < inject_Z (Z.pos (Qden q)))%Q)
    by (change 0%Q with (inject_Z 0); rewrite <- Zlt_Qlt; lia).
  assert (Hup : (Qabs q < 2 ^ (ln - ld + 1))%Q).
  { rewrite Qabs_Qmake. apply Qlt_shift_div_r; [assumption|].
    replace (ln - ld + 1) with ((ln + 1) - ld) by lia. rewrite pow2_sub.
    eapply Qlt_le_trans; [exact Hnu|].
    assert (Hp := pow2_pos ld). assert (Hp' := pow2_pos (ln + 1)).
    assert (E : (2 ^ (ln + 1) / 2 ^ ld * inject_Z (Z.pos (Qden q))
                 == 2 ^ (ln + 1) * (inject_Z (Z.pos (Qden q)) / 2 ^ ld))%Q) by (field; lra).
    rewrite E. rewrite <- (Qmult_1_r (2 ^ (ln + 1))) at 1.
    apply Qmult_le_l; [assumption|]. apply Qle_shift_div_l; [assumption|]. lra. }
  assert (Hlo : (2 ^ (ln - ld - 1) < Qabs q)%Q).
  { rewrite Qabs_Qmake. apply Qlt_shift_div_l; [assumption|].
    replace (ln - ld - 1) with (ln - (ld + 1)) by lia. rewrite pow2_sub.
    eapply Qlt_le_trans; [|exact Hnl].
    assert (Hp := pow2_pos (ld + 1)). assert (Hp' := pow2_pos ln).
    assert (E : (2 ^ ln / 2 ^ (ld + 1) * inject_Z (Z.pos (Qden q))
                 == 2 ^ ln * (inject_Z (Z.pos (Qden q)) / 2 ^ (ld + 1)))%Q) by (field; lra).
    rewrite E. rewrite <- (Qmult_1_r (2 ^ ln)) at 2.
    apply Qmult_lt_l; [assumption|]. apply Qlt_shift_div_r; [assumption|]. lra. }
  destruct (Qle_bool (2 ^ (ln - ld)) (Qabs q)) eqn:E.
  - apply Qle_bool_iff in E. split; assumption.
  - assert (Hlt : (Qabs q < 2 ^ (ln - ld))%Q).
    { apply Qnot_le_lt. intros H. apply Qle_bool_iff in H. congruence. }
    split; [now apply Qlt_le_weak|].
    now replace (ln - ld - 1 + 1) with (ln - ld) by lia.
Qed.

Lemma round_zero (q : Q) : (q == 0)%Q -> round q = Finite 0.
Proof. intros H. unfold round. apply Qeq_bool_iff in H. now rewrite H. Qed.

Lemma round_nonzero (q : Q) :
  ~ (q == 0)%Q ->
  round q
  = let r := Qred (inject_Z (Float.round_half_even (q / 2 ^ ulp_exponent q))
                   * 2 ^ ulp_exponent q) in
    if Qle_bool (2 ^ 1024) (Qabs r) then Infinity (Qnum q <? 0) else Finite r.
Proof.
  intros H. unfold round. destruct (Qeq_bool q 0) eqn:E; [|reflexivity].
  apply Qeq_bool_iff in E. contradiction.
Qed.

(** The mantissa of a number within [-2^j, 2^j]. *)
Lemma mantissa_bounded (q : Q) (g j : Z) :
  g <= j -> (Qabs q <= 2 ^ j)%Q ->
  let m := Float.round_half_even (q / 2 ^ g) in
  - 2 ^ (j - g) <= m <= 2 ^ (j - g)
  /\ ((0 <= q)%Q -> 0 <= m) /\ ((q <= 0)%Q -> m <= 0).
Proof.
  intros Hg Hq m. assert (Hp := pow2_pos g).
  apply Qabs_Qle_condition in Hq as [Hlo Hhi].
  assert (E : (2 ^ j == inject_Z (2 ^ (j - g)) * 2 ^ g)%Q).
  { rewrite pow2_inject by lia. rewrite <- pow2_add. now replace (j - g + g) with j by lia. }
  assert (Hx : (inject_Z (- 2 ^ (j - g)) <= q / 2 ^ g)%Q
               /\ (q / 2 ^ g <= inject_Z (2 ^ (j - g)))%Q).
  { split.
    - apply Qle_shift_div_l; [assumption|]. rewrite inject_Z_opp.
      assert (E' : (- inject_Z (2 ^ (j - g)) * 2 ^ g == - 2 ^ j)%Q) by (rewrite E; ring).
      now rewrite E'.
    - apply Qle_shift_div_r; [assumption|]. now rewrite <- E. }
  destruct Hx as [Hx1 Hx2].
  apply round_half_even_mono in Hx1, Hx2.
  rewrite (round_half_even_Z _ _ (Qeq_refl _)) in Hx1.
  rewrite (round_half_even_Z _ _ (Qeq_refl _)) in Hx2.
  split; [split; assumption|]. split; intros H0.
  - assert (H : (inject_Z 0 <= q / 2 ^ g)%Q).
    { apply Qle_shift_div_l; [assumption|]. change (inject_Z 0) with 0%Q. lra. }
    apply round_half_even_mono in H. now rewrite (round_half_even_Z _ _ (Qeq_refl _)) in H.
  - assert (H : (q / 2 ^ g <= inject_Z 0)%Q).
    { apply Qle_shift_div_r; [assumption|]. change (inject_Z 0) with 0%Q. lra. }
    apply round_half_even_mono in H. now rewrite (round_half_even_Z _ _ (Qeq_refl _)) in H.
Qed.

(** Rounding keeps a number within a power of two and on its side of
    zero; below 2^1024 the result is finite. *)
Lemma round_bounded (q : Q) (j : Z) :
  -1074 <= j <= 1023 -> (Qabs q <= 2 ^ j)%Q ->
  exists r, round q = Finite r /\ (Qabs r <= 2 ^ j)%Q
            /\ ((0 <= q)%Q -> (0 <= r)%Q) /\ ((q <= 0)%Q -> (r <= 0)%Q).
Proof.
  intros Hj Hq.
  destruct (Qeq_dec q 0) as [H0|H0].
  { rewrite (round_zero q H0). exists 0%Q. repeat split; try lra.
    assert (H := pow2_pos j). change (Qabs 0) with 0%Q. lra. }
  rewrite (round_nonzero q H0). cbv zeta.
  set (g := ulp_exponent q). assert (Hp := pow2_pos g).
  assert (Hg : g <= j).
  { unfold g, ulp_exponent. destruct (ilog2_spec q H0) as [Hl _].
    assert (ilog2 q <= j) by (apply pow2_le_inv; lra). lia. }
  destruct (mantissa_bounded q g j Hg Hq) as (Hm & Hpos & Hneg).
  set (m := Float.round_half_even (q / 2 ^ g)) in *.
  set (r := Qred (inject_Z m * 2 ^ g)).
  assert (Er : (r == inject_Z m * 2 ^ g)%Q) by apply Qred_correct.
  assert (Hr : (Qabs r <= 2 ^ j)%Q).
  { rewrite Er. apply Qabs_Qle_condition.
    assert (E : (2 ^ j == inject_Z (2 ^ (j - g)) * 2 ^ g)%Q).
    { rewrite pow2_inject by lia. rewrite <- pow2_add.
      now replace (j - g + g) with j by lia. }
    rewrite E. destruct Hm as [Hm1 Hm2]. rewrite Zle_Qle in Hm1, Hm2.
    rewrite inject_Z_opp in Hm1.
    split.
    - assert (E' : (- (inject_Z (2 ^ (j - g)) * 2 ^ g)
                     == (- inject_Z (2 ^ (j - g))) * 2 ^ g)%Q) by ring.
      rewrite E'. apply Qmult_le_compat_r; [assumption|lra].
    - apply Qmult_le_compat_r; [assumption|lra]. }
  destruct (Qle_bool (2 ^ 1024) (Qabs r)) eqn:Eo.
  { apply Qle_bool_iff in Eo. assert (H := pow2_lt j 1024 ltac:(lia)). lra. }
  exists r. split; [reflexivity|]. split; [assumption|]. split; intros H.
  - rewrite Er. apply Qmult_le_0_compat; [|lra].
    change 0%Q with (inject_Z 0). rewrite <- Zle_Qle. now apply Hpos.
  - rewrite Er. specialize (Hneg H). rewrite Zle_Qle in Hneg.
    change (inject_Z 0) with 0%Q in Hneg.
    assert (0 <= (- inject_Z m) * 2 ^ g)%Q by (apply Qmult_le_0_compat; lra).
    lra.
Qed.

(** A number with an integer mantissa of at most 53 bits, at an exponent
    from -1074 on and below 2^1024, is a float: rounding returns it. *)
Lemma round_exact (q : Q) (m0 g0 : Z) :
  (q == inject_Z m0 * 2 ^ g0)%Q ->
  Z.abs m0 <= 2 ^ 53 -> -1074 <= g0 -> (Qabs q < 2 ^ 1024)%Q ->
  exists r, round q = Finite r /\ (r == q)%Q.
Proof.
  intros Eq Hm Hg Hfin.
  destruct (Qeq_dec q 0) as [H0|H0].
  { rewrite (round_zero q H0). exists 0%Q. split; [reflexivity|]. now symmetry. }
  rewrite (round_nonzero q H0). cbv zeta.
  set (g := ulp_exponent q). assert (Hp := pow2_pos g). assert (Hp0 := pow2_pos g0).
  destruct (ilog2_spec q H0) as [Hl Hu].
  assert (Habs : (Qabs q == inject_Z (Z.abs m0) * 2 ^ g0)%Q).
  { rewrite Eq, Qabs_Qmult, (Qabs_pos (2 ^ g0)) by lra.
    destruct m0 as [|p|p]; reflexivity. }
  assert (He : ilog2 q <= 53 + g0).
  { apply pow2_le_inv. eapply Qle_trans; [exact Hl|]. rewrite Habs, pow2_add.
    apply Qmult_le_compat_r; [|lra]. rewrite <- pow2_inject by lia.
    now rewrite <- Zle_Qle. }
  assert (exists k, (q / 2 ^ g == inject_Z k)%Q) as [k Hk].
  { destruct (Z.le_gt_cases g g0) as [Hgg|Hgg].
    - exists (m0 * 2 ^ (g0 - g)). rewrite inject_Z_mult, pow2_inject by lia.
      rewrite Eq, pow2_sub. field. lra.
    - assert (Hge : g = g0 + 1 /\ ilog2 q = 53 + g0) by (unfold g, ulp_exponent in *; lia).
      destruct Hge as [Eg Ee].
      assert (Hm53 : Z.abs m0 = 2 ^ 53).
      { apply Z.le_antisymm; [assumption|].
        rewrite Zle_Qle, pow2_inject by lia.
        apply (Qmult_le_r _ _ (2 ^ g0)); [assumption|].
        rewrite <- pow2_add, <- Habs, <- Ee. assumption. }
      exists (m0 / 2). rewrite Eq, Eg, pow2_add.
      assert (E2 : m0 = 2 * (m0 / 2)).
      { destruct (Z.abs_eq_or_opp m0) as [E|E]; rewrite E in Hm53.
        - rewrite Hm53. reflexivity.
        - replace m0 with (- 2 ^ 53) by lia. reflexivity. }
      rewrite E2 at 1. rewrite inject_Z_mult. change (inject_Z 2) with 2%Q.
      change (2 ^ 1)%Q with 2%Q. field. lra. }
  rewrite (round_half_even_Z _ _ Hk).
  set (r := Qred (inject_Z k * 2 ^ g)).
  assert (Er : (r == q)%Q).
  { unfold r. rewrite Qred_correct, <- Hk. field. lra. }
  destruct (Qle_bool (2 ^ 1024) (Qabs r)) eqn:Eo.
  { apply Qle_bool_iff in Eo. rewrite Er in Eo. lra. }
  exists r. split; [reflexivity|assumption].
Qed.

(** Integers of at most 53 bits convert exactly. *)
Lemma of_Z_exact (z : Z) :
  Z.abs z <= 2 ^ 53 -> exists r, of_Z z = Finite r /\ (r == inject_Z z)%Q.
Proof.
  intros Hz. unfold of_Z. apply (round_exact (inject_Z z) z 0); try lia.
  - change (2 ^ 0)%Q with 1%Q. ring.
  - rewrite <- (pow2_inject 1024) by lia.
    assert (H : 2 ^ 53 < 2 ^ 1024) by (apply Z.pow_lt_mono_r; lia).
    assert (E : (Qabs (inject_Z z) == inject_Z (Z.abs z))%Q) by (now destruct z).
    rewrite E, <- Zlt_Qlt. lia.
Qed.
(** Rounded values: 0.1; the ties 2^53 + 1 and 2^53 + 3; the least
    number that overflows, 2^1024 - 2^970, and the number next to its
    opposite; half of the least subnormal number, and one and a half
    times it. *)
Example round_examples :
  Binary64.round (1 # 10) = Finite (3602879701896397 # 36028797018963968)
  /\ Binary64.of_Z (2 ^ 53 + 1) = Finite (inject_Z (2 ^ 53))
  /\ Binary64.of_Z (2 ^ 53 + 3) = Finite (inject_Z (2 ^ 53 + 4))
  /\ Binary64.of_Z (2 ^ 1024 - 2 ^ 970) = Infinity false
  /\ Binary64.of_Z (- (2 ^ 1024 - 2 ^ 970) + 1) = Finite (inject_Z (- (2 ^ 1024 - 2 ^ 971)))
  /\ Binary64.round (Qmake 1 (2 ^ 1075)) = Finite 0
  /\ Binary64.round (Qmake 3 (2 ^ 1075)) = Finite (Qmake 1 (2 ^ 1073)).
Proof. vm_compute. repeat split. Qed.
End Rounding.

(** ** The rank percentage *)

Section RankPercentage.
Import Binary64.

Lemma le_lt_or_tie (x s : pyfloat) :
  (if Float.le x s then 1 else 0)
  = (if Float.lt x s then 1 else 0) + (if Float.le x s && Float.le s x then 1 else 0).
Proof.
  destruct x as [a|[|]|], s as [b|[|]|]; try reflexivity.
  cbn [Float.le Float.lt]. rewrite <- (Qcompare_antisym a b).
  now destruct (a ?= b)%Q.
Qed.

Lemma count_lt_below (a : list pyfloat) (s : pyfloat) :
  count (fun x => Float.lt x s) a = Spec.below a s.
Proof.
  unfold count. induction a as [|x a IH]; [reflexivity|].
  cbn [List.filter Spec.below]. rewrite <- IH.
  destruct (Float.lt x s); cbn [length]; lia.
Qed.

Lemma count_le_below_ties (a : list pyfloat) (s : pyfloat) :
  count (fun x => Float.le x s) a = Spec.below a s + Spec.ties a s.
Proof.
  unfold count. induction a as [|x a IH]; [reflexivity|].
  cbn [List.filter Spec.below Spec.ties].
  assert (H := le_lt_or_tie x s).
  destruct (Float.le x s); cbn [length]; lia.
Qed.

Lemma ties_nonneg (a : list pyfloat) (s : pyfloat) : 0 <= Spec.ties a s.
Proof.
  induction a as [|x a IH]; cbn [Spec.ties]; [lia|].
  destruct (Float.le x s && Float.le s x); lia.
Qed.

Lemma rank_sum_twice_rank (a : list pyfloat) (s : pyfloat) :
  let left := count (fun x => Float.lt x s) a in
  let right := count (fun x => Float.le x s) a in
  left + right + (if left <? right then 1 else 0) = Spec.twice_rank a s.
Proof.
  cbv zeta. rewrite count_lt_below, count_le_below_ties. unfold Spec.twice_rank.
  assert (H := ties_nonneg a s).
  destruct (Z.ltb_spec (Spec.below a s) (Spec.below a s + Spec.ties a s)),
    (Z.ltb_spec 0 (Spec.ties a s)); lia.
Qed.

Lemma percentileofscore_rank_percentage (a : list pyfloat) (s : pyfloat) :
  a <> [] -> existsb Float.isnan a = false -> Float.isnan s = false ->
  percentileofscore a s = Spec.rank_percentage a s.
Proof.
  intros Ha Hn Hs. unfold percentileofscore, Spec.rank_percentage.
  rewrite Hn, Hs. apply length_zero_eqb in Ha. rewrite Ha.
  now rewrite rank_sum_twice_rank.
Qed.

Lemma twice_rank_bounds (a : list pyfloat) (s : pyfloat) :
  0 <= Spec.twice_rank a s <= 2 * Z.of_nat (length a).
Proof.
  rewrite <- rank_sum_twice_rank. apply (rank_points_bounds a s).
Qed.

Lemma pow2_Z (k : Z) (q : Q) : 0 <= k -> (Qabs q <= inject_Z (2 ^ k))%Q -> (Qabs q <= 2 ^ k)%Q.
Proof. intros Hk H. now rewrite <- pow2_inject. Qed.

(** Below 2^52 scores the rank percentage is a number between 0 and
    2^59. *)
Lemma rank_percentage_finite (a : list pyfloat) (s : pyfloat) :
  a <> [] -> Z.of_nat (length a) < 2 ^ 52 ->
  exists P, Spec.rank_percentage a s = Finite P /\ (0 <= P)%Q /\ (P <= 2 ^ 59)%Q.
Proof.
  intros Ha Hn. unfold Spec.rank_percentage.
  assert (Hlen : 1 <= Z.of_nat (length a)) by (destruct a; [congruence|cbn [length]; lia]).
  destruct (twice_rank_bounds a s) as [Hk0 Hk1].
  destruct (of_Z_exact (Z.of_nat (length a)) ltac:(lia)) as (n & -> & En).
  destruct (of_Z_exact (Spec.twice_rank a s) ltac:(lia)) as (k & -> & Ek).
  cbn [div mul].
  assert (Hn1 : (1 <= n)%Q) by (rewrite En; change 1%Q with (inject_Z 1); now rewrite <- Zle_Qle).
  assert (Hc : (0 <= 50 / n)%Q /\ (50 / n <= 2 ^ 6)%Q).
  { split.
    - apply Qle_shift_div_l; lra.
    - apply Qle_shift_div_r; [lra|]. change (2 ^ 6)%Q with 64%Q. lra. }
  destruct (round_bounded (50 / n) 6 ltac:(lia)) as (c & -> & Hc1 & Hc2 & _).
  { rewrite Qabs_pos; tauto. }
  specialize (Hc2 (proj1 Hc)). rewrite Qabs_pos in Hc1 by assumption.
  assert (Hk : (0 <= k)%Q /\ (k <= 2 ^ 53)%Q).
  { rewrite Ek, <- (pow2_inject 53) by lia. change 0%Q with (inject_Z 0).
    rewrite <- !Zle_Qle. lia. }
  assert (Hkc : (0 <= k * c)%Q) by (apply Qmult_le_0_compat; tauto).
  assert (Hkc' : (k * c <= 2 ^ 59)%Q).
  { change 59 with (53 + 6). rewrite pow2_add.
    apply Qle_trans with (k * 2 ^ 6)%Q.
    - rewrite (Qmult_comm k c), (Qmult_comm k (2 ^ 6)).
      apply Qmult_le_compat_r; tauto.
    - apply Qmult_le_compat_r; [tauto|]. assert (H := pow2_pos 6). lra. }
  destruct (round_bounded (k * c) 59 ltac:(lia)) as (P & -> & HP1 & HP2 & _).
  { now rewrite Qabs_pos. }
  specialize (HP2 Hkc). rewrite Qabs_pos in HP1 by assumption.
  exists P. auto.
Qed.
End RankPercentage.

(** ** Rounding to an integer *)

Lemma nearest_even_round (q : Q) : Spec.nearest_even q (Float.round_half_even q).
Proof.
  destruct (round_half_even_bounds q) as ([Hlo Hhi] & Hup & Hdown).
  set (z := Float.round_half_even q) in *.
  destruct q as [n d]. cbn [Qnum Qden] in *.
  assert (Hd : ((n # d) - inject_Z z == Qmake (n - z * Z.pos d)%Z d)%Q).
  { unfold Qeq, Qminus, Qplus, Qopp, inject_Z. cbn [Qnum Qden]. nia. }
  unfold Spec.nearest_even. rewrite Hd.
  unfold Qabs, Qle, Qeq. cbn [Qnum Qden]. split; [lia|].
  intros H. destruct (Z.abs_spec (n - z * Z.pos d)) as [[_ E]|[_ E]]; rewrite E in H.
  - apply Hup. lia.
  - apply Hdown. lia.
Qed.

Lemma nearest_even_unique (q : Q) (z1 z2 : Z) :
  Spec.nearest_even q z1 -> Spec.nearest_even q z2 -> z1 = z2.
Proof.
  intros [H1 E1] [H2 E2].
  apply Qabs_Qle_condition in H1, H2.
  assert (Hd : (- 1 <= inject_Z z1 - inject_Z z2 <= 1)%Q) by lra.
  assert (Hz : -1 <= z1 - z2 <= 1).
  { destruct Hd as [Ha Hb]. split.
    - rewrite Zle_Qle. unfold Z.sub. rewrite inject_Z_plus, inject_Z_opp.
      change (inject_Z (-1)) with (- 1)%Q. lra.
    - rewrite Zle_Qle. unfold Z.sub. rewrite inject_Z_plus, inject_Z_opp.
      change (inject_Z 1) with 1%Q. lra. }
  destruct (Z.eq_dec z1 z2) as [|Hne]; [assumption|exfalso].
  assert (Hq : (inject_Z z1 - inject_Z z2 == inject_Z (z1 - z2))%Q).
  { unfold Z.sub. rewrite inject_Z_plus, inject_Z_opp. reflexivity. }
  assert (Hc : z1 - z2 = 1 \/ z1 - z2 = -1) by lia.
  assert (Ht1 : (Qabs (q - inject_Z z1) == 1 # 2)%Q /\ (Qabs (q - inject_Z z2) == 1 # 2)%Q).
  { destruct Hc as [Hc|Hc]; rewrite Hc in Hq.
    - change (inject_Z 1) with 1%Q in Hq. split.
      + rewrite Qabs_neg by lra. lra.
      + rewrite Qabs_pos by lra. lra.
    - change (inject_Z (-1)) with (- 1)%Q in Hq. split.
      + rewrite Qabs_pos by lra. lra.
      + rewrite Qabs_neg by lra. lra. }
  destruct Ht1 as [T1 T2]. specialize (E1 T1). specialize (E2 T2).
  replace z1 with (z2 + (z1 - z2)) in E1 by lia.
  rewrite Z.even_add, E2 in E1. destruct Hc as [Hc|Hc]; rewrite Hc in E1; discriminate.
Qed.

(** ** The calculator *)

Section Calculator.
Import Binary64.

Lemma before_rounding_finite (higher : bool) (P : Q) :
  (0 <= P)%Q -> (P <= 2 ^ 59)%Q ->
  exists v, Spec.before_rounding higher (Finite P) = Finite v.
Proof.
  intros H0 H1. unfold Spec.before_rounding, sub. cbn [Float.neg add].
  assert (Hp : (2 ^ 59 < 2 ^ 60)%Q) by (apply pow2_lt; lia).
  assert (Hq : (2 ^ 59 == 576460752303423488)%Q) by reflexivity.
  destruct higher.
  - destruct (round_bounded (P + - (1)) 60 ltac:(lia)) as (x & -> & _).
    { apply Qabs_Qle_condition. lra. }
    destruct (Float.lt (Finite 0) (Finite x)); eauto.
  - destruct (round_bounded (100 + - P) 60 ltac:(lia)) as (x & -> & _).
    { apply Qabs_Qle_condition. lra. }
    eauto.
Qed.

Lemma calculate_percentile_before_rounding sort_rows our_score d total :
  dropna (Score d) <> [] ->
  calculate_percentile sort_rows our_score d total
  = option_map clamp
      (Float.py_round
         (Spec.before_rounding (higher_is_better sort_rows d)
            (percentileofscore (dropna (Score d)) our_score))).
Proof.
  intros Hd. unfold calculate_percentile, Spec.before_rounding, Float.max0.
  apply length_zero_eqb in Hd. rewrite Hd.
  destruct (higher_is_better sort_rows d); now destruct (Float.py_round _).
Qed.

Lemma dropna_length_le (l : list pyfloat) : (length (dropna l) <= length l)%nat.
Proof. unfold dropna. apply List.filter_length_le. Qed.

(** The steps of the calculator on a leaderboard with a numeric score,
    for a score that is a number. *)
Lemma calculate_percentile_steps sort_rows our_score d total :
  has_numeric_score d -> numeric our_score -> array_sized d ->
  exists P v : Q,
    percentileofscore (dropna (Score d)) our_score = Finite P
    /\ Spec.rank_percentage (dropna (Score d)) our_score = Finite P
    /\ Spec.before_rounding (higher_is_better sort_rows d) (Finite P) = Finite v
    /\ calculate_percentile sort_rows our_score d total
       = Some (clamp (Float.round_half_even v)).
Proof.
  intros Hd Hs Hn. apply has_numeric_score_dropna in Hd.
  assert (Hlen : Z.of_nat (length (dropna (Score d))) < 2 ^ 52).
  { assert (H := dropna_length_le (Score d)). rewrite Score_length in H.
    unfold array_sized in Hn. lia. }
  destruct (rank_percentage_finite _ our_score Hd Hlen) as (P & HP & H0 & H1).
  destruct (before_rounding_finite (higher_is_better sort_rows d) P H0 H1) as (v & Hv).
  exists P, v.
  assert (E := percentileofscore_rank_percentage _ our_score Hd (dropna_no_nan _) Hs).
  rewrite HP in E. split; [assumption|]. split; [assumption|]. split; [assumption|].
  rewrite (calculate_percentile_before_rounding _ _ _ _ Hd), E, Hv. reflexivity.
Qed.
End Calculator.

(** C1: with a numeric score on the leaderboard and an input score that
    is a number, the calculator returns the clamp into [1, 100] of the
    integer nearest to max(0, P - 1) when higher is better and to 100 - P
    otherwise, the even one on a tie, where P is the rank of the score as
    a percentage, (2 b + t + 1) * (50 / n) for b scores below it and t > 0
    tied with it, all in binary64 arithmetic. *)
Theorem calculate_percentile_formula (sort_rows : Leaderboard -> Leaderboard)
    (our_score : pyfloat) (d : Leaderboard) (total : nat) :
  has_numeric_score d -> numeric our_score -> array_sized d ->
  exists (P v : Q) (z : Z),
    Binary64.percentileofscore (dropna (Score d)) our_score = Finite P
    /\ Spec.rank_percentage (dropna (Score d)) our_score = Finite P
    /\ Spec.before_rounding (Binary64.higher_is_better sort_rows d) (Finite P) = Finite v
    /\ Spec.nearest_even v z
    /\ Binary64.calculate_percentile sort_rows our_score d total = Some (clamp z)
    /\ 1 <= clamp z <= 100.
Proof.
  intros Hd Hs Hn.
  destruct (calculate_percentile_steps sort_rows our_score d total Hd Hs Hn)
    as (P & v & HP & HR & Hv & Hc).
  exists P, v, (Float.round_half_even v).
  split; [assumption|]. split; [assumption|]. split; [assumption|].
  split; [apply nearest_even_round|]. split; [assumption|apply clamp_range].
Qed.

Lemma sort_values_sorts_by_rank : sorts_by_rank sort_values.
Proof. intros d. split; [apply sort_values_same_rows|apply sort_values_ascending]. Qed.

Lemma calculate_percentile_formula_witness :
  (exists (P v : Q) (z : Z),
      Binary64.percentileofscore (dropna (Score leaderboard_100)) (Finite 62) = Finite P
      /\ Spec.rank_percentage (dropna (Score leaderboard_100)) (Finite 62) = Finite P
      /\ Spec.before_rounding (Binary64.higher_is_better sort_values leaderboard_100)
           (Finite P) = Finite v
      /\ Spec.nearest_even v z
      /\ Binary64.calculate_percentile sort_values (Finite 62) leaderboard_100 20
         = Some (clamp z)
      /\ 1 <= clamp z <= 100)
  /\ (exists (P v : Q) (z : Z),
        Binary64.percentileofscore (dropna (Score leaderboard_12)) (Finite 7) = Finite P
        /\ Spec.rank_percentage (dropna (Score leaderboard_12)) (Finite 7) = Finite P
        /\ Spec.before_rounding (Binary64.higher_is_better sort_values leaderboard_12)
             (Finite P) = Finite v
        /\ Spec.nearest_even v z
        /\ Binary64.calculate_percentile sort_values (Finite 7) leaderboard_12 12
           = Some (clamp z)
        /\ 1 <= clamp z <= 100).
Proof.
  split.
  - apply (calculate_percentile_formula sort_values (Finite 62) leaderboard_100 20).
    + exists (Finite 100). split; [left; reflexivity|reflexivity].
    + reflexivity.
    + vm_compute. reflexivity.
  - apply (calculate_percentile_formula sort_values (Finite 7) leaderboard_12 12).
    + exists (Finite 1). split; [left; reflexivity|reflexivity].
    + reflexivity.
    + vm_compute. reflexivity.
Defined.

(** The two branches on the two leaderboards.  On the first one higher is
    better and the score 62 has twelve scores below it: P = 60, and the
    result is 59.  On the second one lower is better and the score 7 ties
    with two of the twelve scores: P = 15 * (50 / 12) is the float above
    62.5, so 100 - P lies below 37.5 and the result is 37 (in exact
    arithmetic it would be the tie 37.5, rounded to 38). *)
Example calculate_percentile_branches :
  Binary64.higher_is_better sort_values leaderboard_100 = true
  /\ Binary64.percentileofscore (dropna (Score leaderboard_100)) (Finite 62) = Finite 60
  /\ Binary64.calculate_percentile sort_values (Finite 62) leaderboard_100 20 = Some 59
  /\ Binary64.higher_is_better sort_values leaderboard_12 = false
  /\ Binary64.percentileofscore (dropna (Score leaderboard_12)) (Finite 7)
     = Finite (8796093022208001 # 140737488355328)
  /\ Spec.before_rounding false (Finite (8796093022208001 # 140737488355328))
     = Finite (5277655813324799 # 140737488355328)
  /\ Binary64.calculate_percentile sort_values (Finite 7) leaderboard_12 12 = Some 37.
Proof. vm_compute. repeat split. Qed.

(** ** The direction *)

Section Direction.
Import Binary64.

Lemma mean_up_to_ten (l : list pyfloat) :
  l <> [] -> (length l <= 10)%nat -> mean l = Spec.mean l.
Proof.
  intros Hne Hlen. unfold mean, Spec.mean, sum.
  destruct l as [|a0 l]; [congruence|]. f_equal.
  do 10 (destruct l as [|? l]; [reflexivity|]).
  cbn [length] in Hlen. lia.
Qed.

Lemma df_head_first (l : list pyfloat) :
  df_head 10 l = firstn (Nat.min 10 (length l)) l.
Proof.
  unfold df_head. destruct (Nat.le_gt_cases 10 (length l)) as [H|H].
  - now rewrite Nat.min_l.
  - rewrite Nat.min_r by lia. now rewrite !take_ge by lia.
Qed.

Lemma df_tail_last (l : list pyfloat) :
  df_tail 10 l = skipn (length l - Nat.min 10 (length l)) l.
Proof.
  unfold df_tail. f_equal. lia.
Qed.

Lemma higher_is_better_direction sort_rows d :
  higher_is_better sort_rows d = Spec.direction (Score (sort_rows d)).
Proof.
  unfold higher_is_better, Spec.direction.
  rewrite df_head_first, df_tail_last.
  set (l := Score (sort_rows d)). set (k := Nat.min 10 (length l)).
  assert (Ht : (length (dropna (firstn k l)) <= 10)%nat).
  { etransitivity; [apply dropna_length_le|]. rewrite length_take. lia. }
  assert (Hb : (length (dropna (skipn (length l - k) l)) <= 10)%nat).
  { etransitivity; [apply dropna_length_le|]. rewrite length_drop. lia. }
  destruct (dropna (firstn k l)) as [|t top] eqn:Et; [reflexivity|].
  destruct (dropna (skipn (length l - k) l)) as [|b bottom] eqn:Eb; [reflexivity|].
  cbn [length Nat.ltb Nat.leb andb].
  now rewrite !mean_up_to_ten by (assumption || discriminate).
Qed.
End Direction.

(** C3: whatever way the sort orders rows of equal rank, the rows are
    taken in ascending rank order, and higher-is-better is selected iff the
    mean score of the first ten of them (all when there are fewer) is
    strictly above the mean score of the last ten, and by default when one
    of the two groups holds no score; the percentile of every queried
    score is computed with that one direction. *)
Theorem direction_inference (sort_rows : Leaderboard -> Leaderboard) (d : Leaderboard) :
  sorts_by_rank sort_rows ->
  ranks_ascending (sort_rows d)
  /\ same_rows (sort_rows d) d
  /\ Binary64.higher_is_better sort_rows d = Spec.direction (Score (sort_rows d))
  /\ (forall our_score total,
        has_numeric_score d -> numeric our_score -> array_sized d ->
        exists (P v : Q) (z : Z),
          Spec.rank_percentage (dropna (Score d)) our_score = Finite P
          /\ Spec.before_rounding (Spec.direction (Score (sort_rows d))) (Finite P) = Finite v
          /\ Spec.nearest_even v z
          /\ Binary64.calculate_percentile sort_rows our_score d total = Some (clamp z)).
Proof.
  intros Hsort. destruct (Hsort d) as [Hsame Hasc].
  split; [assumption|]. split; [assumption|]. split; [apply higher_is_better_direction|].
  intros our_score total Hd Hs Hn.
  destruct (calculate_percentile_steps sort_rows our_score d total Hd Hs Hn)
    as (P & v & _ & HR & Hv & Hc).
  exists P, v, (Float.round_half_even v). rewrite <- higher_is_better_direction.
  split; [assumption|]. split; [assumption|].
  split; [apply nearest_even_round|assumption].
Qed.

Lemma direction_inference_witness :
  ranks_ascending (sort_values leaderboard_close)
  /\ same_rows (sort_values leaderboard_close) leaderboard_close
  /\ Binary64.higher_is_better sort_values leaderboard_close
     = Spec.direction (Score (sort_values leaderboard_close))
  /\ (forall our_score total,
        has_numeric_score leaderboard_close -> numeric our_score ->
        array_sized leaderboard_close ->
        exists (P v : Q) (z : Z),
          Spec.rank_percentage (dropna (Score leaderboard_close)) our_score = Finite P
          /\ Spec.before_rounding (Spec.direction (Score (sort_values leaderboard_close)))
               (Finite P) = Finite v
          /\ Spec.nearest_even v z
          /\ Binary64.calculate_percentile sort_values our_score leaderboard_close total
             = Some (clamp z)).
Proof.
  apply (direction_inference sort_values leaderboard_close).
  exact sort_values_sorts_by_rank.
Defined.

(** The means of two groups of close scores can fall together: the ten
    scores 1.7000000000000002 and the ten scores 1.7 below them have the
    same float mean, so the direction read off this leaderboard is
    lower-is-better. *)
Example direction_of_close_scores :
  (forall a b,
      In a (df_head 10 (Score (sort_values leaderboard_close))) ->
      In b (df_tail 10 (Score (sort_values leaderboard_close))) -> Float.lt b a = true)
  /\ Spec.mean (df_head 10 (Score (sort_values leaderboard_close)))
     = Spec.mean (df_tail 10 (Score (sort_values leaderboard_close)))
  /\ Binary64.higher_is_better sort_values leaderboard_close = false.
Proof.
  split; [apply all_pairs_lt; vm_compute; reflexivity|]. vm_compute. split; reflexivity.
Qed.

(** C2: the best score does not reach 100.  On the twenty-team
    leaderboard whose scores fall from 100 to 5 with the rank, all of the
    first ten scores exceed all of the last ten and higher-is-better is
    selected; the score 200 lies above every score of the leaderboard,
    its rank percentage is 100, and the calculator returns 99. *)
Theorem best_score_gets_99 :
  (forall a b,
      In a (df_head 10 (Score (sort_values leaderboard_100))) ->
      In b (df_tail 10 (Score (sort_values leaderboard_100))) -> Float.lt b a = true)
  /\ Binary64.higher_is_better sort_values leaderboard_100 = true
  /\ (forall a, In a (Score leaderboard_100) -> Float.lt a (Finite 200) = true)
  /\ Binary64.percentileofscore (dropna (Score leaderboard_100)) (Finite 200) = Finite 100
  /\ Binary64.calculate_percentile sort_values (Finite 200) leaderboard_100 20 = Some 99
  /\ Binary64.calculate_percentile sort_values (Finite 0) leaderboard_100 20 = Some 1.
Proof.
  split; [apply all_pairs_lt; vm_compute; reflexivity|].
  split; [vm_compute; reflexivity|].
  split.
  - intros a Ha. assert (H : forallb (fun a => Float.lt a (Finite 200)) (Score leaderboard_100)
                             = true) by (vm_compute; reflexivity).
    rewrite forallb_forall in H. now apply H.
  - vm_compute. repeat split.
Qed.

(** ** Integer cells *)

(** X3: an integer cell is read as the float nearest to the integer, and
    as the integer itself up to 2^53 in magnitude; so a percentile written
    by the sweep parses back to the same number. *)
Theorem parse_score_value_int_float (z : Z) :
  Z.abs z < FloatParse.overflow_threshold ->
  Binary64.parse_score_value (CellInt z) = Some (Binary64.of_Z z)
  /\ (Z.abs z <= 2 ^ 53 ->
      exists r, Binary64.parse_score_value (CellInt z) = Some (Finite r)
                /\ (r == inject_Z z)%Q).
Proof.
  intros Hz.
  assert (E : Binary64.parse_score_value (CellInt z) = Some (Binary64.of_Z z)).
  { unfold Binary64.parse_score_value. now rewrite (parse_score_value_int z Hz). }
  split; [assumption|]. intros H53. rewrite E.
  destruct (of_Z_exact z H53) as (r & -> & Hr). eauto.
Qed.

Lemma parse_score_value_int_float_witness :
  Binary64.parse_score_value (CellInt (-42)) = Some (Binary64.of_Z (-42))
  /\ (Z.abs (-42) <= 2 ^ 53 ->
      exists r, Binary64.parse_score_value (CellInt (-42)) = Some (Finite r)
                /\ (r == inject_Z (-42))%Q).
Proof.
  apply (parse_score_value_int_float (-42)). vm_compute. reflexivity.
Defined.

(** Above 2^53 the integer need not come back: 2^53 + 1 is read as 2^53. *)
Example parse_score_value_int_rounded :
  Binary64.parse_score_value (CellInt (2 ^ 53 + 1)) = Some (Finite (inject_Z (2 ^ 53))).
Proof. vm_compute. reflexivity. Qed.

(** * The summary statistics in binary64 arithmetic *)

Section ExactSteps.
Import Binary64.

(** A multiple of a quarter, of up to 53 bits, is a float. *)
Lemma round_quarters (q : Q) (m : Z) :
  (q == inject_Z m * (1 # 4))%Q -> Z.abs m <= 2 ^ 53 ->
  exists r, round q = Finite r /\ (r == q)%Q.
Proof.
  intros Eq Hm. apply (round_exact q m (-2)); [exact Eq|assumption|lia|].
  assert (E : (Qabs q == inject_Z (Z.abs m) * (1 # 4))%Q).
  { rewrite Eq, Qabs_Qmult. change (Qabs (1 # 4)) with (1 # 4)%Q.
    now destruct m. }
  assert (H : (inject_Z (Z.abs m) <= inject_Z (2 ^ 53))%Q) by now rewrite <- Zle_Qle.
  assert (H0 : (0 <= inject_Z (Z.abs m))%Q).
  { change 0%Q with (inject_Z 0). rewrite <- Zle_Qle. lia. }
  rewrite E. eapply Qle_lt_trans with (inject_Z (2 ^ 53)); [lra|].
  rewrite <- (pow2_inject 1024) by lia. rewrite <- Zlt_Qlt.
  apply Z.pow_lt_mono_r; lia.
Qed.

Lemma quarters_whole (z : Z) : quarters (Finite (inject_Z z)) (4 * z).
Proof.
  exists (inject_Z z). split; [reflexivity|]. rewrite inject_Z_mult.
  change (inject_Z 4) with 4%Q. field.
Qed.

Lemma add_quarters (u v : pyfloat) (a b : Z) :
  quarters u a -> quarters v b -> Z.abs (a + b) <= 2 ^ 53 -> quarters (add u v) (a + b).
Proof.
  intros (r1 & -> & E1) (r2 & -> & E2) Hb. cbn [add].
  destruct (round_quarters (r1 + r2) (a + b)) as (r & -> & Er); [|assumption|].
  - rewrite E1, E2, inject_Z_plus. ring.
  - exists r. split; [reflexivity|]. rewrite Er, E1, E2, inject_Z_plus. ring.
Qed.

Lemma sub_quarters (u v : pyfloat) (a b : Z) :
  quarters u a -> quarters v b -> Z.abs (a - b) <= 2 ^ 53 -> quarters (sub u v) (a - b).
Proof.
  intros Hu (r2 & -> & E2) Hb. unfold sub. cbn [Float.neg].
  apply add_quarters; [assumption| |assumption].
  exists (- r2)%Q. split; [reflexivity|]. rewrite E2, inject_Z_opp. ring.
Qed.

(** The product of a whole number and a multiple of a quarter. *)
Lemma mul_quarters (u v : pyfloat) (a b : Z) :
  quarters u (4 * a) -> quarters v b -> Z.abs (a * b) <= 2 ^ 53 -> quarters (mul u v) (a * b).
Proof.
  intros (r1 & -> & E1) (r2 & -> & E2) Hb. cbn [mul].
  assert (E : (r1 * r2 == inject_Z (a * b) * (1 # 4))%Q).
  { rewrite E1, E2, !inject_Z_mult. change (inject_Z 4) with 4%Q. field. }
  destruct (round_quarters (r1 * r2) (a * b) E Hb) as (r & -> & Er).
  exists r. split; [reflexivity|]. now rewrite Er.
Qed.

Lemma of_Z_quarters (z : Z) : Z.abs z <= 2 ^ 51 -> quarters (of_Z z) (4 * z).
Proof.
  intros Hz. destruct (of_Z_exact z) as (r & -> & Er); [lia|].
  exists r. split; [reflexivity|]. rewrite Er, inject_Z_mult.
  change (inject_Z 4) with 4%Q. field.
Qed.


Lemma quarters_bounds (a b j : Z) :
  Z.abs a <= 2 ^ 50 -> Z.abs b <= 2 ^ 50 -> 0 <= j <= 4 ->
  Z.abs ((b - a) * j) <= 2 ^ 53 /\ Z.abs ((b - a) * (4 - j)) <= 2 ^ 53
  /\ Z.abs (4 * a + (b - a) * j) <= 2 ^ 52.
Proof.
  intros Ha Hb Hj.
  assert (H : j = 0 \/ j = 1 \/ j = 2 \/ j = 3 \/ j = 4) by lia.
  destruct H as [->|[->|[->|[->| ->]]]]; lia.
Qed.

(** Between two whole numbers, at a multiple of a quarter, the
    interpolation does not round. *)
Lemma lerp_quarters (A B T : pyfloat) (a b j : Z) :
  quarters A (4 * a) -> quarters B (4 * b) -> quarters T j ->
  Z.abs a <= 2 ^ 50 -> Z.abs b <= 2 ^ 50 -> 0 <= j <= 4 ->
  quarters (lerp A B T) (4 * a + (b - a) * j).
Proof.
  intros HA HB HT Ha Hb Hj.
  destruct (quarters_bounds a b j Ha Hb Hj) as (H1 & H2 & H3).
  assert (Hd : quarters (sub B A) (4 * (b - a))).
  { replace (4 * (b - a)) with (4 * b - 4 * a) by ring. apply sub_quarters; auto. lia. }
  unfold lerp. destruct (Float.le (Finite (1 # 2)) T).
  - replace (4 * a + (b - a) * j) with (4 * b - (b - a) * (4 - j)) by ring.
    apply sub_quarters; [assumption| |].
    + apply mul_quarters; [assumption| |assumption].
      apply sub_quarters; [|assumption|lia].
      exists 1%Q. split; reflexivity.
    + replace (4 * b - (b - a) * (4 - j)) with (4 * a + (b - a) * j) by ring. lia.
  - apply add_quarters; [assumption| |lia].
    apply mul_quarters; assumption.
Qed.
End ExactSteps.

Lemma mean_of_one (a : Q) : mean [Finite a] = Finite ((0 + a) / inject_Z (Z.of_nat 1)).
Proof. reflexivity. Qed.

Lemma mean_of_two (a b : Q) :
  mean [Finite a; Finite b] = Finite ((0 + a + b) / inject_Z (Z.of_nat 2)).
Proof. reflexivity. Qed.

Section WholeArrays.
Import Binary64.

Local Ltac push_inject :=
  unfold Z.sub;
  repeat first [rewrite inject_Z_plus | rewrite inject_Z_mult | rewrite inject_Z_opp];
  change (inject_Z 4) with 4%Q; change (inject_Z 2) with 2%Q.

Lemma whole_values_map (x : list pyfloat) :
  whole_values x ->
  exists zs, x = map Finite (map inject_Z zs)
             /\ Forall (fun z => Z.abs z <= 2 ^ 50) zs
             /\ Z.of_nat (length zs) <= 2 ^ 50.
Proof.
  intros [Hlen Hx].
  assert (H : exists zs, x = map Finite (map inject_Z zs)
                         /\ Forall (fun z => Z.abs z <= 2 ^ 50) zs).
  { clear Hlen. induction Hx as [|v x (z & -> & Hz) _ (zs & -> & Hzs)].
    - exists []. now split.
    - exists (z :: zs). split; [reflexivity|now constructor]. }
  destruct H as (zs & -> & Hzs). exists zs. rewrite !length_map in Hlen. auto.
Qed.

Lemma sort_whole (zs : list Z) :
  exists s, NumPy.sort (map Finite (map inject_Z zs)) = map Finite (map inject_Z s)
            /\ Permutation zs s.
Proof.
  destruct (sort_finite (map inject_Z zs)) as (qs & E & Hp & _).
  symmetry in Hp. apply Permutation_map_inv in Hp as (s & -> & Hp).
  exists s. split; assumption.
Qed.

Lemma item_whole (s : list Z) (i : nat) :
  (i < length s)%nat ->
  NumPy.item (map Finite (map inject_Z s)) i = Finite (inject_Z (nth i s 0)).
Proof.
  intros H. rewrite item_finite by (rewrite length_map; lia).
  f_equal. change 0%Q with (inject_Z 0). apply map_nth.
Qed.

Lemma last_item_whole (s : list Z) :
  s <> [] ->
  NumPy.last_item (map Finite (map inject_Z s)) = Finite (inject_Z (nth (length s - 1) s 0)).
Proof.
  intros H. rewrite last_item_finite by (destruct s; [congruence|discriminate]).
  rewrite length_map. f_equal. change 0%Q with (inject_Z 0). apply map_nth.
Qed.

Lemma nth_bounded (s : list Z) (i : nat) :
  Forall (fun z => Z.abs z <= 2 ^ 50) s -> (i < length s)%nat -> Z.abs (nth i s 0) <= 2 ^ 50.
Proof.
  intros Hs Hi. rewrite List.Forall_forall in Hs. apply Hs, nth_In, Hi.
Qed.

Lemma skipn_nth (s : list Z) : forall i,
  (i < length s)%nat -> skipn i s = nth i s 0 :: skipn (S i) s.
Proof.
  induction s as [|a s IH]; intros [|i] H; simpl in *; try lia; try reflexivity.
  apply IH. lia.
Qed.

Lemma mean_one (A : pyfloat) : mean [A] = div (add (Finite 0) A) (Finite 1).
Proof. reflexivity. Qed.

Lemma mean_two (A B : pyfloat) : mean [A; B] = div (add (add (Finite 0) A) B) (Finite 2).
Proof. reflexivity. Qed.

Lemma div_one (X : pyfloat) (m : Z) :
  quarters X m -> Z.abs m <= 2 ^ 53 -> quarters (div X (Finite 1)) m.
Proof.
  intros (r1 & -> & E1) Hm. cbn [div].
  assert (E : (r1 / 1 == inject_Z m * (1 # 4))%Q) by (rewrite E1; field).
  destruct (round_quarters _ m E Hm) as (r & -> & Er).
  exists r. split; [reflexivity|]. now rewrite Er.
Qed.

Lemma div_two (X : pyfloat) (c : Z) :
  quarters X (4 * c) -> Z.abs (2 * c) <= 2 ^ 53 -> quarters (div X (Finite 2)) (2 * c).
Proof.
  intros (r1 & -> & E1) Hm. cbn [div].
  assert (E : (r1 / 2 == inject_Z (2 * c) * (1 # 4))%Q) by (rewrite E1; push_inject; field).
  destruct (round_quarters _ (2 * c) E Hm) as (r & -> & Er).
  exists r. split; [reflexivity|]. now rewrite Er.
Qed.

(** The median of whole numbers is computed without rounding. *)
Lemma median_whole (zs : list Z) :
  zs <> [] -> Forall (fun z => Z.abs z <= 2 ^ 50) zs ->
  exists m r',
    quarters (median (map Finite (map inject_Z zs))) m /\ Z.abs m <= 2 ^ 52
    /\ NumPy.median (map Finite (map inject_Z zs)) = Finite r'
    /\ (r' == inject_Z m * (1 # 4))%Q.
Proof.
  intros Hne Hz. destruct (sort_whole zs) as (s & Hsort & Hp).
  assert (Hlen : length s = length zs) by (symmetry; now apply Permutation_length).
  assert (Hs : Forall (fun z => Z.abs z <= 2 ^ 50) s) by (eapply Permutation_Forall; eassumption).
  assert (Hs0 : s <> []) by (destruct s, zs; simpl in *; congruence).
  assert (Hn : (1 <= length zs)%nat) by (destruct zs; simpl; [congruence|lia]).
  unfold median, NumPy.median. rewrite Hsort, !length_map.
  rewrite (last_item_whole s Hs0). cbn [Float.isnan].
  assert (Hdiv := Nat.div2_odd (length zs)). rewrite Nat.div2_div in Hdiv.
  rewrite <- Hlen in *. set (n := length s) in *. set (j := (n / 2)%nat) in *.
  rewrite !List.skipn_map.
  destruct (Nat.odd n); simpl Nat.b2n in Hdiv.
  - rewrite (skipn_nth s j) by lia. cbn [map firstn]. rewrite firstn_O.
    set (a := nth j s 0). assert (Ha : Z.abs a <= 2 ^ 50) by (apply nth_bounded; [assumption|lia]).
    exists (4 * a). eexists. split; [|split; [lia|split]].
    + rewrite mean_one. apply div_one; [|lia].
      replace (4 * a) with (0 + 4 * a) by ring.
      apply add_quarters; [exists 0%Q; split; reflexivity|apply quarters_whole|lia].
    + rewrite mean_of_one. reflexivity.
    + change (inject_Z (Z.of_nat 1)) with 1%Q. push_inject. field.
  - rewrite (skipn_nth s (j - 1)) by lia. rewrite (skipn_nth s (S (j - 1))) by lia.
    cbn [map firstn]. rewrite firstn_O.
    set (a := nth (j - 1) s 0). set (b := nth (S (j - 1)) s 0).
    assert (Ha : Z.abs a <= 2 ^ 50) by (apply nth_bounded; [assumption|lia]).
    assert (Hb : Z.abs b <= 2 ^ 50) by (apply nth_bounded; [assumption|lia]).
    exists (2 * (a + b)). eexists. split; [|split; [lia|split]].
    + rewrite mean_two. apply div_two; [|lia].
      replace (4 * (a + b)) with (0 + 4 * a + 4 * b) by ring.
      apply add_quarters; [|apply quarters_whole|lia].
      apply add_quarters; [exists 0%Q; split; reflexivity|apply quarters_whole|lia].
    + rewrite mean_of_two. reflexivity.
    + change (inject_Z (Z.of_nat 2)) with 2%Q. push_inject. field.
Qed.

(** So is a percentile at a quantile that is a multiple of a quarter. *)
Lemma percentile_whole (zs : list Z) (q : Q) (k : Z) :
  zs <> [] -> Forall (fun z => Z.abs z <= 2 ^ 50) zs -> Z.of_nat (length zs) <= 2 ^ 50 ->
  (q / 100 == inject_Z k * (1 # 4))%Q -> 0 <= k <= 3 ->
  exists m r',
    quarters (percentile (map Finite (map inject_Z zs)) q) m /\ Z.abs m <= 2 ^ 52
    /\ NumPy.percentile (map Finite (map inject_Z zs)) q = Finite r'
    /\ (r' == inject_Z m * (1 # 4))%Q.
Proof.
  intros Hne Hz Hsize Hq Hk. destruct (sort_whole zs) as (s & Hsort & Hp).
  assert (Hlen : length s = length zs) by (symmetry; now apply Permutation_length).
  assert (Hs : Forall (fun z => Z.abs z <= 2 ^ 50) s) by (eapply Permutation_Forall; eassumption).
  assert (Hs0 : s <> []) by (destruct s, zs; simpl in *; congruence).
  assert (Hn : (1 <= length zs)%nat) by (destruct zs; simpl; [congruence|lia]).
  unfold percentile, NumPy.percentile. rewrite Hsort, !length_map.
  rewrite (last_item_whole s Hs0). cbn [Float.isnan].
  set (n := Z.of_nat (length zs)) in *.
  assert (Hquant : quarters (div (Finite q) (Finite 100)) k).
  { cbn [div]. destruct (round_quarters _ k Hq) as (r & -> & Er); [lia|].
    exists r. split; [reflexivity|]. now rewrite Er. }
  assert (Hvirt : quarters (mul (of_Z (n - 1)) (div (Finite q) (Finite 100))) ((n - 1) * k)).
  { apply mul_quarters; [apply of_Z_quarters; lia|assumption|nia]. }
  destruct Hvirt as (v & -> & Hv). cbv zeta.
  set (ve := (inject_Z (n - 1) * (q / 100))%Q).
  assert (Eve : (ve == v)%Q).
  { unfold ve. rewrite Hv, Hq, inject_Z_mult. ring. }
  assert (Eb : Qle_bool (inject_Z (n - 1)) ve = Qle_bool (inject_Z (n - 1)) v)
    by now rewrite Eve.
  assert (Ef : Qfloor ve = Qfloor v) by now rewrite Eve.
  rewrite Eb, Ef.
  assert (H4 : (inject_Z (4 * (n - 1)) == 4 * inject_Z (n - 1))%Q)
    by (rewrite inject_Z_mult; reflexivity).
  destruct (Qle_bool (inject_Z (n - 1)) v) eqn:Habove.
  - apply Qle_bool_iff in Habove.
    assert (Hn1 : n = 1).
    { assert (H : (inject_Z (4 * (n - 1)) <= inject_Z ((n - 1) * k))%Q) by (rewrite H4; lra).
      rewrite <- Zle_Qle in H. nia. }
    set (a := nth (length s - 1) s 0).
    assert (Ha : Z.abs a <= 2 ^ 50) by (apply nth_bounded; [assumption|lia]).
    assert (Hg : quarters (sub (Finite v) (of_Z (-1))) ((n - 1) * k - 4 * -1)).
    { apply sub_quarters; [now exists v|apply of_Z_quarters; lia|nia]. }
    destruct (lerp_finite (inject_Z a) (inject_Z a) (ve - inject_Z (-1))) as (r' & Er' & Hr').
    exists (4 * a + (a - a) * ((n - 1) * k - 4 * -1)), r'. split; [|split; [lia|split]].
    + apply lerp_quarters; try apply quarters_whole; try assumption. lia.
    + exact Er'.
    + rewrite Hr'. replace (4 * a + (a - a) * ((n - 1) * k - 4 * -1)) with (4 * a) by ring.
      push_inject. field.
  - assert (Hvk : (v < inject_Z (n - 1))%Q).
    { apply Qnot_le_lt. intros H. apply Qle_bool_iff in H. congruence. }
    assert (Hlo := Qfloor_le v). assert (Hhi := Qlt_floor v).
    rewrite inject_Z_plus in Hhi. change (inject_Z 1) with 1%Q in Hhi.
    set (p := Qfloor v) in *.
    assert (Hp0 : 0 <= p).
    { unfold p. rewrite <- (Qfloor_Z 0). apply Qfloor_resp_le. rewrite Hv.
      apply Qmult_le_0_compat; [|lra]. change 0%Q with (inject_Z 0). rewrite <- Zle_Qle. nia. }
    assert (Hp1 : p + 1 <= n - 1).
    { assert (H : (inject_Z p < inject_Z (n - 1))%Q) by lra.
      rewrite <- Zlt_Qlt in H. lia. }
    assert (E4 : (inject_Z (4 * p) == 4 * inject_Z p)%Q)
      by (rewrite inject_Z_mult; reflexivity).
    assert (Hj0 : 0 <= (n - 1) * k - 4 * p).
    { assert (H : (inject_Z (4 * p) <= inject_Z ((n - 1) * k))%Q) by (rewrite E4; lra).
      rewrite <- Zle_Qle in H. lia. }
    assert (Hj1 : (n - 1) * k - 4 * p < 4).
    { assert (H : (inject_Z ((n - 1) * k) < inject_Z (4 * p + 4))%Q).
      { rewrite inject_Z_plus, E4. change (inject_Z 4) with 4%Q. lra. }
      rewrite <- Zlt_Qlt in H. lia. }
    rewrite !item_whole by lia.
    set (a := nth (Z.to_nat p) s 0). set (b := nth (Z.to_nat (p + 1)) s 0).
    assert (Ha : Z.abs a <= 2 ^ 50) by (apply nth_bounded; [assumption|lia]).
    assert (Hb : Z.abs b <= 2 ^ 50) by (apply nth_bounded; [assumption|lia]).
    assert (Hg : quarters (sub (Finite v) (of_Z p)) ((n - 1) * k - 4 * p)).
    { apply sub_quarters; [now exists v|apply of_Z_quarters; lia|lia]. }
    destruct (lerp_finite (inject_Z a) (inject_Z b) (ve - inject_Z p)) as (r' & Er' & Hr').
    exists (4 * a + (b - a) * ((n - 1) * k - 4 * p)), r'.
    destruct (quarters_bounds a b ((n - 1) * k - 4 * p) Ha Hb) as (_ & _ & Hm); [lia|].
    split; [|split; [assumption|split]].
    + apply lerp_quarters; try apply quarters_whole; try assumption. lia.
    + exact Er'.
    + rewrite Hr', Eve, Hv. push_inject. field.
Qed.
End WholeArrays.

Lemma whole_values_finite (x : list pyfloat) : whole_values x -> finite_values x.
Proof.
  intros [_ H]. unfold finite_values. revert H. apply List.Forall_impl.
  intros v (z & -> & _). reflexivity.
Qed.

(** On whole numbers the four statistics are computed without rounding:
    the floats are the exact values. *)
Lemma agg_stats_whole (x : list pyfloat) :
  x <> [] -> whole_values x ->
  exists q1 m q3 d,
    Stats.q1 (Binary64.agg_stats x) = Finite q1
    /\ Stats.median (Binary64.agg_stats x) = Finite m
    /\ Stats.q3 (Binary64.agg_stats x) = Finite q3
    /\ Stats.iqr (Binary64.agg_stats x) = Finite d
    /\ (d == q3 - q1)%Q
    /\ exists q1' m' q3',
         Stats.q1 (agg_stats x) = Finite q1'
         /\ Stats.median (agg_stats x) = Finite m'
         /\ Stats.q3 (agg_stats x) = Finite q3'
         /\ (q1 == q1')%Q /\ (m == m')%Q /\ (q3 == q3')%Q.
Proof.
  intros Hne Hx. destruct (whole_values_map x Hx) as (zs & -> & Hz & Hsize).
  assert (Hzs : zs <> []) by (destruct zs; [contradiction|discriminate]).
  destruct (percentile_whole zs 25 1 Hzs Hz Hsize) as (k1 & q1' & (q1 & E1 & H1) & B1 & E1' & H1');
    [reflexivity|lia|].
  destruct (percentile_whole zs 75 3 Hzs Hz Hsize) as (k3 & q3' & (q3 & E3 & H3) & B3 & E3' & H3');
    [reflexivity|lia|].
  destruct (median_whole zs Hzs Hz) as (km & m' & (m & Em & Hm) & Bm & Em' & Hm').
  assert (Hd : quarters (Binary64.sub (Binary64.percentile (map Finite (map inject_Z zs)) 75)
                           (Binary64.percentile (map Finite (map inject_Z zs)) 25)) (k3 - k1)).
  { apply sub_quarters; [now exists q3|now exists q1|lia]. }
  destruct Hd as (d & Ed & Hd).
  exists q1, m, q3, d. unfold Binary64.agg_stats, agg_stats.
  cbn [Stats.q1 Stats.median Stats.q3 Stats.iqr].
  split; [assumption|]. split; [assumption|]. split; [assumption|]. split; [assumption|].
  split.
  - rewrite Hd, H1, H3. unfold Z.sub. rewrite inject_Z_plus, inject_Z_opp. ring.
  - exists q1', m', q3'. split; [assumption|]. split; [assumption|]. split; [assumption|].
    split; [now rewrite H1, H1'|]. split; [now rewrite Hm, Hm'|now rewrite H3, H3'].
Qed.

(** X14: for a non-empty group of whole numbers the statistics, as the
    floats that numpy computes, are ordered: q1 <= median <= q3, and iqr
    is their difference q3 - q1, hence never negative. *)
Theorem agg_stats_quartile_order (x : list pyfloat) :
  x <> [] -> whole_values x ->
  exists q1 m q3 d,
    Stats.q1 (Binary64.agg_stats x) = Finite q1
    /\ Stats.median (Binary64.agg_stats x) = Finite m
    /\ Stats.q3 (Binary64.agg_stats x) = Finite q3
    /\ Stats.iqr (Binary64.agg_stats x) = Finite d
    /\ (d == q3 - q1)%Q /\ (q1 <= m)%Q /\ (m <= q3)%Q /\ (0 <= d)%Q.
Proof.
  intros Hne Hx.
  destruct (agg_stats_whole x Hne Hx)
    as (q1 & m & q3 & d & E1 & Em & E3 & Ed & Hd & q1' & m' & q3' & E1' & Em' & E3' & H1 & Hm & H3).
  destruct (quartiles_ordered x Hne (whole_values_finite x Hx))
    as (a1 & am & a3 & F1 & Fm & F3 & _ & L1 & L3 & _).
  rewrite E1' in F1. rewrite Em' in Fm. rewrite E3' in F3.
  injection F1 as <-. injection Fm as <-. injection F3 as <-.
  exists q1, m, q3, d. repeat split; try assumption; lra.
Qed.

Lemma agg_stats_quartile_order_witness :
  exists q1 m q3 d,
    Stats.q1 (Binary64.agg_stats [Finite 40; Finite 10; Finite 90; Finite 20]) = Finite q1
    /\ Stats.median (Binary64.agg_stats [Finite 40; Finite 10; Finite 90; Finite 20]) = Finite m
    /\ Stats.q3 (Binary64.agg_stats [Finite 40; Finite 10; Finite 90; Finite 20]) = Finite q3
    /\ Stats.iqr (Binary64.agg_stats [Finite 40; Finite 10; Finite 90; Finite 20]) = Finite d
    /\ (d == q3 - q1)%Q /\ (q1 <= m)%Q /\ (m <= q3)%Q /\ (0 <= d)%Q.
Proof.
  apply agg_stats_quartile_order.
  - discriminate.
  - split; [cbn [length]; lia|].
    repeat constructor;
      [exists 40|exists 10|exists 90|exists 20]; (split; [reflexivity|lia]).
Defined.

(** X15: when every value of a non-empty group of whole numbers lies in
    a range, so do the median and the two quartiles that numpy computes,
    and iqr is at most the width of the range. *)
Theorem agg_stats_within (lo hi : Q) (x : list pyfloat) :
  x <> [] -> whole_values x -> values_within lo hi x ->
  exists q1 m q3 d,
    Stats.q1 (Binary64.agg_stats x) = Finite q1
    /\ Stats.median (Binary64.agg_stats x) = Finite m
    /\ Stats.q3 (Binary64.agg_stats x) = Finite q3
    /\ Stats.iqr (Binary64.agg_stats x) = Finite d
    /\ (lo <= q1 <= hi)%Q /\ (lo <= m <= hi)%Q /\ (lo <= q3 <= hi)%Q
    /\ (d <= hi - lo)%Q.
Proof.
  intros Hne Hx Hin.
  destruct (agg_stats_whole x Hne Hx)
    as (q1 & m & q3 & d & E1 & Em & E3 & Ed & Hd & q1' & m' & q3' & E1' & Em' & E3' & H1 & Hm & H3).
  destruct (quartiles_within lo hi x Hne Hin)
    as (a1 & am & a3 & F1 & Fm & F3 & _ & L1 & Lm & L3 & _).
  rewrite E1' in F1. rewrite Em' in Fm. rewrite E3' in F3.
  injection F1 as <-. injection Fm as <-. injection F3 as <-.
  exists q1, m, q3, d. repeat split; try assumption; lra.
Qed.

Lemma agg_stats_within_witness :
  exists q1 m q3 d,
    Stats.q1 (Binary64.agg_stats [Finite 40; Finite 10; Finite 90]) = Finite q1
    /\ Stats.median (Binary64.agg_stats [Finite 40; Finite 10; Finite 90]) = Finite m
    /\ Stats.q3 (Binary64.agg_stats [Finite 40; Finite 10; Finite 90]) = Finite q3
    /\ Stats.iqr (Binary64.agg_stats [Finite 40; Finite 10; Finite 90]) = Finite d
    /\ (1 <= q1 <= 100)%Q /\ (1 <= m <= 100)%Q /\ (1 <= q3 <= 100)%Q
    /\ (d <= 100 - 1)%Q.
Proof.
  apply agg_stats_within.
  - discriminate.
  - split; [cbn [length]; lia|].
    repeat constructor;
      [exists 40|exists 10|exists 90]; (split; [reflexivity|lia]).
  - repeat constructor; eexists; (split; [reflexivity|split; discriminate]).
Defined.

(** The statistics of the group 40, 10, 90, 20: the quartiles fall a
    quarter and three quarters of the way between two entries. *)
Example agg_stats_of_four :
  Binary64.agg_stats [Finite 40; Finite 10; Finite 90; Finite 20]
  = {| Stats.median := Finite 30; Stats.q1 := Finite (35 # 2); Stats.q3 := Finite (105 # 2);
       Stats.iqr := Finite 35; Stats.top10_frac := Finite 1; Stats.below50_frac := Finite 0 |}.
Proof. vm_compute. reflexivity. Qed.
